(** * GameRenderer: the per-frame scene traversal of rwengine

    A shallow embedding of [rwengine/src/render/GameRenderer.cpp]:
    [renderSubgeometry], [renderGeometry], [renderFrame], [renderModel],
    [renderWheel] and the object, transparency and water passes of
    [renderWorld], followed by the properties the design document states
    about them.

    Conventions of the embedding.
    - C++ [float] quantities are exact rationals ([Q]); rounding, infinities
      and NaN are outside the model.  Only additions, subtractions,
      divisions by constants and comparisons of them matter below.
    - [glm] is an external library: its matrix type and the operations
      the renderer calls are the fields of the class [Glm].
    - [size_t] is [N] below [2^64] with the wrap-around written out.
    - The OpenGL binding state is a record; every [glDrawElements] and
      [glDrawArrays] call is appended to a log together with the binding
      state it was issued under.
    - Indexing a vector out of range and dereferencing a null pointer are
      undefined behaviour in C++: the embedding stops with [Undefined],
      which keeps the state reached up to that point. *)

From Stdlib Require Import QArith Qfield Lqa.
From stdpp Require Import base option list strings gmap.

Set Warnings "-register-all".

Local Open Scope Q_scope.

(** ** Scalars *)

(** [a < b] on floats, as a boolean. *)
Definition Qltb (a b : Q) : bool := negb (Qle_bool b a).

(** [std::min(a, b)]: [(b < a) ? b : a]. *)
Definition std_min (a b : Q) : Q := if Qltb b a then b else a.

(** ** [size_t] *)

Definition SIZE_MAX1 : N := (2 ^ 64)%N.

Definition size_t_add (a b : N) : N := ((a + b) mod SIZE_MAX1)%N.
Definition size_t_sub (a b : N) : N := ((a + SIZE_MAX1 - b mod SIZE_MAX1) mod SIZE_MAX1)%N.

(** [v.size()] *)
Definition vec_size {A} (v : list A) : N := N.of_nat (length v).

(** [v[i]] on a [std::vector]; [None] stands for the out-of-range access. *)
Fixpoint at_index {A} (v : list A) (i : N) : option A :=
  match v with
  | [] => None
  | x :: v' => if (i =? 0)%N then Some x else at_index v' (N.pred i)
  end.

(** The indices [0 .. n-1] a [for (size_t i = 0; i < n; ++i)] loop runs over. *)
Definition indices {A} (v : list A) : list N := map N.of_nat (seq 0 (length v)).

(** ** Vectors *)

Definition vec2 : Type := Q * Q.
Definition vec3 : Type := Q * Q * Q.
Definition vec4 : Type := Q * Q * Q * Q.
(** [glm::quat], components w, x, y, z. *)
Definition quat : Type := Q * Q * Q * Q.

Definition vec3_add (a b : vec3) : vec3 :=
  let '(ax, ay, az) := a in let '(bx, by_, bz) := b in (ax + bx, ay + by_, az + bz).
Definition vec3_sub (a b : vec3) : vec3 :=
  let '(ax, ay, az) := a in let '(bx, by_, bz) := b in (ax - bx, ay - by_, az - bz).
Definition dot (a b : vec3) : Q :=
  let '(ax, ay, az) := a in let '(bx, by_, bz) := b in ax * bx + ay * by_ + az * bz.

Definition vec2_add (a b : vec2) : vec2 := (fst a + fst b, snd a + snd b).
Definition vec2_mul (a b : vec2) : vec2 := (fst a * fst b, snd a * snd b).
(** [glm::vec2(s)] and [v + s] with a scalar. *)
Definition vec2_splat (s : Q) : vec2 := (s, s).
(** [glm::vec2(v)] of a [vec3]: drops z. *)
Definition vec2_of_vec3 (v : vec3) : vec2 := (fst (fst v), snd (fst v)).

Definition white : vec4 := (1, 1, 1, 1).

(** The part of glm the renderer uses. *)
Class Glm := {
  mat4 : Type;
  (** [glm::mat4()] *)
  mat4_identity : mat4;
  translate : mat4 -> vec3 -> mat4;
  scale : mat4 -> vec3 -> mat4;
  mat4_cast : quat -> mat4;
  (** [a * b] *)
  mat4_mul : mat4 -> mat4 -> mat4;
  inverse : mat4 -> mat4;
  (** [glm::vec3(m[3])], the translation column *)
  column3 : mat4 -> vec3;
  (** [glm::length] on [vec3] *)
  length3 : vec3 -> Q;
  (** [glm::distance] on [vec2] *)
  distance2 : vec2 -> vec2 -> Q
}.

(** ** Data model *)

Section DataModel.
Context {G : Glm}.

(** [RW::BSGeometryBounds] *)
Record BSGeometryBounds := {
  center : vec3;
  radius : Q
}.

(** [Model::SubGeometry] *)
Record SubGeometry := {
  start : N;
  numIndices : N;
  material : N
}.

(** [Model::Texture] *)
Record Texture := {
  name : string
}.

(** [Model::Material]; [colour] holds the byte components r, g, b, a. *)
Record Material := {
  textures : list Texture;
  colour : N * N * N * N;
  mat_flags : N;
  diffuseIntensity : Q;
  ambientIntensity : Q
}.

(** [Model::Geometry]; [dbuff_VAOName] and [dbuff_FaceType] are what
    [dbuff.getVAOName()] and [dbuff.getFaceType()] return. *)
Record Geometry := {
  dbuff_VAOName : N;
  dbuff_FaceType : N;
  EBO : N;
  geometryBounds : BSGeometryBounds;
  flags : N;
  subgeom : list SubGeometry;
  materials : list Material
}.

(** [ModelFrame]: a node of the frame tree, owning its children. *)
Inductive ModelFrame := mkFrame {
  getName : string;
  getTransform : mat4;
  getGeometries : list N;
  getChildren : list ModelFrame
}.

Record Model := {
  frames : list ModelFrame;
  geometries : list Geometry;
  rootFrameIdx : N
}.

(** [ModelHandle]: [model] is null until the asset is loaded. *)
Record ModelHandle := {
  model : option Model
}.

(** [TextureInfo] *)
Record TextureInfo := {
  texName : N;
  transparent : bool
}.

Inductive ObjectType := Instance | Character | Vehicle.

(** [Animator::getFrameMatrix(frame, alpha, fixed)] *)
Record Animator := {
  getFrameMatrix : ModelFrame -> Q -> bool -> mat4
}.

(** [GameObject], as the renderer sees it through a [GameObject*]:
    [type()], [animator], [isFrameVisible], [isAnimationFixed()], and for
    a vehicle the two colours read after the [static_cast]. *)
Record GameObject := {
  type : ObjectType;
  animator : option Animator;
  isFrameVisible : ModelFrame -> bool;
  isAnimationFixed : bool;
  colourPrimary : vec3;
  colourSecondary : vec3
}.

(** [ObjectData]; [drawDistance] is a fixed array read at 0 and 1. *)
Record ObjectData := {
  modelName : string;
  numClumps : N;
  drawDistance : N -> Q;
  timeOn : Z;
  timeOff : Z;
  LOD : bool
}.

Record CharacterObject := {
  char_object : GameObject;
  char_position : vec3;
  char_rotation : quat;
  char_model : ModelHandle
}.

(** [InstanceObject]; [body] is the physics body's world transform when
    the instance has one, [LODinstance] the linked lower-detail instance. *)
Inductive InstanceObject := mkInstance {
  object : ObjectData;
  inst_model : ModelHandle;
  body : option mat4;
  position : vec3;
  inst_scale : vec3;
  rotation : quat;
  LODinstance : option InstanceObject
}.

(** [VehicleData] *)
Record VehicleData := {
  veh_modelName : string;
  wheelModelID : N;
  wheelScale : Q
}.

(** One wheel of [physVehicle]: the world transform after
    [updateWheelTransform] and [m_chassisConnectionPointCS.x()]. *)
Record WheelInfo := {
  wheelTransformWS : mat4;
  chassisConnectionPointCS_x : Q
}.

(** [VehicleObject]; [veh_model] is the handle pointer the vehicle loop
    tests for null; [wheels] pairs [info->wheels] with the physics
    vehicle's wheel data. *)
Record VehicleObject := {
  veh_object : GameObject;
  veh_position : vec3;
  veh_rotation : quat;
  veh_model : option ModelHandle;
  vehicle : VehicleData;
  wheels : list WheelInfo
}.

(** The part of [GameData] and [GameWorld] the renderer reads. *)
Record GameData := {
  gd_textures : gmap string TextureInfo;
  gd_models : gmap string ModelHandle;
  realWater : Z -> Z;
  visibleWater : Z -> Z;
  waterHeights : Z -> Q
}.

Record GameWorld := {
  pedestrians : list CharacterObject;
  objectInstances : list InstanceObject;
  vehicleInstances : list VehicleObject;
  objectTypes : gmap N ObjectData;
  gameData : GameData;
  getHour : Z
}.

(** *** Camera and frustum *)

(** A frustum plane: normal and distance, [dot normal p + distance] is
    the signed distance of [p]. *)
Record Plane := {
  normal : vec3;
  plane_d : Q
}.

(** [view], [projection] stand for the member [view] and the value of
    [projection()]; the planes are those left by [update]. *)
Record ViewFrustum := {
  plane0 : Plane; plane1 : Plane; plane2 : Plane;
  plane3 : Plane; plane4 : Plane; plane5 : Plane;
  far : Q;
  view : mat4;
  projection : mat4
}.

Definition planes (fr : ViewFrustum) : list Plane :=
  [plane0 fr; plane1 fr; plane2 fr; plane3 fr; plane4 fr; plane5 fr].

Definition signed_distance (p : Plane) (c : vec3) : Q := dot (normal p) c + plane_d p.

(** Modelled from the spec: [ViewFrustum::intersects] is declared in
    render/ViewFrustum.hpp, which is not part of the sources at hand.
    The design document gives its contract: true iff the sphere is not
    entirely outside any of the six half-spaces, a sphere being outside a
    plane when its signed distance to it is below [-radius]. *)
Definition intersects (fr : ViewFrustum) (c : vec3) (r : Q) : bool :=
  forallb (fun p => negb (Qltb (signed_distance p c) (- r))) (planes fr).

Record ViewCamera := {
  frustum : ViewFrustum;
  worldPos : vec3
}.

End DataModel.

(** Constants declared in headers that are not part of the sources at
    hand; the renderer is read for any value of them. *)
Class Declarations := {
  (** [RW::BSGeometry::ModuleMaterialColor] *)
  ModuleMaterialColor : N;
  (** [Model::MTF_PrimaryColour], [Model::MTF_SecondaryColour] *)
  MTF_PrimaryColour : N;
  MTF_SecondaryColour : N;
  WATER_WORLD_SIZE : Q;
  WATER_HQ_DATA_SIZE : Z;
  WATER_LQ_DATA_SIZE : Z;
  WATER_HQ_DISTANCE : Q;
  NO_WATER_INDEX : Z
}.

(** ** Renderer state *)

Section State.
Context {G : Glm}.

(** The OpenGL bindings and world-program uniforms the renderer sets. *)
Record GLState := {
  gl_VertexArray : N;
  gl_ElementArrayBuffer : N;
  gl_Texture2D : N;
  uniModel : mat4;
  uniCol : vec4;
  uniMatDiffuse : Q;
  uniMatAmbient : Q
}.

(** An entry of [transparentDrawQueue]: model, g, sg, matrix, object. *)
Record RQueueEntry := {
  q_model : Model;
  q_g : N;
  q_sg : N;
  q_matrix : mat4;
  q_object : option GameObject
}.

(** What reaches the GPU: a [glDrawElements] call with the bindings it
    was issued under, its face type, index count and byte offset; or a
    water tile's [glDrawArrays] with the water program's size, height
    and MVP uniforms. *)
Inductive DrawCommand :=
| DrawElements (gl : GLState) (faceType count offset : N)
| DrawArrays (waterSize waterHeight : Q) (waterMVP : mat4).

(** Lines written to [std::cout]. *)
Inductive LogLine :=
| ModelNotLoaded (modelName : string) (modelsLoaded : N)
| WheelModelNotLoaded (modelName : string).

(** The mutable members of [GameRenderer] ([_renderAlpha], the [size_t]
    counters [rendered] and [culled], the queue), the GL state, and the
    two output streams (GPU and [std::cout]). *)
Record Renderer := {
  renderAlpha : Q;
  rendered : N;
  culled : N;
  transparentDrawQueue : list RQueueEntry;
  gl : GLState;
  submitted : list DrawCommand;
  cout : list LogLine
}.

(** *** The renderer monad: state, and a stop on undefined behaviour *)

Inductive Outcome (A : Type) :=
| Ok (a : A) (r : Renderer)
| Undefined (why : string) (r : Renderer).
Arguments Ok {A} a r.
Arguments Undefined {A} why r.

Definition Render (A : Type) : Type := Renderer -> Outcome A.

Definition ret {A} (a : A) : Render A := fun r => Ok a r.

Definition bind {A B} (c : Render A) (k : A -> Render B) : Render B :=
  fun r => match c r with
           | Ok a r' => k a r'
           | Undefined why r' => Undefined why r'
           end.

Definition undefined {A} (why : string) : Render A := fun r => Undefined why r.

Definition gets {A} (f : Renderer -> A) : Render A := fun r => Ok (f r) r.

Definition modify (f : Renderer -> Renderer) : Render unit := fun r => Ok tt (f r).

(** [*p] and [v[i]]: stop when there is nothing to read. *)
Definition deref {A} (why : string) (p : option A) : Render A :=
  match p with
  | Some a => ret a
  | None => undefined why
  end.

(** A range-based or counting [for] loop over [l]. *)
Definition for_each {A} (body : A -> Render unit) : list A -> Render unit :=
  fix loop (l : list A) : Render unit :=
    match l with
    | [] => ret tt
    | x :: l' => bind (body x) (fun _ => loop l')
    end.

(** The final state of a computation that returns. *)
Definition state_of {A} (o : Outcome A) : option Renderer :=
  match o with
  | Ok _ r => Some r
  | Undefined _ _ => None
  end.


End State.

Arguments Ok {G A} a r.
Arguments Undefined {G A} why r.

Declare Scope render_scope.
Delimit Scope render_scope with render.
Notation "x <- c ;; k" := (bind c (fun x => k))
  (at level 100, c at next level, right associativity) : render_scope.
Notation "c ;; k" := (bind c (fun _ => k))
  (at level 100, right associativity) : render_scope.

(** ** The renderer *)

Section GameRenderer.
Context {G : Glm} {D : Declarations}.

Local Open Scope render_scope.

(** *** State updates and GL calls *)

Definition set_gl (f : GLState -> GLState) : Render unit :=
  modify (fun r =>
    {| renderAlpha := renderAlpha r; rendered := rendered r; culled := culled r;
       transparentDrawQueue := transparentDrawQueue r; gl := f (gl r);
       submitted := submitted r; cout := cout r |}).

Definition glBindVertexArray (vao : N) : Render unit :=
  set_gl (fun s =>
    {| gl_VertexArray := vao; gl_ElementArrayBuffer := gl_ElementArrayBuffer s;
       gl_Texture2D := gl_Texture2D s; uniModel := uniModel s; uniCol := uniCol s;
       uniMatDiffuse := uniMatDiffuse s; uniMatAmbient := uniMatAmbient s |}).

Definition glBindBuffer_ELEMENT_ARRAY (ebo : N) : Render unit :=
  set_gl (fun s =>
    {| gl_VertexArray := gl_VertexArray s; gl_ElementArrayBuffer := ebo;
       gl_Texture2D := gl_Texture2D s; uniModel := uniModel s; uniCol := uniCol s;
       uniMatDiffuse := uniMatDiffuse s; uniMatAmbient := uniMatAmbient s |}).

Definition glBindTexture_2D (tex : N) : Render unit :=
  set_gl (fun s =>
    {| gl_VertexArray := gl_VertexArray s; gl_ElementArrayBuffer := gl_ElementArrayBuffer s;
       gl_Texture2D := tex; uniModel := uniModel s; uniCol := uniCol s;
       uniMatDiffuse := uniMatDiffuse s; uniMatAmbient := uniMatAmbient s |}).

Definition glUniform_uniModel (m : mat4) : Render unit :=
  set_gl (fun s =>
    {| gl_VertexArray := gl_VertexArray s; gl_ElementArrayBuffer := gl_ElementArrayBuffer s;
       gl_Texture2D := gl_Texture2D s; uniModel := m; uniCol := uniCol s;
       uniMatDiffuse := uniMatDiffuse s; uniMatAmbient := uniMatAmbient s |}).

Definition glUniform_uniCol (c : vec4) : Render unit :=
  set_gl (fun s =>
    {| gl_VertexArray := gl_VertexArray s; gl_ElementArrayBuffer := gl_ElementArrayBuffer s;
       gl_Texture2D := gl_Texture2D s; uniModel := uniModel s; uniCol := c;
       uniMatDiffuse := uniMatDiffuse s; uniMatAmbient := uniMatAmbient s |}).

Definition glUniform_uniMatDiffuse (d : Q) : Render unit :=
  set_gl (fun s =>
    {| gl_VertexArray := gl_VertexArray s; gl_ElementArrayBuffer := gl_ElementArrayBuffer s;
       gl_Texture2D := gl_Texture2D s; uniModel := uniModel s; uniCol := uniCol s;
       uniMatDiffuse := d; uniMatAmbient := uniMatAmbient s |}).

Definition glUniform_uniMatAmbient (a : Q) : Render unit :=
  set_gl (fun s =>
    {| gl_VertexArray := gl_VertexArray s; gl_ElementArrayBuffer := gl_ElementArrayBuffer s;
       gl_Texture2D := gl_Texture2D s; uniModel := uniModel s; uniCol := uniCol s;
       uniMatDiffuse := uniMatDiffuse s; uniMatAmbient := a |}).

(** Appends a command to the GPU stream. *)
Definition submit (c : DrawCommand) : Render unit :=
  modify (fun r =>
    {| renderAlpha := renderAlpha r; rendered := rendered r; culled := culled r;
       transparentDrawQueue := transparentDrawQueue r; gl := gl r;
       submitted := submitted r ++ [c]; cout := cout r |}).

Definition glDrawElements (faceType count offset : N) : Render unit :=
  s <- gets gl ;; submit (DrawElements s faceType count offset).

Definition glDrawArrays (waterSize waterHeight : Q) (mvp : mat4) : Render unit :=
  submit (DrawArrays waterSize waterHeight mvp).

(** [std::cout << ... << std::endl] *)
Definition print (l : LogLine) : Render unit :=
  modify (fun r =>
    {| renderAlpha := renderAlpha r; rendered := rendered r; culled := culled r;
       transparentDrawQueue := transparentDrawQueue r; gl := gl r;
       submitted := submitted r; cout := cout r ++ [l] |}).

(** [rendered++] *)
Definition rendered_incr : Render unit :=
  modify (fun r =>
    {| renderAlpha := renderAlpha r; rendered := size_t_add (rendered r) 1; culled := culled r;
       transparentDrawQueue := transparentDrawQueue r; gl := gl r;
       submitted := submitted r; cout := cout r |}).

(** [culled++] *)
Definition culled_incr : Render unit :=
  modify (fun r =>
    {| renderAlpha := renderAlpha r; rendered := rendered r; culled := size_t_add (culled r) 1;
       transparentDrawQueue := transparentDrawQueue r; gl := gl r;
       submitted := submitted r; cout := cout r |}).

(** [transparentDrawQueue.push_back(e)] *)
Definition queue_push_back (e : RQueueEntry) : Render unit :=
  modify (fun r =>
    {| renderAlpha := renderAlpha r; rendered := rendered r; culled := culled r;
       transparentDrawQueue := transparentDrawQueue r ++ [e]; gl := gl r;
       submitted := submitted r; cout := cout r |}).

(** [transparentDrawQueue.clear()] *)
Definition queue_clear : Render unit :=
  modify (fun r =>
    {| renderAlpha := renderAlpha r; rendered := rendered r; culled := culled r;
       transparentDrawQueue := []; gl := gl r;
       submitted := submitted r; cout := cout r |}).

(** [_renderAlpha = alpha; rendered = culled = 0] *)
Definition begin_frame (alpha : Q) : Render unit :=
  modify (fun r =>
    {| renderAlpha := alpha; rendered := 0; culled := 0;
       transparentDrawQueue := transparentDrawQueue r; gl := gl r;
       submitted := submitted r; cout := cout r |}).

(** Modelled from the spec: the default of the [queueTransparent]
    parameter of [renderSubgeometry] and [renderFrame] is declared in
    render/GameRenderer.hpp, which is not part of the sources at hand.
    The design document has every submission of the opaque pass defer
    its transparent materials, and the opaque pass omits the argument. *)
Definition default_queueTransparent : bool := true.

Variable engine : GameWorld.
Variable camera : ViewCamera.

(** [(x & mask) == mask] *)
Definition has_flags (x mask : N) : bool := (N.land x mask =? mask)%N.

(** A byte colour component divided by [255.f]. *)
Definition byte_to_float (c : N) : Q := inject_Z (Z.of_N c) / 255.

(** *** [GameRenderer::renderSubgeometry] *)

(** The end of the function: [rendered++], [glDrawElements], [return true]. *)
Definition renderSubgeometry_draw (geom : Geometry) (subgeom : SubGeometry) : Render bool :=
  rendered_incr ;;
  glDrawElements (dbuff_FaceType geom) (numIndices subgeom) (4 * start subgeom) ;;
  ret true.

(** The colour selection of the material block. *)
Definition renderSubgeometry_colour (geom : Geometry) (mat : Material)
    (object : option GameObject) : Render unit :=
  if has_flags (flags geom) ModuleMaterialColor then
    let '(r, g, b, _) := colour mat in
    let col := (byte_to_float r, byte_to_float g, byte_to_float b, 1) in
    match object with
    | Some o =>
        match type o with
        | Vehicle =>
            if negb (N.land (mat_flags mat) MTF_PrimaryColour =? 0)%N then
              let '(pr, pg, pb) := colourPrimary o in
              glUniform_uniCol (pr, pg, pb, 1)
            else if negb (N.land (mat_flags mat) MTF_SecondaryColour =? 0)%N then
              let '(sr, sg, sb) := colourSecondary o in
              glUniform_uniCol (sr, sg, sb, 1)
            else glUniform_uniCol col
        | _ => glUniform_uniCol col
        end
    | None => glUniform_uniCol col
    end
  else ret tt.

(** The material block after the texture lookup, and the draw. *)
Definition renderSubgeometry_material (geom : Geometry) (subgeom : SubGeometry)
    (mat : Material) (object : option GameObject) : Render bool :=
  renderSubgeometry_colour geom mat object ;;
  glUniform_uniMatDiffuse (diffuseIntensity mat) ;;
  glUniform_uniMatAmbient (ambientIntensity mat) ;;
  renderSubgeometry_draw geom subgeom.

Definition renderSubgeometry (model : Model) (g sg : N) (matrix : mat4)
    (object : option GameObject) (queueTransparent : bool) : Render bool :=
  geom <- deref "model->geometries[g]" (at_index (geometries model) g) ;;
  glBindVertexArray (dbuff_VAOName geom) ;;
  glBindBuffer_ELEMENT_ARRAY (EBO geom) ;;
  subgeom <- deref "subgeom[sg]" (at_index (subgeom geom) sg) ;;
  if (material subgeom <? vec_size (materials geom))%N then
    mat <- deref "materials[subgeom.material]"
             (at_index (materials geom) (material subgeom)) ;;
    match textures mat with
    | t0 :: _ =>
        match gd_textures (gameData engine) !! name t0 with
        | Some tex =>
            if transparent tex && queueTransparent then ret false
            else
              glBindTexture_2D (texName tex) ;;
              renderSubgeometry_material geom subgeom mat object
        | None => renderSubgeometry_material geom subgeom mat object
        end
    | [] => renderSubgeometry_material geom subgeom mat object
    end
  else renderSubgeometry_draw geom subgeom.

(** *** [GameRenderer::renderGeometry] *)

Definition renderGeometry (model : Model) (g : N) (modelMatrix : mat4)
    (object : option GameObject) : Render unit :=
  glUniform_uniModel modelMatrix ;;
  glUniform_uniCol white ;;
  geom <- deref "model->geometries[g]" (at_index (geometries model) g) ;;
  for_each (fun sg =>
      ok <- renderSubgeometry model g sg modelMatrix object default_queueTransparent ;;
      if negb ok then
        queue_push_back {| q_model := model; q_g := g; q_sg := sg;
                           q_matrix := modelMatrix; q_object := object |}
      else ret tt)
    (indices (subgeom geom)).

(** *** [GameRenderer::renderFrame] *)

(** The body of the geometry loop of [renderFrame] for the chunk [g]:
    [matrix] is the matrix the frame was entered with, [localmatrix] the
    one with the frame's own transform applied. *)
Definition renderFrame_geometry (m : Model) (matrix localmatrix : mat4)
    (object : option GameObject) (vis : bool) (g : N) : Render unit :=
  if negb vis then ret tt
  else
    geom <- deref "m->geometries[g]" (at_index (geometries m) g) ;;
    let bounds := geometryBounds geom in
    if negb (intersects (frustum camera)
               (vec3_add (center bounds) (column3 matrix)) (radius bounds))
    then ret tt
    else
      (if negb (has_flags (flags geom) ModuleMaterialColor)
       then glUniform_uniCol white else ret tt) ;;
      renderGeometry m g localmatrix object.

(** [localmatrix] of [renderFrame]: [matrix] times the animator's frame
    matrix when the object has one, else times the frame's transform. *)
Definition frame_localmatrix (f : ModelFrame) (matrix : mat4)
    (object : option GameObject) (alpha : Q) : mat4 :=
  match object with
  | Some o =>
      match animator o with
      | Some a => mat4_mul matrix (getFrameMatrix a f alpha (isAnimationFixed o))
      | None => mat4_mul matrix (getTransform f)
      end
  | None => mat4_mul matrix (getTransform f)
  end.

(** [object == nullptr || object->isFrameVisible(f)] *)
Definition frame_vis (f : ModelFrame) (object : option GameObject) : bool :=
  match object with
  | None => true
  | Some o => isFrameVisible o f
  end.

Fixpoint renderFrame (m : Model) (f : ModelFrame) (matrix : mat4)
    (object : option GameObject) (queueTransparent : bool) {struct f} : Render bool :=
  alpha <- gets renderAlpha ;;
  let localmatrix := frame_localmatrix f matrix object alpha in
  let vis := frame_vis f object in
  for_each (renderFrame_geometry m matrix localmatrix object vis) (getGeometries f) ;;
  for_each (fun c => _ <- renderFrame m c localmatrix object queueTransparent ;; ret tt)
    (getChildren f) ;;
  ret true.

(** *** [GameRenderer::renderModel]

    [model] is the [Model*] passed in; the function does not use its
    [animator] parameter, which is left out. *)

Definition renderModel (model : option Model) (modelMatrix : mat4)
    (object : option GameObject) : Render unit :=
  m <- deref "model->frames" model ;;
  root <- deref "model->frames[model->rootFrameIdx]" (at_index (frames m) (rootFrameIdx m)) ;;
  _ <- renderFrame m root modelMatrix object default_queueTransparent ;;
  ret tt.

(** *** [GameRenderer::renderWheel] *)

Definition renderWheel_geometry (model : Model) (matrix : mat4) (g : N) : Render unit :=
  geom <- deref "model->geometries[g]" (at_index (geometries model) g) ;;
  let bounds := geometryBounds geom in
  if negb (intersects (frustum camera)
             (vec3_add (center bounds) (column3 matrix)) (radius bounds))
  then culled_incr
  else renderGeometry model g matrix None.

Definition renderWheel (model : Model) (matrix : mat4) (name : string) : Render unit :=
  (fix loop (fs : list ModelFrame) : Render unit :=
     match fs with
     | [] => ret tt
     | f :: fs' =>
         if negb (String.eqb (getName f) name) then loop fs'
         else
           firstLod <- deref "f->getChildren()[0]" (at_index (getChildren f) 0) ;;
           for_each (renderWheel_geometry model matrix) (getGeometries firstLod)
     end) (frames model).

(** *** [GameRenderer::renderWorld]: the pedestrian loop *)

Definition renderPedestrian (charac : CharacterObject) : Render unit :=
  let matrixModel := translate mat4_identity (char_position charac) in
  let matrixModel := mat4_mul matrixModel (mat4_cast (char_rotation charac)) in
  match model (char_model charac) with
  | None => ret tt
  | Some _ =>
      renderModel (model (char_model charac)) matrixModel (Some (char_object charac))
  end.

(** *** [GameRenderer::renderWorld]: the instance loop *)

Definition instance_matrixModel (inst : InstanceObject) : mat4 :=
  match body inst with
  | Some worldTransform => worldTransform
  | None =>
      let matrixModel := translate mat4_identity (position inst) in
      let matrixModel := scale matrixModel (inst_scale inst) in
      mat4_mul matrixModel (mat4_cast (rotation inst))
  end.

(** The [mindist] loop: from [100000.f], the minimum over the model's
    geometries of the camera's distance to the bounds minus the radius. *)
Definition instance_mindist (m : Model) (matrixModel : mat4) : Q :=
  fold_left
    (fun mindist geom =>
       let bounds := geometryBounds geom in
       std_min mindist
         (length3 (vec3_sub (vec3_add (column3 matrixModel) (center bounds))
                            (worldPos camera))
          - radius bounds))
    (geometries m) 100000.

(** The time-of-day test of the instance loop: true when the loop
    [continue]s. *)
Definition instance_time_skipped (inst : InstanceObject) : bool :=
  if negb (timeOn (object inst) =? timeOff (object inst))%Z then
    (getHour engine <? timeOn (object inst))%Z
    && (getHour engine >? timeOff (object inst))%Z
  else false.

(** The child [getChildren()[size() - back]] of the first frame, entered
    with [matrixModel * inverse(f->getTransform())] and no object. *)
Definition renderLODChild (m : Model) (matrixModel : mat4) (back : N) : Render unit :=
  RF <- deref "model->frames[0]" (at_index (frames m) 0) ;;
  let LODindex := size_t_sub (vec_size (getChildren RF)) back in
  f <- deref "RF->getChildren()[LODindex]" (at_index (getChildren RF) LODindex) ;;
  _ <- renderFrame m f (mat4_mul matrixModel (inverse (getTransform f))) None
         default_queueTransparent ;;
  ret tt.

Definition renderInstance (inst : InstanceObject) : Render unit :=
  if instance_time_skipped inst then ret tt
  else
    match model (inst_model inst) with
    | None => ret tt
    | Some m =>
        let matrixModel := instance_matrixModel inst in
        let mindist := instance_mindist m matrixModel in
        if (numClumps (object inst) =? 1)%N then
          if Qltb (drawDistance (object inst) 0%N) mindist then
            match LODinstance inst with
            | Some lod =>
                if Qltb (drawDistance (object lod) 0%N) mindist then culled_incr
                else
                  match model (inst_model lod) with
                  | Some _ => renderModel (model (inst_model lod)) matrixModel None
                  | None => ret tt
                  end
            | None => ret tt
            end
          else if negb (LOD (object inst)) then
            renderModel (model (inst_model inst)) matrixModel None
          else ret tt
        else
          if Qltb (drawDistance (object inst) 1%N) mindist then culled_incr
          else if Qltb (drawDistance (object inst) 0%N) mindist then
            renderLODChild m matrixModel 2
          else
            renderLODChild m matrixModel 1
    end.

(** *** [GameRenderer::renderWorld]: the vehicle loop *)

Definition renderVehicleWheel (inst : VehicleObject) (wheel : WheelInfo) : Render unit :=
  match objectTypes engine !! wheelModelID (vehicle inst) with
  | Some woi =>
      handle <- deref "models[wheels]->model" (gd_models (gameData engine) !! "wheels"%string) ;;
      match model handle with
      | Some wheelModel =>
          let wheel_tf := wheelTransformWS wheel in
          let ws := wheelScale (vehicle inst) in
          let wheel_tf := scale wheel_tf (ws, ws, ws) in
          let wheel_tf :=
            if Qltb (chassisConnectionPointCS_x wheel) 0
            then scale wheel_tf (-1, 1, 1) else wheel_tf in
          renderWheel wheelModel wheel_tf (modelName woi)
      | None => print (WheelModelNotLoaded (modelName woi))
      end
  | None => ret tt
  end.

Definition renderVehicle (inst : VehicleObject) : Render unit :=
  (match veh_model inst with
   | None =>
       print (ModelNotLoaded (veh_modelName (vehicle inst))
                (N.of_nat (size (gd_models (gameData engine)))))
   | Some _ => ret tt
   end) ;;
  let matrixModel := translate mat4_identity (veh_position inst) in
  let matrixModel := mat4_mul matrixModel (mat4_cast (veh_rotation inst)) in
  handle <- deref "inst->model->model" (veh_model inst) ;;
  renderModel (model handle) matrixModel (Some (veh_object inst)) ;;
  for_each (renderVehicleWheel inst) (wheels inst).

(** *** [GameRenderer::renderWorld]: replay of the transparency queue *)

Definition replayTransparent (it : RQueueEntry) : Render unit :=
  glUniform_uniModel (q_matrix it) ;;
  glUniform_uniCol white ;;
  _ <- renderSubgeometry (q_model it) (q_g it) (q_sg it) (q_matrix it) (q_object it) false ;;
  ret tt.

Definition flushTransparentQueue : Render unit :=
  queue <- gets transparentDrawQueue ;;
  for_each replayTransparent queue ;;
  queue_clear.

(** [renderWorld] from [rendered = culled = 0] to
    [transparentDrawQueue.clear()]: the three object loops and the
    replay of the queue. *)
Definition renderWorld_objects (alpha : Q) : Render unit :=
  begin_frame alpha ;;
  for_each renderPedestrian (pedestrians engine) ;;
  for_each renderInstance (objectInstances engine) ;;
  for_each renderVehicle (vehicleInstances engine) ;;
  flushTransparentQueue.

(** *** [GameRenderer::renderWorld]: the water grids *)


Definition blockLQSize : Q := WATER_WORLD_SIZE / inject_Z WATER_LQ_DATA_SIZE.
Definition blockHQSize : Q := WATER_WORLD_SIZE / inject_Z WATER_HQ_DATA_SIZE.
Definition waterOffset : vec2 := (- WATER_WORLD_SIZE / 2, - WATER_WORLD_SIZE / 2).
Definition camposFlat : vec2 := vec2_of_vec3 (worldPos camera).

(** [waterWS] and [cullWS] of the tile [(x, y)] of a grid of tiles of
    size [blockSize]. *)
Definition tile_waterWS (blockSize : Q) (x y : Z) : vec2 :=
  vec2_add waterOffset (vec2_mul (vec2_splat blockSize) (inject_Z x, inject_Z y)).
Definition tile_cullWS (blockSize : Q) (x y : Z) : vec2 :=
  vec2_add (tile_waterWS blockSize x y) (vec2_splat (blockSize / 2)).

(** The tail shared by both grids: the height-table lookup and the draw. *)
Definition drawWaterTile (table : Z -> Z) (dataSize : Z) (blockSize : Q)
    (x y : Z) : Render unit :=
  let waterWS := tile_waterWS blockSize x y in
  let waterModel := translate mat4_identity (fst waterWS, snd waterWS, 0) in
  let i := (x * dataSize + y)%Z in
  let hI := table i in
  if (hI >=? NO_WATER_INDEX)%Z then ret tt
  else
    let h := waterHeights (gameData engine) hI in
    let MVP := mat4_mul (mat4_mul (projection (frustum camera)) (view (frustum camera)))
                        waterModel in
    glDrawArrays blockSize h MVP.

(** Body of the high-detail loop. *)
Definition renderWaterHQ_tile (x y : Z) : Render unit :=
  let cullWS := tile_cullWS blockHQSize x y in
  if Qle_bool WATER_HQ_DISTANCE (distance2 camposFlat cullWS - blockHQSize) then ret tt
  else drawWaterTile (realWater (gameData engine)) WATER_HQ_DATA_SIZE blockHQSize x y.

(** Body of the low-detail loop. *)
Definition renderWaterLQ_tile (x y : Z) : Render unit :=
  let cullWS := tile_cullWS blockLQSize x y in
  if Qltb (distance2 camposFlat cullWS - blockHQSize / 4) WATER_HQ_DISTANCE then ret tt
  else if Qltb (far (frustum camera)) (distance2 camposFlat cullWS - blockLQSize / 2)
  then ret tt
  else drawWaterTile (visibleWater (gameData engine)) WATER_LQ_DATA_SIZE blockLQSize x y.




End GameRenderer.

(** ** An exact instance of glm

    Column-major 4x4 matrices over [Q] with glm's formulas, and a square
    root that is exact on squares of rationals (and rounds down to the
    denominator's grid elsewhere).  The concrete scenes below are run on
    it. *)

Module Exact.

Definition qmat4 : Type := vec4 * vec4 * vec4 * vec4.

Definition v4_add (a b : vec4) : vec4 :=
  let '(ax, ay, az, aw) := a in let '(bx, by_, bz, bw) := b in
  (ax + bx, ay + by_, az + bz, aw + bw).
Definition v4_scale (v : vec4) (s : Q) : vec4 :=
  let '(x, y, z, w) := v in (x * s, y * s, z * s, w * s).

Definition identity : qmat4 :=
  ((1, 0, 0, 0), (0, 1, 0, 0), (0, 0, 1, 0), (0, 0, 0, 1)).

(** [m * v] *)
Definition mul_vec (m : qmat4) (v : vec4) : vec4 :=
  let '(c0, c1, c2, c3) := m in let '(x, y, z, w) := v in
  v4_add (v4_add (v4_scale c0 x) (v4_scale c1 y)) (v4_add (v4_scale c2 z) (v4_scale c3 w)).

Definition mul (a b : qmat4) : qmat4 :=
  let '(b0, b1, b2, b3) := b in (mul_vec a b0, mul_vec a b1, mul_vec a b2, mul_vec a b3).

Definition m_translate (m : qmat4) (v : vec3) : qmat4 :=
  let '(c0, c1, c2, c3) := m in let '(x, y, z) := v in
  (c0, c1, c2, v4_add (v4_add (v4_scale c0 x) (v4_scale c1 y)) (v4_add (v4_scale c2 z) c3)).

Definition m_scale (m : qmat4) (v : vec3) : qmat4 :=
  let '(c0, c1, c2, c3) := m in let '(x, y, z) := v in
  (v4_scale c0 x, v4_scale c1 y, v4_scale c2 z, c3).

Definition m_cast (q : quat) : qmat4 :=
  let '(w, x, y, z) := q in
  ((1 - 2 * (y * y + z * z), 2 * (x * y + w * z), 2 * (x * z - w * y), 0),
   (2 * (x * y - w * z), 1 - 2 * (x * x + z * z), 2 * (y * z + w * x), 0),
   (2 * (x * z + w * y), 2 * (y * z - w * x), 1 - 2 * (x * x + y * y), 0),
   (0, 0, 0, 1)).

Definition to_lists (m : qmat4) : list (list Q) :=
  let '(c0, c1, c2, c3) := m in
  map (fun c : vec4 => let '(x, y, z, w) := c in [x; y; z; w]) [c0; c1; c2; c3].

Fixpoint remove_nth {A} (n : nat) (l : list A) : list A :=
  match l, n with
  | [], _ => []
  | _ :: l', O => l'
  | x :: l', S n' => x :: remove_nth n' l'
  end.

Definition minor (i j : nat) (m : list (list Q)) : list (list Q) :=
  map (remove_nth j) (remove_nth i m).

Definition sign (n : nat) : Q := if Nat.even n then 1 else -1.

(** Laplace expansion along the first column of an [n] x [n] matrix. *)
Fixpoint det (n : nat) (m : list (list Q)) : Q :=
  match n with
  | O => 1
  | S n' =>
      fold_right Qplus 0
        (map (fun j => sign j * nth j (nth 0 m []) 0 * det n' (minor 0 j m)) (seq 0 n))
  end.

Definition entry (m : list (list Q)) (d : Q) (i j : nat) : Q :=
  Qred (sign (i + j) * det 3 (minor j i m) / d).

(** The adjugate over the determinant. *)
Definition m_inverse (m : qmat4) : qmat4 :=
  let l := to_lists m in
  let d := det 4 l in
  let col i := (entry l d i 0, entry l d i 1, entry l d i 2, entry l d i 3)%nat in
  (col 0, col 1, col 2, col 3)%nat.

Definition m_column3 (m : qmat4) : vec3 :=
  let '(_, _, _, c3) := m in let '(x, y, z, _) := c3 in (x, y, z).

Definition Qsqrt (q : Q) : Q :=
  let q := Qred q in
  Z.sqrt (Qnum q * Z.pos (Qden q)) # Qden q.

Definition v_length (v : vec3) : Q := Qsqrt (dot v v).

Definition v_distance (a b : vec2) : Q :=
  let dx := fst a - fst b in let dy := snd a - snd b in
  Qsqrt (dx * dx + dy * dy).

Definition glm : Glm := {|
  mat4 := qmat4;
  mat4_identity := identity;
  translate := m_translate;
  scale := m_scale;
  mat4_cast := m_cast;
  mat4_mul := mul;
  inverse := m_inverse;
  column3 := m_column3;
  length3 := v_length;
  distance2 := v_distance
|}.

(** Sample values for the constants of the headers. *)
Definition declarations : Declarations := {|
  ModuleMaterialColor := 64;
  MTF_PrimaryColour := 1;
  MTF_SecondaryColour := 2;
  WATER_WORLD_SIZE := 4096;
  WATER_HQ_DATA_SIZE := 128;
  WATER_LQ_DATA_SIZE := 64;
  WATER_HQ_DISTANCE := 128;
  NO_WATER_INDEX := 48
|}.

End Exact.

(** ** Auxiliary notions used by the statements *)

Section Notions.
Context {G : Glm} {D : Declarations}.
Variable engine : GameWorld.
Variable camera : ViewCamera.

(** Every geometry index owned by a frame of the subtree of [f] is an
    index of [m->geometries]. *)
Fixpoint frame_valid (m : Model) (f : ModelFrame) : bool :=
  forallb (fun g => bool_decide (is_Some (at_index (geometries m) g))) (getGeometries f)
  && forallb (frame_valid m) (getChildren f).

(** The chunk [g] of [m], entered with [matrix], fails the frustum test
    of [renderFrame]. *)
Definition chunk_culled (m : Model) (matrix : mat4) (g : N) : bool :=
  match at_index (geometries m) g with
  | Some geom =>
      negb (intersects (frustum camera)
              (vec3_add (center (geometryBounds geom)) (column3 matrix))
              (radius (geometryBounds geom)))
  | None => false
  end.

(** The traversal of the children of [f] as [renderFrame] runs it. *)
Definition renderFrame_children (m : Model) (f : ModelFrame) (localmatrix : mat4)
    (object : option GameObject) (queueTransparent : bool) : Render unit :=
  for_each
    (fun c => bind (renderFrame engine camera m c localmatrix object queueTransparent)
                   (fun _ => ret tt))
    (getChildren f).

(** The colour the material block selects when the geometry has the
    [ModuleMaterialColor] flag. *)
Definition material_colour (mat : Material) (object : option GameObject) : vec4 :=
  let '(r, g, b, _) := colour mat in
  let col := (byte_to_float r, byte_to_float g, byte_to_float b, 1) in
  match object with
  | Some o =>
      match type o with
      | Vehicle =>
          if negb (N.land (mat_flags mat) MTF_PrimaryColour =? 0)%N then
            let '(pr, pg, pb) := colourPrimary o in (pr, pg, pb, 1)
          else if negb (N.land (mat_flags mat) MTF_SecondaryColour =? 0)%N then
            let '(sr, sg, sb) := colourSecondary o in (sr, sg, sb, 1)
          else col
      | _ => col
      end
  | None => col
  end.

(** The materials, if any, of subgeometry [sg] of chunk [g]. *)
Definition subgeometry_material (m : Model) (g sg : N) : option (Geometry * Material) :=
  match at_index (geometries m) g with
  | Some geom =>
      match at_index (subgeom geom) sg with
      | Some sub =>
          match at_index (materials geom) (material sub) with
          | Some mat => Some (geom, mat)
          | None => None
          end
      | None => None
      end
  | None => None
  end.

(** The cache entry of the first texture of the material of a
    subgeometry, when the material exists, has a texture and the cache
    knows its name. *)
Definition resolved_texture (m : Model) (g sg : N) : option TextureInfo :=
  match subgeometry_material m g sg with
  | Some (_, mat) =>
      match textures mat with
      | t0 :: _ => gd_textures (gameData engine) !! name t0
      | [] => None
      end
  | None => None
  end.

(** The resolved texture of a subgeometry is flagged transparent. *)
Definition transparent_material (m : Model) (g sg : N) : bool :=
  match resolved_texture m g sg with
  | Some tex => transparent tex
  | None => false
  end.

(** The tint a queue entry is drawn with when it is replayed: white,
    unless its chunk has the [ModuleMaterialColor] flag and its material
    exists, in which case the colour selection applies again. *)
Definition replay_tint (e : RQueueEntry) : vec4 :=
  match subgeometry_material (q_model e) (q_g e) (q_sg e) with
  | Some (geom, mat) =>
      if has_flags (flags geom) ModuleMaterialColor
      then material_colour mat (q_object e) else white
  | None => white
  end.

(** A queue entry names an existing subgeometry. *)
Definition entry_valid (e : RQueueEntry) : Prop :=
  exists geom sub, at_index (geometries (q_model e)) (q_g e) = Some geom
                   /\ at_index (subgeom geom) (q_sg e) = Some sub.

(** The draw [d] is the replay of the entry [e]: one [glDrawElements]
    of the entry's index range, under the entry's matrix and replay tint. *)
Definition replays (e : RQueueEntry) (d : DrawCommand) : Prop :=
  exists s geom sub,
    at_index (geometries (q_model e)) (q_g e) = Some geom
    /\ at_index (subgeom geom) (q_sg e) = Some sub
    /\ d = DrawElements s (dbuff_FaceType geom) (numIndices sub) (4 * start sub)
    /\ uniModel s = q_matrix e
    /\ uniCol s = replay_tint e.

(** What a run of a piece of [renderSubgeometry] that reaches the draw
    leaves behind: one more submission and [rendered + 1]; the queue,
    the log and the model matrix are as before. *)
Definition drew (geom : Geometry) (sub : SubGeometry) (r r' : Renderer) : Prop :=
  submitted r' = submitted r ++
    [DrawElements (gl r') (dbuff_FaceType geom) (numIndices sub) (4 * start sub)]
  /\ rendered r' = size_t_add (rendered r) 1
  /\ culled r' = culled r
  /\ transparentDrawQueue r' = transparentDrawQueue r
  /\ cout r' = cout r
  /\ renderAlpha r' = renderAlpha r
  /\ uniModel (gl r') = uniModel (gl r).

(** A run of [renderSubgeometry] that returns false: only the vertex
    array and element buffer bindings have changed. *)
Definition rejected (r r' : Renderer) : Prop :=
  submitted r' = submitted r
  /\ rendered r' = rendered r
  /\ culled r' = culled r
  /\ transparentDrawQueue r' = transparentDrawQueue r
  /\ cout r' = cout r
  /\ renderAlpha r' = renderAlpha r
  /\ uniModel (gl r') = uniModel (gl r)
  /\ uniCol (gl r') = uniCol (gl r)
  /\ gl_Texture2D (gl r') = gl_Texture2D (gl r)
  /\ uniMatDiffuse (gl r') = uniMatDiffuse (gl r)
  /\ uniMatAmbient (gl r') = uniMatAmbient (gl r).

(** The entry [renderGeometry] queues for a rejected subgeometry. *)
Definition queued (model : Model) (g : N) (modelMatrix : mat4)
    (object : option GameObject) (sg : N) : RQueueEntry :=
  {| q_model := model; q_g := g; q_sg := sg; q_matrix := modelMatrix; q_object := object |}.

(** The camera's distance to the bounds of a chunk placed by
    [matrixModel], less the radius. *)
Definition chunk_distance (matrixModel : mat4) (geom : Geometry) : Q :=
  length3 (vec3_sub (vec3_add (column3 matrixModel) (center (geometryBounds geom)))
                    (worldPos camera))
  - radius (geometryBounds geom).



End Notions.

(** ** The design document's statements that the code does not meet

    Each is written down as the document words it, to be tested against
    the renderer on concrete scenes. *)

Section Stated.
Context {G : Glm} {D : Declarations}.
Variable engine : GameWorld.
Variable camera : ViewCamera.

Definition vec2_eq (a b : vec2) : Prop := fst a == fst b /\ snd a == snd b.

Definition vec4_eq (a b : vec4) : Prop :=
  let '(ax, ay, az, aw) := a in let '(bx, by_, bz, bw) := b in
  ax == bx /\ ay == by_ /\ az == bz /\ aw == bw.

(** A piece of the renderer submits exactly one command from [r]. *)
Definition emits (c : Render unit) (r : Renderer) : Prop :=
  exists r' d, c r = Ok tt r' /\ submitted r' = submitted r ++ [d].

(** "For every single-clump instance with mindist strictly greater than
    drawDistance[0]: ... if no linked LOD object exists, the instance is
    counted as culled.  At mindist not exceeding drawDistance[0], full
    detail is rendered."  (The two clauses on a linked object that exists
    are met and are not repeated here.) *)
Definition stated_single_clump (inst : InstanceObject) (r : Renderer) : Prop :=
  forall m,
    model (inst_model inst) = Some m ->
    let matrixModel := instance_matrixModel inst in
    let mindist := instance_mindist camera m matrixModel in
    (drawDistance (object inst) 0%N < mindist ->
     LODinstance inst = None ->
     exists r', renderInstance engine camera inst r = Ok tt r'
                /\ culled r' = size_t_add (culled r) 1)
    /\ (mindist <= drawDistance (object inst) 0%N ->
        renderInstance engine camera inst r =
        renderModel engine camera (Some m) matrixModel None r).

(** "... is replayed exactly once after all opaque submissions with its
    original world matrix and with the tint forced to identity white,
    bypassing the MaterialResolver color-selection step entirely; and the
    queue is empty immediately after the flush." *)
Definition stated_replay_white (r : Renderer) : Prop :=
  exists r' draws,
    flushTransparentQueue engine r = Ok tt r'
    /\ transparentDrawQueue r' = []
    /\ submitted r' = submitted r ++ draws
    /\ Forall2
         (fun e d => exists s faceType count offset,
                       d = DrawElements s faceType count offset
                       /\ uniModel s = q_matrix e
                       /\ vec4_eq (uniCol s) white)
         (transparentDrawQueue r) draws.


(** "the tile is drawn in the HQ grid iff its planar distance from the
    camera to the tile center, minus half the HQ tile size, is less than
    the configured HQ distance and its height-table entry is not the
    no-water sentinel" *)
Definition stated_hq_tile_rule (x y : Z) (r : Renderer) : Prop :=
  emits (renderWaterHQ_tile engine camera x y) r <->
  (distance2 (camposFlat camera) (tile_cullWS blockHQSize x y) - blockHQSize / 2
     < WATER_HQ_DISTANCE
   /\ realWater (gameData engine) (x * WATER_HQ_DATA_SIZE + y)%Z <> NO_WATER_INDEX).

(** "no tile position drawn in the HQ grid is also drawn in the LQ
    grid's draw set that frame" *)
Definition stated_water_no_overlap (r : Renderer) : Prop :=
  forall xh yh xl yl,
    vec2_eq (tile_waterWS blockHQSize xh yh) (tile_waterWS blockLQSize xl yl) ->
    ~ (emits (renderWaterHQ_tile engine camera xh yh) r
       /\ emits (renderWaterLQ_tile engine camera xl yl) r).

(** The tint a submitted command was drawn under. *)
Definition tint_of (d : DrawCommand) : vec4 :=
  match d with
  | DrawElements s _ _ _ => uniCol s
  | DrawArrays _ _ _ => white
  end.

(** The active time-of-day window of an object that is on from [timeOn]
    to [timeOff], through midnight when [timeOff] is the smaller. *)
Definition hour_in_window (on off hour : Z) : bool :=
  if (on <? off)%Z then (on <=? hour)%Z && (hour <=? off)%Z
  else (on <=? hour)%Z || (hour <=? off)%Z.

End Stated.

(** ** Concrete scenes *)

Module Scene.

#[local] Existing Instance Exact.glm.
#[local] Existing Instance Exact.declarations.

Definition brick : TextureInfo := {| texName := 5; transparent := false |}.
Definition glass : TextureInfo := {| texName := 7; transparent := true |}.

Definition textures_loaded : gmap string TextureInfo :=
  <["glass"%string := glass]> (<["brick"%string := brick]> ∅).

Definition red : N * N * N * N := (255, 0, 0, 255)%N.

Definition mat_brick : Material :=
  {| textures := [ {| name := "brick" |} ]; colour := red; mat_flags := 0;
     diffuseIntensity := 1; ambientIntensity := 1 |}.
Definition mat_glass : Material :=
  {| textures := [ {| name := "glass" |} ]; colour := red; mat_flags := 0;
     diffuseIntensity := 1; ambientIntensity := 1 |}.
Definition mat_unknown : Material :=
  {| textures := [ {| name := "unknown" |} ]; colour := red; mat_flags := 0;
     diffuseIntensity := 1; ambientIntensity := 1 |}.

(** A chunk of radius 1 around the model origin with per-material
    colour; its subgeometries use, in order, the opaque material, the
    transparent one, one whose texture is not in the cache, and a
    material index past the end of the list. *)
Definition chunk : Geometry :=
  {| dbuff_VAOName := 1; dbuff_FaceType := 4; EBO := 2;
     geometryBounds := {| center := (0, 0, 0); radius := 1 |};
     flags := 64;
     subgeom := [ {| start := 0; numIndices := 3; material := 0 |};
                  {| start := 3; numIndices := 3; material := 1 |};
                  {| start := 6; numIndices := 3; material := 2 |};
                  {| start := 9; numIndices := 3; material := 7 |} ];
     materials := [mat_brick; mat_glass; mat_unknown] |}.

Definition far_lod : ModelFrame :=
  mkFrame "far" Exact.identity [0%N] [].
Definition near_lod : ModelFrame :=
  mkFrame "near" Exact.identity [0%N] [].
Definition root : ModelFrame :=
  mkFrame "root" Exact.identity [] [far_lod; near_lod].

Definition building : Model :=
  {| frames := [root]; geometries := [chunk]; rootFrameIdx := 0 |}.

Definition plane (n : vec3) (d : Q) : Plane := {| normal := n; plane_d := d |}.

(** A box of half-width 1000 around the origin as the frustum. *)
Definition box : ViewFrustum :=
  {| plane0 := plane (1, 0, 0) 1000; plane1 := plane (-1, 0, 0) 1000;
     plane2 := plane (0, 1, 0) 1000; plane3 := plane (0, -1, 0) 1000;
     plane4 := plane (0, 0, 1) 1000; plane5 := plane (0, 0, -1) 1000;
     far := 1000; view := Exact.identity; projection := Exact.identity |}.

Definition camera_at (p : vec3) : ViewCamera := {| frustum := box; worldPos := p |}.

Definition camera : ViewCamera := camera_at (0, 0, 10).

Definition no_rotation : quat := (1, 0, 0, 0).

Definition object_data (clumps : N) (d0 d1 : Q) (on off : Z) (lod : bool) : ObjectData :=
  {| modelName := "building"; numClumps := clumps;
     drawDistance := fun i => if (i =? 0)%N then d0 else d1;
     timeOn := on; timeOff := off; LOD := lod |}.

Definition instance_at (p : vec3) (data : ObjectData) (handle : ModelHandle)
    (lod : option InstanceObject) : InstanceObject :=
  mkInstance data handle None p (1, 1, 1) no_rotation lod.

Definition loaded : ModelHandle := {| model := Some building |}.
Definition unloaded : ModelHandle := {| model := None |}.

Definition person : GameObject :=
  {| type := Character; animator := None; isFrameVisible := fun _ => true;
     isAnimationFixed := false; colourPrimary := (0, 0, 0); colourSecondary := (0, 0, 0) |}.

Definition pedestrian (handle : ModelHandle) : CharacterObject :=
  {| char_object := person; char_position := (0, 0, 0); char_rotation := no_rotation;
     char_model := handle |}.

Definition car_object : GameObject :=
  {| type := Vehicle; animator := None; isFrameVisible := fun _ => true;
     isAnimationFixed := false; colourPrimary := (0, 0, 1); colourSecondary := (0, 1, 0) |}.

Definition car (handle : option ModelHandle) : VehicleObject :=
  {| veh_object := car_object; veh_position := (0, 0, 0); veh_rotation := no_rotation;
     veh_model := handle;
     vehicle := {| veh_modelName := "car"; wheelModelID := 0; wheelScale := 1 |};
     wheels := [] |}.

Definition world (hour : Z) : GameWorld :=
  {| pedestrians := []; objectInstances := []; vehicleInstances := [];
     objectTypes := ∅;
     gameData := {| gd_textures := textures_loaded; gd_models := ∅;
                    realWater := fun _ => 0%Z; visibleWater := fun _ => 0%Z;
                    waterHeights := fun _ => 0 |};
     getHour := hour |}.

Definition noon : GameWorld := world 12.
Definition night : GameWorld := world 3.

Definition gl0 : GLState :=
  {| gl_VertexArray := 0; gl_ElementArrayBuffer := 0; gl_Texture2D := 0;
     uniModel := Exact.identity; uniCol := white;
     uniMatDiffuse := 0.9; uniMatAmbient := 0.1 |}.

Definition r0 : Renderer :=
  {| renderAlpha := 0; rendered := 0; culled := 0; transparentDrawQueue := [];
     gl := gl0; submitted := []; cout := [] |}.

(** The state the opaque pass leaves after deferring the transparent
    subgeometry of [chunk]. *)
Definition glass_entry : RQueueEntry :=
  {| q_model := building; q_g := 0; q_sg := 1; q_matrix := Exact.identity;
     q_object := None |}.

Definition r_queued : Renderer :=
  {| renderAlpha := 0; rendered := 0; culled := 0; transparentDrawQueue := [glass_entry];
     gl := gl0; submitted := []; cout := [] |}.

(** A two-tier object 29 units from the camera, between its thresholds
    20 and 50. *)
Definition two_tier : InstanceObject :=
  instance_at (0, 0, 40) (object_data 2 20 50 0 0 false) loaded None.

(** Single-tier objects, 29 and 4 units from the camera, threshold 20. *)
Definition lod_of_tower : InstanceObject :=
  instance_at (0, 0, 40) (object_data 1 100 100 0 0 true) loaded None.
Definition tower_far : InstanceObject :=
  instance_at (0, 0, 40) (object_data 1 20 20 0 0 false) loaded (Some lod_of_tower).
Definition lonely_far : InstanceObject :=
  instance_at (0, 0, 40) (object_data 1 20 20 0 0 false) loaded None.
Definition lod_near : InstanceObject :=
  instance_at (0, 0, 15) (object_data 1 20 20 0 0 true) loaded None.

(** An object on from 6 to 20. *)
Definition day_object : InstanceObject :=
  instance_at (0, 0, 15) (object_data 1 20 20 6 20 false) loaded None.

Definition not_yet_loaded : InstanceObject :=
  instance_at (0, 0, 15) (object_data 1 20 20 0 0 false) unloaded None.

(** A frame with a chunk of its own and a child frame with another,
    and an object that hides the parent frame only. *)
Definition door : ModelFrame := mkFrame "door" Exact.identity [0%N] [].
Definition body_frame : ModelFrame := mkFrame "body" Exact.identity [0%N] [door].

Definition hider : GameObject :=
  {| type := Character; animator := None;
     isFrameVisible := fun f => negb (String.eqb (getName f) "body");
     isAnimationFixed := false; colourPrimary := (0, 0, 0); colourSecondary := (0, 0, 0) |}.

(** Cameras over the water: 150 units beside the centre of the
    high-detail tile (64, 64), and at distances 257/2 and 287/2 from the
    centres of the high-detail tile (64, 64) and the low-detail tile
    (32, 32), which share the corner (0, 0). *)
Definition camera_band : ViewCamera := camera_at (166, 16, 10).
Definition camera_both : ViewCamera := camera_at (-223 # 2, 32, 10).

End Scene.

(** ** Relations between renderer states used by the invariants *)

Section Steps.
Context {G : Glm} {D : Declarations}.

Definition is_DrawElements (d : DrawCommand) : Prop :=
  match d with
  | DrawElements _ _ _ _ => True
  | DrawArrays _ _ _ => False
  end.

(** From [r] to [r']: commands were only appended to the GPU stream,
    all of them [glDrawElements]; [rendered], as a [size_t], went up by
    their number; [_renderAlpha] is unchanged. *)
Definition draw_step (r r' : Renderer) : Prop :=
  renderAlpha r' = renderAlpha r
  /\ exists draws,
       submitted r' = submitted r ++ draws
       /\ Forall is_DrawElements draws
       /\ ((rendered r < SIZE_MAX1)%N ->
           rendered r' = ((rendered r + N.of_nat (length draws)) mod SIZE_MAX1)%N).

(** A [draw_step] in which the queue only grew, by entries naming
    existing subgeometries. *)
Definition pass_step (r r' : Renderer) : Prop :=
  draw_step r r'
  /\ exists entries,
       transparentDrawQueue r' = transparentDrawQueue r ++ entries
       /\ Forall entry_valid entries.

(** A [pass_step] that, in addition, left [culled] and [std::cout] alone. *)
Definition traversal_step (r r' : Renderer) : Prop :=
  pass_step r r' /\ culled r' = culled r /\ cout r' = cout r.

(** Every run of [c] that returns is a [T]-step. *)
Definition establishes {A} (T : Renderer -> Renderer -> Prop) (c : Render A) : Prop :=
  forall r a r', c r = Ok a r' -> T r r'.

(** Two states that agree on what decides the course of a frame: the
    interpolation fraction, the two counters and the queue. *)
Definition agree (r1 r2 : Renderer) : Prop :=
  renderAlpha r1 = renderAlpha r2
  /\ rendered r1 = rendered r2
  /\ culled r1 = culled r2
  /\ transparentDrawQueue r1 = transparentDrawQueue r2.

(** [c] takes agreeing states to agreeing states with the same result,
    or stops on both. *)
Definition respects {A} (c : Render A) : Prop :=
  forall r1 r2, agree r1 r2 ->
    match c r1, c r2 with
    | Ok a1 r1', Ok a2 r2' => a1 = a2 /\ agree r1' r2'
    | Undefined _ _, Undefined _ _ => True
    | _, _ => False
    end.

(** The state a computation returns in, or [default] when it stops. *)
Definition final_state {A} (o : Outcome A) (default : Renderer) : Renderer :=
  match o with
  | Ok _ r => r
  | Undefined _ _ => default
  end.

(** Whether a run returned, and with what. *)
Definition returned {A} (o : Outcome A) : option A :=
  match o with
  | Ok a _ => Some a
  | Undefined _ _ => None
  end.

End Steps.

Section WheelNotions.
Context {G : Glm} {D : Declarations}.
Variable camera : ViewCamera.

(** The frame [renderWheel] stops at: the first of the model's frames
    that is called [name]. *)
Definition wheel_frame (model : Model) (name : string) : option ModelFrame :=
  List.find (fun f => String.eqb (getName f) name) (frames model).

(** How many of the chunks [gs] of [model], placed by [matrix], fail
    the frustum test. *)
Definition culled_count (model : Model) (matrix : mat4) (gs : list N) : nat :=
  length (List.filter (chunk_culled camera model matrix) gs).




End WheelNotions.

(** ** [mix] and the time of day *)

(** [float mix(uint8_t a, uint8_t b, float num)]: [a+(b-a)*num]; the
    bytes are promoted to [int] before the subtraction. *)
Definition mix (a b : N) (num : Q) : Q :=
  inject_Z (Z.of_N a) + inject_Z (Z.of_N b - Z.of_N a) * num.






(** ** The index buffer of the sky dome *)

Definition skydomeSegments : N := 8.
Definition skydomeRows : N := 10.

Definition size_t_mul (a b : N) : N := ((a * b) mod SIZE_MAX1)%N.

(** Conversion of a [size_t] to [GLushort]. *)
Definition GLushort (v : N) : N := (v mod 2 ^ 16)%N.

(** The values [0 .. n-1] of a [size_t] loop counter. *)
Definition size_t_range (n : N) : list N := map N.of_nat (seq 0 (N.to_nat n)).

(** A local array under construction: the next index [i] and the
    elements, [None] where nothing has been stored yet. *)
Definition ArrayFill : Type := N * list (option N).

(** [buff[i++] = v]; storing past the end of the array is undefined. *)
Definition store (v : N) (st : ArrayFill) : option ArrayFill :=
  let '(i, buff) := st in
  if (i <? vec_size buff)%N
  then Some (size_t_add i 1, <[N.to_nat i := Some v]> buff)
  else None.

Definition store_all (vs : list N) (st : ArrayFill) : option ArrayFill :=
  fold_left (fun acc v => acc ≫= store v) vs (Some st).

(** The six indices the inner loop of the constructor stores for
    [(r, s)], as [GLushort]. *)
Definition quad_indices (segments r s : N) : list N :=
  map GLushort
    [ size_t_add (size_t_mul r segments) s;
      size_t_add (size_t_mul r segments) (size_t_add s 1);
      size_t_add (size_t_mul (size_t_add r 1) segments) (size_t_add s 1);
      size_t_add (size_t_mul r segments) s;
      size_t_add (size_t_mul (size_t_add r 1) segments) (size_t_add s 1);
      size_t_add (size_t_mul (size_t_add r 1) segments) s ].

(** The index loops of the constructor on [skydomeIndBuff], an array of
    [rows*segments*6] elements: [r] runs below [rows-1], [s] below
    [segments-1]. *)
Definition skydomeIndBuff (rows segments : N) : option ArrayFill :=
  fold_left
    (fun acc r =>
       fold_left (fun acc s => acc ≫= store_all (quad_indices segments r s))
         (size_t_range (size_t_sub segments 1)) acc)
    (size_t_range (size_t_sub rows 1))
    (Some (0%N, replicate (N.to_nat (size_t_mul (size_t_mul rows segments) 6)) None)).

(** The index count of the sky dome's [glDrawElements] in [renderWorld]:
    [skydomeSegments * skydomeRows * 6]. *)
Definition skydome_draw_count (rows segments : N) : N :=
  size_t_mul (size_t_mul segments rows) 6.

(** An array whose first elements have been stored, in order, as [done],
    with [k] elements after them not stored yet. *)
Definition filled (done : list N) (k : nat) : ArrayFill :=
  (N.of_nat (length done), map Some done ++ replicate k None).

(** The indices the two loops store, in the order they store them. *)
Definition skydome_indices (rows segments : N) : list N :=
  flat_map
    (fun r => flat_map (quad_indices segments r) (size_t_range (segments - 1)))
    (size_t_range (rows - 1)).

(** ** [GameRenderer::renderPaths]: the debug overlay *)

Module Paths.

(** Modelled from the spec: [AIGraphNode] and the character controller
    are declared in headers that are not part of the sources at hand.
    [renderPaths] reads a node's [type] (compared with
    [AIGraphNode::Pedestrian] only), [position], [external], [size] and
    [connections]; the design document names the two kinds of graph,
    pedestrian and road/vehicle.  [connections] holds pointers to nodes
    of the same graph, given here as indices into [aigraph.nodes]; an
    index past the end stands for a pointer to no node. *)
Inductive NodeType := Pedestrian | Vehicle.

Record AIGraphNode := {
  type : NodeType;
  position : vec3;
  external : bool;
  size : Q;
  connections : list nat
}.

Record CharacterController := {
  getTargetPosition : vec3
}.

Section Characters.
Context {G : Glm}.

(** A character of [engine->pedestrians] with its [controller] pointer. *)
Record ControlledCharacter := {
  character : CharacterObject;
  controller : option CharacterController
}.

End Characters.

(** The two function-local [static] vectors. *)
Record LineStatics := {
  carlines : list vec3;
  pedlines : list vec3
}.

(** [glTexImage2D] of the one-pixel image [img], and [glDrawArrays
    (GL_LINES, 0, lines.size())] over the buffer loaded from [lines]. *)
Inductive LineDraw :=
| DrawLines (img : vec3) (lines : list vec3).

Inductive PathsOutcome :=
| Drawn (statics : LineStatics) (draws : list LineDraw)
| UndefinedPaths (why : string).

Definition car_push_back (v : vec3) (s : LineStatics) : LineStatics :=
  {| carlines := carlines s ++ [v]; pedlines := pedlines s |}.

Definition ped_push_back (v : vec3) (s : LineStatics) : LineStatics :=
  {| carlines := carlines s; pedlines := pedlines s ++ [v] |}.

(** The two vertices pushed for the node itself. *)
Definition node_marker (start : AIGraphNode) (s : LineStatics) : LineStatics :=
  match type start with
  | Pedestrian =>
      let s := ped_push_back (position start) s in
      if external start
      then ped_push_back (vec3_add (position start) (0, 0, 2)) s
      else ped_push_back (vec3_add (position start) (0, 0, 1)) s
  | _ =>
      let s := car_push_back (vec3_sub (position start) (size start / 2, 0, 0)) s in
      car_push_back (vec3_add (position start) (size start / 2, 0, 0)) s
  end.

(** One turn of the loop over [start->connections]. *)
Definition connection_line (nodes : list AIGraphNode) (start : AIGraphNode) (c : nat)
    (s : LineStatics) : option LineStatics :=
  end_ ← nodes !! c;
  Some match type start with
       | Pedestrian =>
           let s := ped_push_back (vec3_add (position start) (0, 0, 1)) s in
           ped_push_back (vec3_add (position end_) (0, 0, 1)) s
       | _ =>
           let s := car_push_back (vec3_add (position start) (0, 0, 1)) s in
           car_push_back (vec3_add (position end_) (0, 0, 1)) s
       end.

(** One turn of the loop over [engine->aigraph.nodes]. *)
Definition node_lines (nodes : list AIGraphNode) (start : AIGraphNode) (s : LineStatics)
    : option LineStatics :=
  fold_left (fun acc c => acc ≫= connection_line nodes start c)
    (connections start) (Some (node_marker start s)).

Definition graph_lines (nodes : list AIGraphNode) (s : LineStatics) : option LineStatics :=
  fold_left (fun acc start => acc ≫= node_lines nodes start) nodes (Some s).

Section Overlay.
Context {G : Glm}.

(** One turn of the loop over [engine->pedestrians]. *)
Definition character_line (charac : ControlledCharacter) (s : LineStatics) : LineStatics :=
  match controller charac with
  | Some ctl =>
      let s := car_push_back (char_position (character charac)) s in
      car_push_back (getTargetPosition ctl) s
  | None => s
  end.

Definition character_lines (pedestrians : list ControlledCharacter) (s : LineStatics)
    : LineStatics :=
  fold_left (fun acc charac => character_line charac acc) pedestrians s.

Definition red_img : vec3 := (1, 0, 0).
Definition green_img : vec3 := (0, 1, 0).

(** The uploads and draws after the loops: [&(carlines[0])] and
    [&(pedlines[0])] index the vectors, which is undefined on an empty
    one; both vectors are cleared at the end. *)
Definition draw_lines (s : LineStatics) : PathsOutcome :=
  match carlines s with
  | [] => UndefinedPaths "carlines[0]"
  | _ :: _ =>
      match pedlines s with
      | [] => UndefinedPaths "pedlines[0]"
      | _ :: _ =>
          Drawn {| carlines := []; pedlines := [] |}
                [DrawLines red_img (carlines s); DrawLines green_img (pedlines s)]
      end
  end.

Definition renderPaths (nodes : list AIGraphNode) (pedestrians : list ControlledCharacter)
    (s : LineStatics) : PathsOutcome :=
  match graph_lines nodes s with
  | None => UndefinedPaths "end->position"
  | Some s => draw_lines (character_lines pedestrians s)
  end.

(** *** What the overlay is made of *)

Definition is_pedestrian (n : AIGraphNode) : bool :=
  match type n with Pedestrian => true | _ => false end.

(** The line segments a node stands for: its marker and one per
    connection. *)
Definition node_segments (n : AIGraphNode) : nat := S (length (connections n)).

Definition ped_segments (nodes : list AIGraphNode) : nat :=
  list_sum (map node_segments (List.filter is_pedestrian nodes)).

Definition is_controlled (charac : ControlledCharacter) : bool :=
  match controller charac with Some _ => true | None => false end.

Definition car_segments (nodes : list AIGraphNode) (pedestrians : list ControlledCharacter)
    : nat :=
  list_sum (map node_segments (List.filter (fun n => negb (is_pedestrian n)) nodes))
  + length (List.filter is_controlled pedestrians).

End Overlay.

(** The segments a node adds on [carlines] and on [pedlines], when it
    adds [k] in all. *)
Definition car_part (n : AIGraphNode) (k : nat) : nat := if is_pedestrian n then 0 else k.
Definition ped_part (n : AIGraphNode) (k : nat) : nat := if is_pedestrian n then k else 0.

(** Every connection points to a node of the graph. *)
Definition graph_closed (nodes : list AIGraphNode) : bool :=
  forallb (fun n => forallb (fun c => (c <? length nodes)%nat) (connections n)) nodes.

(** [s'] is [s] with [2 a] vertices pushed on [carlines] and [2 b] on
    [pedlines]. *)
Definition pushed (a b : nat) (s s' : LineStatics) : Prop :=
  exists cars peds,
    carlines s' = carlines s ++ cars /\ pedlines s' = pedlines s ++ peds
    /\ length cars = (2 * a)%nat /\ length peds = (2 * b)%nat.

(** A crossing: a pavement node linked to a road node and back, and a
    character walking to a target. *)
Definition pavement : AIGraphNode :=
  {| type := Pedestrian; position := (0, 0, 0); external := true; size := 0;
     connections := [1%nat] |}.
Definition road : AIGraphNode :=
  {| type := Vehicle; position := (10, 0, 0); external := false; size := 4;
     connections := [0%nat; 1%nat] |}.
Definition crossing : list AIGraphNode := [pavement; road].

Definition walker : ControlledCharacter (G := Exact.glm) :=
  {| character := Scene.pedestrian Scene.loaded;
     controller := Some {| getTargetPosition := (5, 5, 0) |} |}.

Definition no_lines : LineStatics := {| carlines := []; pedlines := [] |}.

End Paths.

(** ** A populated scene *)

Module Town.

#[local] Existing Instance Exact.glm.
#[local] Existing Instance Exact.declarations.

(** A chunk with per-vertex colour: no [ModuleMaterialColor] flag,
    though its material is red; the second subgeometry names a material
    past the end of the list. *)
Definition painted : Geometry :=
  {| dbuff_VAOName := 3; dbuff_FaceType := 4; EBO := 4;
     geometryBounds := {| center := (0, 0, 0); radius := 1 |};
     flags := 0;
     subgeom := [ {| start := 0; numIndices := 6; material := 0 |};
                  {| start := 6; numIndices := 6; material := 7 |} ];
     materials := [Scene.mat_brick] |}.

(** A chunk beyond the plane [x <= 1000] of the box frustum. *)
Definition far_chunk : Geometry :=
  {| dbuff_VAOName := 5; dbuff_FaceType := 4; EBO := 6;
     geometryBounds := {| center := (5000, 0, 0); radius := 1 |};
     flags := 0;
     subgeom := [ {| start := 0; numIndices := 6; material := 0 |} ];
     materials := [Scene.mat_brick] |}.

(** The "wheels" model: two frames called "wheel", the first with a
    child that holds both chunks, the second without children. *)
Definition tyre : ModelFrame := mkFrame "tyre" Exact.identity [0%N; 1%N] [].
Definition hub : ModelFrame := mkFrame "wheel" Exact.identity [] [tyre].
Definition spare : ModelFrame := mkFrame "wheel" Exact.identity [] [].

Definition wheels_model : Model :=
  {| frames := [Scene.root; hub; spare]; geometries := [painted; far_chunk];
     rootFrameIdx := 0 |}.

Definition wheel_data : ObjectData :=
  {| modelName := "wheel"; numClumps := 1; drawDistance := fun _ => 100;
     timeOn := 0; timeOff := 0; LOD := false |}.

Definition car_on_wheels (handle : option ModelHandle) : VehicleObject :=
  {| veh_object := Scene.car_object; veh_position := (0, 0, 0);
     veh_rotation := Scene.no_rotation; veh_model := handle;
     vehicle := {| veh_modelName := "car"; wheelModelID := 0; wheelScale := 1 |};
     wheels := [ {| wheelTransformWS := Exact.identity; chassisConnectionPointCS_x := 1 |};
                 {| wheelTransformWS := Exact.identity; chassisConnectionPointCS_x := -1 |} ] |}.

Definition data (wheels_handle : ModelHandle) : GameData :=
  {| gd_textures := Scene.textures_loaded;
     gd_models := <["wheels"%string := wheels_handle]> ∅;
     realWater := fun _ => 0%Z; visibleWater := fun _ => 0%Z;
     waterHeights := fun _ => 0 |}.

(** A pedestrian, four instances and a car on two wheels, at noon. *)
Definition busy : GameWorld :=
  {| pedestrians := [Scene.pedestrian Scene.loaded];
     objectInstances :=
       [Scene.two_tier; Scene.tower_far; Scene.day_object; Scene.not_yet_loaded];
     vehicleInstances := [car_on_wheels (Some Scene.loaded)];
     objectTypes := <[0%N := wheel_data]> ∅;
     gameData := data {| model := Some wheels_model |};
     getHour := 12 |}.

(** The same car where the "wheels" model is not loaded yet. *)
Definition garage : GameWorld :=
  {| pedestrians := []; objectInstances := [];
     vehicleInstances := [car_on_wheels (Some Scene.loaded)];
     objectTypes := <[0%N := wheel_data]> ∅;
     gameData := data Scene.unloaded;
     getHour := 12 |}.

(** A two-tier model whose first frame has no children, on an object 29
    units from the camera, between its thresholds 20 and 50. *)
Definition flat : Model :=
  {| frames := [Scene.near_lod]; geometries := [Scene.chunk]; rootFrameIdx := 0 |}.

Definition flat_two_tier : InstanceObject :=
  Scene.instance_at (0, 0, 40) (Scene.object_data 2 20 50 0 0 false)
    {| model := Some flat |} None.

(** A frame that its own transform moves 5000 units along x, beyond
    the plane [x <= 1000] of the box frustum, and one that its own
    transform moves back by as much; each holds the chunk of the scene. *)
Definition annex : ModelFrame :=
  mkFrame "annex" (translate mat4_identity (5000, 0, 0)) [0%N] [].
Definition recentred : ModelFrame :=
  mkFrame "recentred" (translate mat4_identity (-5000, 0, 0)) [0%N] [].

Definition estate : Model :=
  {| frames := [mkFrame "root" Exact.identity [] [annex; recentred]; annex; recentred];
     geometries := [Scene.chunk]; rootFrameIdx := 0 |}.

(** A model whose root frame is not the first of its frames: the root,
    at index 1, has the two detail frames of the scene as its last
    children; the first frame is the root's first child, a shed with two
    empty parts of its own. *)
Definition shed_low : ModelFrame := mkFrame "shed_low" Exact.identity [] [].
Definition shed_high : ModelFrame := mkFrame "shed_high" Exact.identity [] [].
Definition shed : ModelFrame := mkFrame "shed" Exact.identity [] [shed_low; shed_high].
Definition yard_root : ModelFrame :=
  mkFrame "root" Exact.identity [] [shed; Scene.far_lod; Scene.near_lod].

Definition yard : Model :=
  {| frames := [shed; yard_root; shed_low; shed_high; Scene.far_lod; Scene.near_lod];
     geometries := [Scene.chunk]; rootFrameIdx := 1 |}.

(** Two-tier objects on [yard], thresholds 20 and 50: one 29 units from
    the camera, one 4 units from it. *)
Definition yard_far : InstanceObject :=
  Scene.instance_at (0, 0, 40) (Scene.object_data 2 20 50 0 0 false)
    {| model := Some yard |} None.
Definition yard_near : InstanceObject :=
  Scene.instance_at (0, 0, 15) (Scene.object_data 2 20 50 0 0 false)
    {| model := Some yard |} None.

(** A renderer that has been in use: counters, bindings and log differ
    from [Scene.r0], the queue is the same. *)
Definition r_used : Renderer :=
  {| renderAlpha := 1; rendered := 7; culled := 3; transparentDrawQueue := [];
     gl := {| gl_VertexArray := 9; gl_ElementArrayBuffer := 9; gl_Texture2D := 9;
              uniModel := Exact.identity; uniCol := (0, 0, 0, 1);
              uniMatDiffuse := 1; uniMatAmbient := 1 |};
     submitted := []; cout := [WheelModelNotLoaded "wheel"] |}.

(** The states of a frame on [busy] from [Scene.r0]. *)
Definition after_root : Renderer :=
  final_state (renderFrame Scene.noon Scene.camera Scene.building Scene.root
                 Exact.identity None true Scene.r0) Scene.r0.

Definition started : Renderer := final_state (begin_frame (1 # 2) Scene.r0) Scene.r0.

Definition after_pedestrians : Renderer :=
  final_state (for_each (renderPedestrian busy Scene.camera) (pedestrians busy) started)
    Scene.r0.

Definition after_instances : Renderer :=
  final_state (for_each (renderInstance busy Scene.camera) (objectInstances busy)
                 after_pedestrians) Scene.r0.

Definition after_vehicles : Renderer :=
  final_state (for_each (renderVehicle busy Scene.camera) (vehicleInstances busy)
                 after_instances) Scene.r0.

Definition after_frame : Renderer :=
  final_state (renderWorld_objects busy Scene.camera (1 # 2) Scene.r0) Scene.r0.

End Town.

(** * Properties *)

(** ** Scalars *)

Lemma Qltb_lt (a b : Q) : Qltb a b = true <-> a < b.
Proof.
  unfold Qltb. rewrite negb_true_iff, <- not_true_iff_false, Qle_bool_iff.
  split; [apply Qnot_le_lt | apply Qlt_not_le].
Qed.

Lemma Qltb_ge (a b : Q) : Qltb a b = false <-> b <= a.
Proof.
  unfold Qltb. rewrite negb_false_iff. apply Qle_bool_iff.
Qed.


(** ** Vectors and the monad *)

Lemma at_index_lookup {A} (v : list A) (n : nat) : at_index v (N.of_nat n) = v !! n.
Proof.
  revert n. induction v as [|x v IH]; intros [|n]; try reflexivity.
  cbn [at_index]. replace (N.of_nat (S n) =? 0)%N with false by (symmetry; apply N.eqb_neq; lia).
  replace (N.pred (N.of_nat (S n))) with (N.of_nat n) by lia. apply IH.
Qed.

Lemma at_index_in_range {A} (v : list A) (i : N) :
  (i < vec_size v)%N -> exists x, at_index v i = Some x.
Proof.
  unfold vec_size. intros Hi. rewrite <- (N2Nat.id i), at_index_lookup.
  destruct (lookup_lt_is_Some_2 v (N.to_nat i)) as [x Hx]; [lia | eauto].
Qed.

Lemma at_index_some_lt {A} (v : list A) (i : N) (x : A) :
  at_index v i = Some x -> (i < vec_size v)%N.
Proof.
  unfold vec_size. rewrite <- (N2Nat.id i), at_index_lookup. intros Hx.
  apply lookup_lt_Some in Hx. lia.
Qed.

Lemma at_index_indices {A} (v : list A) (i : N) :
  In i (indices v) -> exists x, at_index v i = Some x.
Proof.
  unfold indices. rewrite in_map_iff. intros (n & <- & Hn). apply in_seq in Hn.
  apply at_index_in_range. unfold vec_size. lia.
Qed.

Section MonadFacts.
Context {G : Glm}.

Lemma for_each_cons {A} (body : A -> Render unit) (x : A) (l : list A) (r : Renderer) :
  for_each body (x :: l) r = bind (body x) (fun _ => for_each body l) r.
Proof. reflexivity. Qed.

Lemma for_each_total {A} (body : A -> Render unit) (l : list A) :
  (forall x, In x l -> forall r, exists r', body x r = Ok tt r') ->
  forall r, exists r', for_each body l r = Ok tt r'.
Proof.
  induction l as [|x l IH]; intros Hbody r.
  - exists r. reflexivity.
  - rewrite for_each_cons. unfold bind.
    destruct (Hbody x (or_introl eq_refl) r) as [r1 ->].
    apply IH. intros y Hy. apply Hbody. right. exact Hy.
Qed.

(** Iterations that leave the state alone can be dropped from a loop. *)
Lemma for_each_skip {A} (body : A -> Render unit) (keep : A -> bool) (l : list A) :
  (forall x, In x l -> keep x = false -> forall r, body x r = Ok tt r) ->
  forall r, for_each body l r = for_each body (List.filter keep l) r.
Proof.
  induction l as [|x l IH]; intros Hskip r; [reflexivity|].
  cbn [List.filter]. destruct (keep x) eqn:Hk.
  - rewrite !for_each_cons. unfold bind. destruct (body x r) as [[] r1|]; [|reflexivity].
    apply IH. intros y Hy. apply Hskip. right. exact Hy.
  - rewrite for_each_cons. unfold bind. rewrite (Hskip x (or_introl eq_refl) Hk r).
    apply IH. intros y Hy. apply Hskip. right. exact Hy.
Qed.

End MonadFacts.

(** ** The frustum test *)

Section Frustum.
Context {G : Glm}.

Lemma forallb_false_iff {A} (f : A -> bool) (l : list A) :
  forallb f l = false <-> exists x, In x l /\ f x = false.
Proof.
  induction l as [|x l IH]; cbn [forallb].
  - split; [discriminate | intros (x & [] & _)].
  - rewrite andb_false_iff, IH. split.
    + intros [Hx | (y & Hy & Hf)]; [exists x | exists y]; split; auto; [left | right]; auto.
    + intros (y & [<- | Hy] & Hf); [left | right]; eauto.
Qed.

Lemma intersects_false_iff (fr : ViewFrustum) (c : vec3) (r : Q) :
  intersects fr c r = false <->
  exists p, In p (planes fr) /\ signed_distance p c < - r.
Proof.
  unfold intersects. rewrite forallb_false_iff.
  split; intros (p & Hp & Hlt); exists p; split; auto.
  - now rewrite negb_false_iff, Qltb_lt in Hlt.
  - now rewrite negb_false_iff, Qltb_lt.
Qed.

End Frustum.

(** Runs the state updates of a straight-line piece of the renderer. *)
Ltac run :=
  repeat (cbv beta iota delta
            [bind ret gets modify deref undefined set_gl submit
             glBindVertexArray glBindBuffer_ELEMENT_ARRAY glBindTexture_2D
             glUniform_uniModel glUniform_uniCol glUniform_uniMatDiffuse
             glUniform_uniMatAmbient glDrawElements glDrawArrays print
             rendered_incr culled_incr queue_push_back queue_clear];
          cbn [gl rendered culled transparentDrawQueue submitted cout renderAlpha
               gl_VertexArray gl_ElementArrayBuffer gl_Texture2D uniModel uniCol
               uniMatDiffuse uniMatAmbient]).

(** ** [renderSubgeometry] *)

Section Subgeometry.
Context {G : Glm} {D : Declarations}.
Variable engine : GameWorld.

Lemma renderSubgeometry_draw_spec (geom : Geometry) (sub : SubGeometry) (r : Renderer) :
  exists r', renderSubgeometry_draw geom sub r = Ok true r'
             /\ drew geom sub r r' /\ gl r' = gl r.
Proof.
  unfold renderSubgeometry_draw. run. eexists. split; [reflexivity|].
  unfold drew. cbn. auto 10.
Qed.

Lemma renderSubgeometry_colour_spec (geom : Geometry) (mat : Material)
    (object : option GameObject) (r : Renderer) :
  renderSubgeometry_colour geom mat object r =
    if has_flags (flags geom) ModuleMaterialColor
    then glUniform_uniCol (material_colour mat object) r
    else Ok tt r.
Proof.
  unfold renderSubgeometry_colour, material_colour.
  destruct (has_flags _ _); [|reflexivity].
  destruct (colour mat) as [[[cr cg] cb] ca].
  destruct object as [o|]; [|reflexivity].
  destruct (type o); try reflexivity.
  destruct (negb _); [destruct (colourPrimary o) as [[? ?] ?]; reflexivity|].
  destruct (negb _); [destruct (colourSecondary o) as [[? ?] ?]; reflexivity|].
  reflexivity.
Qed.

(** The material block: the tint becomes the selected colour when the
    chunk has the flag and stays otherwise; the intensities are the
    material's; the bound texture is untouched; then the draw. *)
Lemma renderSubgeometry_material_spec (geom : Geometry) (sub : SubGeometry)
    (mat : Material) (object : option GameObject) (r : Renderer) :
  exists r', renderSubgeometry_material geom sub mat object r = Ok true r'
    /\ drew geom sub r r'
    /\ gl_Texture2D (gl r') = gl_Texture2D (gl r)
    /\ uniCol (gl r') =
         (if has_flags (flags geom) ModuleMaterialColor
          then material_colour mat object else uniCol (gl r))
    /\ uniMatDiffuse (gl r') = diffuseIntensity mat
    /\ uniMatAmbient (gl r') = ambientIntensity mat.
Proof.
  unfold renderSubgeometry_material, bind at 1.
  rewrite renderSubgeometry_colour_spec.
  destruct (has_flags _ _); unfold renderSubgeometry_draw; run;
    (eexists; split; [reflexivity|]); unfold drew; cbn; auto 10.
Qed.

(** The whole of [renderSubgeometry] on an existing subgeometry. *)
Lemma renderSubgeometry_spec (model : Model) (g sg : N) (matrix : mat4)
    (object : option GameObject) (queueTransparent : bool)
    (geom : Geometry) (sub : SubGeometry) (r : Renderer) :
  at_index (geometries model) g = Some geom ->
  at_index (subgeom geom) sg = Some sub ->
  exists r',
    renderSubgeometry engine model g sg matrix object queueTransparent r
      = Ok (negb (queueTransparent && transparent_material engine model g sg)) r'
    /\ if queueTransparent && transparent_material engine model g sg
       then rejected r r'
       else drew geom sub r r'
            /\ gl_Texture2D (gl r') =
                 match resolved_texture engine model g sg with
                 | Some tex => texName tex
                 | None => gl_Texture2D (gl r)
                 end
            /\ uniCol (gl r') =
                 match subgeometry_material model g sg with
                 | Some (_, mat) =>
                     if has_flags (flags geom) ModuleMaterialColor
                     then material_colour mat object else uniCol (gl r)
                 | None => uniCol (gl r)
                 end
            /\ uniMatDiffuse (gl r') =
                 match subgeometry_material model g sg with
                 | Some (_, mat) => diffuseIntensity mat
                 | None => uniMatDiffuse (gl r)
                 end
            /\ uniMatAmbient (gl r') =
                 match subgeometry_material model g sg with
                 | Some (_, mat) => ambientIntensity mat
                 | None => uniMatAmbient (gl r)
                 end.
Proof.
  intros Hg Hsg.
  unfold transparent_material, resolved_texture, subgeometry_material.
  unfold renderSubgeometry. rewrite !Hg. run. rewrite !Hsg. run.
  destruct (N.ltb_spec (material sub) (vec_size (materials geom))) as [Hlt | Hge].
  - destruct (at_index_in_range _ _ Hlt) as [mat Hmat]. rewrite !Hmat. run.
    destruct (textures mat) as [|t0 ts].
    + rewrite andb_false_r. cbn [negb].
      match goal with |- context [renderSubgeometry_material geom sub mat object ?r0] =>
        destruct (renderSubgeometry_material_spec geom sub mat object r0)
          as (r' & -> & Hd & Ht & Hc & Hdi & Ha) end.
      exists r'. split; [reflexivity|]. unfold drew in *. cbn in *. intuition.
    + destruct (gd_textures (gameData engine) !! name t0) as [tex|].
      * rewrite (andb_comm queueTransparent).
        destruct (transparent tex && queueTransparent); cbn [negb].
        -- eexists. split; [reflexivity|]. unfold rejected. cbn. auto 12.
        -- run.
           match goal with |- context [renderSubgeometry_material geom sub mat object ?r0] =>
             destruct (renderSubgeometry_material_spec geom sub mat object r0)
               as (r' & -> & Hd & Ht & Hc & Hdi & Ha) end.
           exists r'. split; [reflexivity|]. unfold drew in *. cbn in *. intuition.
      * rewrite andb_false_r. cbn [negb].
        match goal with |- context [renderSubgeometry_material geom sub mat object ?r0] =>
          destruct (renderSubgeometry_material_spec geom sub mat object r0)
            as (r' & -> & Hd & Ht & Hc & Hdi & Ha) end.
        exists r'. split; [reflexivity|]. unfold drew in *. cbn in *. intuition.
  - assert (Hnone : at_index (materials geom) (material sub) = None).
    { destruct (at_index (materials geom) (material sub)) eqn:E; [|reflexivity].
      apply at_index_some_lt in E. lia. }
    rewrite Hnone, andb_false_r. cbn [negb].
    match goal with |- context [renderSubgeometry_draw geom sub ?r0] =>
      destruct (renderSubgeometry_draw_spec geom sub r0) as (r' & -> & Hd & Hgl) end.
    exists r'. split; [reflexivity|]. rewrite Hgl. unfold drew in *. cbn in *. intuition.
Qed.

Lemma out_of_range_no_material (model : Model) (g sg : N)
    (geom : Geometry) (sub : SubGeometry) :
  at_index (geometries model) g = Some geom ->
  at_index (subgeom geom) sg = Some sub ->
  (vec_size (materials geom) <= material sub)%N ->
  subgeometry_material model g sg = None.
Proof.
  intros Hg Hsg Hge. unfold subgeometry_material. rewrite Hg, Hsg.
  destruct (at_index (materials geom) (material sub)) eqn:E; [|reflexivity].
  apply at_index_some_lt in E. lia.
Qed.

(** C10. A subgeometry whose material index is not below
    [materials.size()] is submitted all the same: [renderSubgeometry]
    returns true, binds no texture, leaves the tint and both intensity
    uniforms as they were, increments [rendered] and issues the draw. *)
Theorem material_out_of_range_still_drawn (model : Model) (g sg : N) (matrix : mat4)
    (object : option GameObject) (queueTransparent : bool)
    (geom : Geometry) (sub : SubGeometry) (r : Renderer) :
  at_index (geometries model) g = Some geom ->
  at_index (subgeom geom) sg = Some sub ->
  (vec_size (materials geom) <= material sub)%N ->
  exists r',
    renderSubgeometry engine model g sg matrix object queueTransparent r = Ok true r'
    /\ gl_Texture2D (gl r') = gl_Texture2D (gl r)
    /\ uniCol (gl r') = uniCol (gl r)
    /\ uniMatDiffuse (gl r') = uniMatDiffuse (gl r)
    /\ uniMatAmbient (gl r') = uniMatAmbient (gl r)
    /\ rendered r' = size_t_add (rendered r) 1
    /\ submitted r' = submitted r ++
         [DrawElements (gl r') (dbuff_FaceType geom) (numIndices sub) (4 * start sub)].
Proof.
  intros Hg Hsg Hge.
  destruct (renderSubgeometry_spec model g sg matrix object queueTransparent geom sub r Hg Hsg)
    as (r' & Hrun & Hpost).
  pose proof (out_of_range_no_material model g sg geom sub Hg Hsg Hge) as Hnone.
  unfold transparent_material, resolved_texture in Hrun, Hpost.
  rewrite Hnone, andb_false_r in Hrun, Hpost. cbn [negb] in Hrun.
  destruct Hpost as ((Hsub & Hren & _) & Htex & Hcol & Hdif & Hamb).
  exists r'. auto 10.
Qed.

(** C5. For a subgeometry whose material has a first texture: when the
    cache knows the texture, it is flagged transparent and the caller
    asks for deferral (the opaque pass), [renderSubgeometry] returns false
    with the bound texture unchanged and nothing submitted; when the cache
    knows it otherwise, the texture is bound and the draw is issued under
    it, returning true; when the cache does not know the name, the draw is
    issued under the texture bound before, returning true. *)
Theorem texture_resolution (model : Model) (g sg : N) (matrix : mat4)
    (object : option GameObject) (queueTransparent : bool)
    (geom : Geometry) (sub : SubGeometry) (mat : Material)
    (t0 : Texture) (ts : list Texture) (r : Renderer) :
  at_index (geometries model) g = Some geom ->
  at_index (subgeom geom) sg = Some sub ->
  at_index (materials geom) (material sub) = Some mat ->
  textures mat = t0 :: ts ->
  match gd_textures (gameData engine) !! name t0 with
  | Some tex =>
      if transparent tex && queueTransparent then
        exists r',
          renderSubgeometry engine model g sg matrix object queueTransparent r = Ok false r'
          /\ gl_Texture2D (gl r') = gl_Texture2D (gl r)
          /\ submitted r' = submitted r
          /\ rendered r' = rendered r
      else
        exists r',
          renderSubgeometry engine model g sg matrix object queueTransparent r = Ok true r'
          /\ gl_Texture2D (gl r') = texName tex
          /\ submitted r' = submitted r ++
               [DrawElements (gl r') (dbuff_FaceType geom) (numIndices sub) (4 * start sub)]
  | None =>
      exists r',
        renderSubgeometry engine model g sg matrix object queueTransparent r = Ok true r'
        /\ gl_Texture2D (gl r') = gl_Texture2D (gl r)
        /\ submitted r' = submitted r ++
             [DrawElements (gl r') (dbuff_FaceType geom) (numIndices sub) (4 * start sub)]
  end.
Proof.
  intros Hg Hsg Hmat Htex.
  destruct (renderSubgeometry_spec model g sg matrix object queueTransparent geom sub r Hg Hsg)
    as (r' & Hrun & Hpost).
  unfold transparent_material, resolved_texture, subgeometry_material in Hrun, Hpost.
  rewrite Hg, Hsg, Hmat, Htex in Hrun, Hpost.
  destruct (gd_textures (gameData engine) !! name t0) as [tex|].
  - rewrite (andb_comm queueTransparent) in Hrun, Hpost.
    destruct (transparent tex && queueTransparent); cbn [negb] in Hrun.
    + destruct Hpost as (Hsub & Hren & _ & _ & _ & _ & _ & _ & Ht & _).
      exists r'. auto.
    + destruct Hpost as ((Hsub & _) & Ht & _). exists r'. auto.
  - rewrite andb_false_r in Hrun, Hpost. cbn [negb] in Hrun.
    destruct Hpost as ((Hsub & _) & Ht & _). exists r'. auto.
Qed.

(** ** [renderGeometry] and the transparency queue *)

(** The subgeometry loop of [renderGeometry] over the indices [sgs]. *)
Lemma renderGeometry_loop (model : Model) (g : N) (modelMatrix : mat4)
    (object : option GameObject) (geom : Geometry) (sgs : list N) :
  at_index (geometries model) g = Some geom ->
  (forall sg, In sg sgs -> exists sub, at_index (subgeom geom) sg = Some sub) ->
  forall r, exists r',
    for_each (fun sg =>
        bind (renderSubgeometry engine model g sg modelMatrix object default_queueTransparent)
          (fun ok => if negb ok
                     then queue_push_back (queued model g modelMatrix object sg)
                     else ret tt)) sgs r = Ok tt r'
    /\ transparentDrawQueue r' = transparentDrawQueue r ++
         map (queued model g modelMatrix object)
             (List.filter (transparent_material engine model g) sgs)
    /\ (exists draws,
          submitted r' = submitted r ++ draws
          /\ length draws =
               length (List.filter (fun sg => negb (transparent_material engine model g sg)) sgs))
    /\ culled r' = culled r /\ cout r' = cout r /\ renderAlpha r' = renderAlpha r.
Proof.
  intros Hg. induction sgs as [|sg sgs IH]; intros Hin r.
  - exists r. cbn. rewrite app_nil_r. repeat split; auto. exists []. now rewrite app_nil_r.
  - destruct (Hin sg (or_introl eq_refl)) as [sub Hsg].
    rewrite for_each_cons. unfold bind at 1. unfold bind at 1.
    destruct (renderSubgeometry_spec model g sg modelMatrix object
                default_queueTransparent geom sub r Hg Hsg) as (r1 & -> & Hpost).
    cbn [default_queueTransparent andb] in *. cbn [List.filter].
    destruct (transparent_material engine model g sg); cbn [negb].
    + destruct Hpost as (Hs & Hr & Hc & Hq & Hco & Ha & _).
      destruct (queue_push_back (queued model g modelMatrix object sg) r1)
        as [[] r2|] eqn:E; [|discriminate E].
      unfold queue_push_back, modify in E. injection E as <-.
      match goal with |- context [for_each _ sgs ?r0] =>
        destruct (IH (fun x Hx => Hin x (or_intror Hx)) r0)
          as (r' & -> & Hq' & (draws & Hs' & Hl) & Hc' & Hco' & Ha') end.
      cbn in *. exists r'. split; [reflexivity|].
      rewrite Hq', Hq, <- app_assoc. split; [reflexivity|].
      split; [exists draws; split; congruence|]. repeat split; congruence.
    + destruct Hpost as ((Hs & Hr & Hc & Hq & Hco & Ha & _) & _).
      unfold ret at 1.
      destruct (IH (fun x Hx => Hin x (or_intror Hx)) r1)
        as (r' & -> & Hq' & (draws & Hs' & Hl) & Hc' & Hco' & Ha').
      exists r'. split; [reflexivity|].
      split; [congruence|].
      split; [|repeat split; congruence].
      eexists (_ :: draws). rewrite Hs', Hs, <- app_assoc. cbn. split; [reflexivity|]. lia.
Qed.

(** [renderGeometry] on an existing chunk returns, queues exactly its
    transparent subgeometries, by increasing index, each with the matrix
    and object it was called with, and submits the others. *)
Lemma renderGeometry_spec (model : Model) (g : N) (modelMatrix : mat4)
    (object : option GameObject) (geom : Geometry) (r : Renderer) :
  at_index (geometries model) g = Some geom ->
  exists r',
    renderGeometry engine model g modelMatrix object r = Ok tt r'
    /\ transparentDrawQueue r' = transparentDrawQueue r ++
         map (queued model g modelMatrix object)
             (List.filter (transparent_material engine model g) (indices (subgeom geom)))
    /\ (exists draws,
          submitted r' = submitted r ++ draws
          /\ length draws =
               length (List.filter (fun sg => negb (transparent_material engine model g sg))
                         (indices (subgeom geom))))
    /\ culled r' = culled r /\ cout r' = cout r /\ renderAlpha r' = renderAlpha r.
Proof.
  intros Hg. unfold renderGeometry. run. rewrite Hg. run.
  match goal with |- context [for_each ?b ?l ?r0] =>
    destruct (renderGeometry_loop model g modelMatrix object geom l Hg
                (at_index_indices (subgeom geom)) r0) as (r' & Hrun & Hpost) end.
  exists r'. split; [exact Hrun | exact Hpost].
Qed.

End Subgeometry.

(** ** Replay of the transparency queue *)

Section Replay.
Context {G : Glm} {D : Declarations}.
Variable engine : GameWorld.

Lemma replayTransparent_spec (e : RQueueEntry) (r : Renderer) :
  entry_valid e ->
  exists r' d,
    replayTransparent engine e r = Ok tt r'
    /\ submitted r' = submitted r ++ [d]
    /\ replays e d
    /\ transparentDrawQueue r' = transparentDrawQueue r
    /\ culled r' = culled r /\ cout r' = cout r.
Proof.
  intros (geom & sub & Hg & Hsg). unfold replayTransparent. run.
  match goal with |- context [renderSubgeometry engine _ _ _ _ _ false ?r0] =>
    destruct (renderSubgeometry_spec engine (q_model e) (q_g e) (q_sg e) (q_matrix e)
                (q_object e) false geom sub r0 Hg Hsg) as (r' & -> & Hpost) end.
  cbn [andb negb] in *.
  destruct Hpost as ((Hs & Hr & Hc & Hq & Hco & Ha & Hm) & _ & Hcol & _).
  cbn in *. exists r'. eexists. split; [reflexivity|]. split; [exact Hs|].
  split; [|auto]. exists (gl r'), geom, sub. repeat split; auto.
  rewrite Hcol. unfold replay_tint, subgeometry_material. rewrite Hg, Hsg.
  destruct (at_index (materials geom) (material sub)); reflexivity.
Qed.

Lemma replay_loop (queue : list RQueueEntry) :
  Forall entry_valid queue ->
  forall r, exists r' draws,
    for_each (replayTransparent engine) queue r = Ok tt r'
    /\ submitted r' = submitted r ++ draws
    /\ Forall2 replays queue draws
    /\ transparentDrawQueue r' = transparentDrawQueue r
    /\ culled r' = culled r /\ cout r' = cout r.
Proof.
  induction 1 as [|e queue He _ IH]; intros r.
  - exists r, []. rewrite app_nil_r. repeat split; auto.
  - rewrite for_each_cons. unfold bind.
    destruct (replayTransparent_spec e r He) as (r1 & d & -> & Hs & Hd & Hq & Hc & Hco).
    destruct (IH r1) as (r' & draws & -> & Hs' & Hds & Hq' & Hc' & Hco').
    exists r', (d :: draws). split; [reflexivity|].
    rewrite Hs', Hs, <- app_assoc. repeat split; auto; congruence.
Qed.

Lemma flushTransparentQueue_spec (r : Renderer) :
  Forall entry_valid (transparentDrawQueue r) ->
  exists r' draws,
    flushTransparentQueue engine r = Ok tt r'
    /\ transparentDrawQueue r' = []
    /\ submitted r' = submitted r ++ draws
    /\ Forall2 replays (transparentDrawQueue r) draws
    /\ culled r' = culled r /\ cout r' = cout r.
Proof.
  intros Hq. unfold flushTransparentQueue. unfold bind at 1, gets. unfold bind at 1.
  destruct (replay_loop _ Hq r) as (r1 & draws & -> & Hs & Hds & _ & Hc & Hco).
  unfold queue_clear, modify. eexists. exists draws. split; [reflexivity|]. cbn. auto.
Qed.

(** Whenever the flush returns, the queue is empty. *)
Lemma flush_leaves_queue_empty (r r' : Renderer) :
  flushTransparentQueue engine r = Ok tt r' -> transparentDrawQueue r' = [].
Proof.
  unfold flushTransparentQueue. unfold bind at 1, gets. unfold bind at 1.
  destruct (for_each _ _ r) as [[] r1|]; [|discriminate].
  unfold queue_clear, modify. intros E. injection E as <-. reflexivity.
Qed.

Lemma queued_valid (model : Model) (g : N) (modelMatrix : mat4)
    (object : option GameObject) (geom : Geometry) (sgs : list N) :
  at_index (geometries model) g = Some geom ->
  (forall sg, In sg sgs -> exists sub, at_index (subgeom geom) sg = Some sub) ->
  Forall entry_valid (map (queued model g modelMatrix object) sgs).
Proof.
  intros Hg Hsgs. apply Forall_forall. intros e He.
  apply list_elem_of_In, in_map_iff in He as (sg & <- & Hsg).
  destruct (Hsgs sg Hsg) as [sub Hsub]. exists geom, sub. split; assumption.
Qed.

(** C4, as the code has it.  Part one, the opaque pass: [renderGeometry]
    on a chunk appends to the queue one entry for each of its
    subgeometries whose texture is transparent, in index order, carrying
    the world matrix and object of the call, and nothing else; each of
    these entries names an existing subgeometry.  Part two,
    the flush: every entry of the queue is drawn once, in queue order,
    under its own world matrix; the tint is reset to white before each
    entry and the colour selection of [renderSubgeometry] runs again, so
    the entry is drawn under [replay_tint]; the queue is empty afterwards
    (also when it was empty before). *)
Theorem transparency_queue_replayed (model : Model) (g : N) (modelMatrix : mat4)
    (object : option GameObject) (geom : Geometry) (r0 r : Renderer) :
  at_index (geometries model) g = Some geom ->
  Forall entry_valid (transparentDrawQueue r) ->
  (exists r0',
     renderGeometry engine model g modelMatrix object r0 = Ok tt r0'
     /\ transparentDrawQueue r0' = transparentDrawQueue r0 ++
          map (queued model g modelMatrix object)
              (List.filter (transparent_material engine model g) (indices (subgeom geom)))
     /\ Forall entry_valid
          (map (queued model g modelMatrix object)
               (List.filter (transparent_material engine model g)
                  (indices (subgeom geom)))))
  /\ (exists r' draws,
        flushTransparentQueue engine r = Ok tt r'
        /\ transparentDrawQueue r' = []
        /\ submitted r' = submitted r ++ draws
        /\ Forall2 replays (transparentDrawQueue r) draws).
Proof.
  intros Hg Hq. split.
  - destruct (renderGeometry_spec engine model g modelMatrix object geom r0 Hg)
      as (r0' & Hrun & Hqueue & _).
    exists r0'. split; [exact Hrun|]. split; [exact Hqueue|].
    apply (queued_valid model g modelMatrix object geom _ Hg).
    intros sg Hsg. apply filter_In in Hsg as [Hsg _].
    apply at_index_indices, Hsg.
  - destruct (flushTransparentQueue_spec r Hq) as (r' & draws & Hrun & He & Hs & Hd & _).
    exists r', draws. auto.
Qed.

End Replay.

(** ** [renderFrame] *)

Lemma ModelFrame_subtree_ind {G : Glm} (P : ModelFrame -> Prop) :
  (forall n t gs cs, Forall P cs -> P (mkFrame n t gs cs)) ->
  forall f, P f.
Proof.
  intros step. fix IH 1. intros [n t gs cs]. apply step.
  induction cs as [|c cs IHcs]; constructor; [apply IH | exact IHcs].
Qed.

Section Traversal.
Context {G : Glm} {D : Declarations}.
Variable engine : GameWorld.
Variable camera : ViewCamera.

Lemma renderFrame_unfold (m : Model) (f : ModelFrame) (matrix : mat4)
    (object : option GameObject) (queueTransparent : bool) (r : Renderer) :
  renderFrame engine camera m f matrix object queueTransparent r =
  bind (for_each
          (renderFrame_geometry engine camera m matrix
             (frame_localmatrix f matrix object (renderAlpha r)) object (frame_vis f object))
          (getGeometries f))
       (fun _ =>
          bind (renderFrame_children engine camera m f
                  (frame_localmatrix f matrix object (renderAlpha r)) object queueTransparent)
               (fun _ => ret true)) r.
Proof. destruct f. reflexivity. Qed.

Lemma culled_chunk_skipped (m : Model) (matrix localmatrix : mat4)
    (object : option GameObject) (vis : bool) (g : N) (r : Renderer) :
  chunk_culled camera m matrix g = true ->
  renderFrame_geometry engine camera m matrix localmatrix object vis g r = Ok tt r.
Proof.
  unfold chunk_culled, renderFrame_geometry. intros Hc.
  destruct vis; [|reflexivity]. cbn [negb]. unfold bind, deref.
  destruct (at_index (geometries m) g) as [geom|]; [|discriminate Hc].
  unfold ret at 1. rewrite Hc. reflexivity.
Qed.

Lemma hidden_chunk_skipped (m : Model) (matrix localmatrix : mat4)
    (object : option GameObject) (g : N) (r : Renderer) :
  renderFrame_geometry engine camera m matrix localmatrix object false g r = Ok tt r.
Proof. reflexivity. Qed.

(** What the frustum test of [renderFrame] decides.  A chunk of a frame
    whose bounding sphere, centred at the bounds centre translated by
    the translation of the matrix the frame is entered with (not of
    [localmatrix]), is strictly beyond one of the six frustum planes
    (signed distance below minus the radius) leaves the renderer as it
    was: nothing is submitted and nothing is queued; the geometry loop of
    the frame runs as if the frame did not own the chunk. *)
Theorem culled_chunk_produces_no_draw (m : Model) (matrix localmatrix : mat4)
    (object : option GameObject) (vis : bool) (g : N) (geom : Geometry)
    (p : Plane) (r : Renderer) :
  at_index (geometries m) g = Some geom ->
  In p (planes (frustum camera)) ->
  signed_distance p (vec3_add (center (geometryBounds geom)) (column3 matrix))
    < - radius (geometryBounds geom) ->
  renderFrame_geometry engine camera m matrix localmatrix object vis g r = Ok tt r
  /\ forall gs,
       for_each (renderFrame_geometry engine camera m matrix localmatrix object vis) gs r =
       for_each (renderFrame_geometry engine camera m matrix localmatrix object vis)
         (List.filter (fun g' => negb (g' =? g)%N) gs) r.
Proof.
  intros Hg Hp Hlt.
  assert (Hc : chunk_culled camera m matrix g = true).
  { unfold chunk_culled. rewrite Hg. apply negb_true_iff, intersects_false_iff. eauto. }
  split; [apply culled_chunk_skipped, Hc|].
  intros gs. apply for_each_skip. intros g' _ Hg' r'.
  apply negb_false_iff, N.eqb_eq in Hg'. subst g'. apply culled_chunk_skipped, Hc.
Qed.

Lemma renderFrame_geometry_total (m : Model) (matrix localmatrix : mat4)
    (object : option GameObject) (vis : bool) (g : N) (r : Renderer) :
  is_Some (at_index (geometries m) g) ->
  exists r', renderFrame_geometry engine camera m matrix localmatrix object vis g r = Ok tt r'.
Proof.
  intros [geom Hg]. unfold renderFrame_geometry.
  destruct vis; [|eexists; reflexivity]. cbn [negb]. unfold bind at 1. rewrite Hg.
  unfold deref, ret at 1.
  destruct (negb (intersects _ _ _)); [eexists; reflexivity|].
  unfold bind.
  match goal with |- context [match ?c r with _ => _ end] =>
    assert (Hpre : exists r1, c r = Ok tt r1)
      by (destruct (negb (has_flags _ _)); eexists; reflexivity) end.
  destruct Hpre as [r1 ->].
  destruct (renderGeometry_spec engine m g localmatrix object geom r1 Hg) as (r' & -> & _).
  eauto.
Qed.

Lemma renderFrame_total (m : Model) (f : ModelFrame) :
  frame_valid m f = true ->
  forall matrix object queueTransparent r,
    exists r', renderFrame engine camera m f matrix object queueTransparent r = Ok true r'.
Proof.
  induction f as [n t gs cs IH] using ModelFrame_subtree_ind.
  cbn [frame_valid getGeometries getChildren]. intros Hv matrix object qt r.
  apply andb_true_iff in Hv as [Hgs Hcs].
  rewrite forallb_forall in Hgs, Hcs.
  rewrite renderFrame_unfold. cbn [getGeometries]. unfold bind at 1.
  destruct (for_each_total
              (renderFrame_geometry engine camera m matrix
                 (frame_localmatrix (mkFrame n t gs cs) matrix object (renderAlpha r)) object
                 (frame_vis (mkFrame n t gs cs) object)) gs) with (r := r) as [r1 ->].
  { intros g Hg r0. apply renderFrame_geometry_total.
    eapply bool_decide_eq_true_1, Hgs, Hg. }
  unfold bind, renderFrame_children. cbn [getChildren].
  match goal with |- context [for_each ?body cs r1] =>
    destruct (for_each_total body cs) with (r := r1) as [r2 ->] end.
  { intros c Hc r0. rewrite Forall_forall in IH.
    destruct (IH c) with (matrix := frame_localmatrix (mkFrame n t gs cs) matrix object
                                      (renderAlpha r))
                         (object := object) (queueTransparent := qt) (r := r0)
      as [r' Hr'].
    - apply list_elem_of_In, Hc.
    - apply Hcs, Hc.
    - unfold bind. rewrite Hr'. eexists. reflexivity. }
  eexists. reflexivity.
Qed.

Lemma renderFrame_returns_true (m : Model) (f : ModelFrame) (matrix : mat4)
    (object : option GameObject) (queueTransparent : bool) (r r' : Renderer) (a : bool) :
  renderFrame engine camera m f matrix object queueTransparent r = Ok a r' -> a = true.
Proof.
  rewrite renderFrame_unfold. unfold bind.
  destruct (for_each _ (getGeometries f) r) as [[] r1|]; [|discriminate].
  destruct (renderFrame_children _ _ _ _ _ _ _ r1) as [[] r2|]; [|discriminate].
  unfold ret. intros E. now injection E as <- _.
Qed.

(** C9. [renderFrame] on a frame whose subtree names existing chunks
    returns, and returns true, whatever was culled or deferred on the
    way.  Whatever state the frame's own geometry loop ends in, the
    traversal continues from it with every child, in order, entered with
    the frame's local matrix; in particular, for a frame the object
    hides, and for a frame all of whose chunks are culled, the traversal
    of the frame is exactly the traversal of its children. *)
Theorem renderFrame_always_recurses (m : Model) (f : ModelFrame) (matrix : mat4)
    (object : option GameObject) (queueTransparent : bool) (r : Renderer) :
  frame_valid m f = true ->
  (exists r', renderFrame engine camera m f matrix object queueTransparent r = Ok true r')
  /\ (forall a r',
        renderFrame engine camera m f matrix object queueTransparent r = Ok a r' -> a = true)
  /\ (forall r1,
        for_each
          (renderFrame_geometry engine camera m matrix
             (frame_localmatrix f matrix object (renderAlpha r)) object (frame_vis f object))
          (getGeometries f) r = Ok tt r1 ->
        renderFrame engine camera m f matrix object queueTransparent r =
        bind (renderFrame_children engine camera m f
                (frame_localmatrix f matrix object (renderAlpha r)) object queueTransparent)
             (fun _ => ret true) r1)
  /\ (frame_vis f object = false
      \/ forallb (chunk_culled camera m matrix) (getGeometries f) = true ->
      renderFrame engine camera m f matrix object queueTransparent r =
      bind (renderFrame_children engine camera m f
              (frame_localmatrix f matrix object (renderAlpha r)) object queueTransparent)
           (fun _ => ret true) r).
Proof.
  intros Hv. split; [apply renderFrame_total, Hv|].
  split; [intros a r'; apply renderFrame_returns_true|].
  assert (Hstep : forall r1,
    for_each
      (renderFrame_geometry engine camera m matrix
         (frame_localmatrix f matrix object (renderAlpha r)) object (frame_vis f object))
      (getGeometries f) r = Ok tt r1 ->
    renderFrame engine camera m f matrix object queueTransparent r =
    bind (renderFrame_children engine camera m f
            (frame_localmatrix f matrix object (renderAlpha r)) object queueTransparent)
         (fun _ => ret true) r1).
  { intros r1 Hloop. rewrite renderFrame_unfold. unfold bind at 1. rewrite Hloop. reflexivity. }
  split; [exact Hstep|].
  intros Hskip. apply Hstep.
  rewrite (for_each_skip _ (fun _ => false)).
  - clear. induction (getGeometries f); [reflexivity | assumption].
  - intros g Hg _ r0. destruct Hskip as [Hhid | Hcull].
    + rewrite Hhid. apply hidden_chunk_skipped.
    + rewrite forallb_forall in Hcull. apply culled_chunk_skipped, Hcull, Hg.
Qed.

(** Whenever the object passes of a frame return, the queue is empty. *)
Lemma renderWorld_objects_queue_empty (alpha : Q) (r r' : Renderer) :
  renderWorld_objects engine camera alpha r = Ok tt r' -> transparentDrawQueue r' = [].
Proof.
  unfold renderWorld_objects, bind.
  destruct (begin_frame alpha r) as [[] r1|]; [|discriminate].
  destruct (for_each _ (pedestrians engine) r1) as [[] r2|]; [|discriminate].
  destruct (for_each _ (objectInstances engine) r2) as [[] r3|]; [|discriminate].
  destruct (for_each _ (vehicleInstances engine) r3) as [[] r4|]; [|discriminate].
  apply flush_leaves_queue_empty.
Qed.

End Traversal.

(** ** The instance loop: level of detail *)

Lemma size_t_sub_small (a b : N) :
  (b <= a)%N -> (a < SIZE_MAX1)%N -> size_t_sub a b = (a - b)%N.
Proof.
  intros Hb Ha. unfold size_t_sub.
  rewrite (N.mod_small b) by lia.
  replace (a + SIZE_MAX1 - b)%N with ((a - b) + 1 * SIZE_MAX1)%N by lia.
  rewrite N.Div0.mod_add. apply N.mod_small. lia.
Qed.

(** [v[v.size() - 1]] and [v[v.size() - 2]] are the last and the
    second-to-last element of a vector that has them. *)
Lemma at_index_from_back {A} (v : list A) (last before : A) (rest : list A) :
  rev v = last :: before :: rest ->
  (vec_size v < SIZE_MAX1)%N ->
  at_index v (size_t_sub (vec_size v) 1) = Some last
  /\ at_index v (size_t_sub (vec_size v) 2) = Some before.
Proof.
  intros Hrev Hsize.
  assert (Hv : v = rev rest ++ [before; last]).
  { rewrite <- (rev_involutive v), Hrev. cbn [rev]. now rewrite <- app_assoc. }
  assert (Hlen : length v = (length (rev rest) + 2)%nat).
  { rewrite Hv at 1. rewrite length_app. reflexivity. }
  unfold vec_size in *. rewrite !size_t_sub_small by lia. split.
  - replace (N.of_nat (length v) - 1)%N with (N.of_nat (S (length (rev rest)))) by lia.
    rewrite at_index_lookup, Hv.
    change (rev rest ++ [before; last]) with (rev rest ++ [before] ++ [last]).
    rewrite app_assoc. apply list_lookup_middle. rewrite length_app. cbn. lia.
  - replace (N.of_nat (length v) - 2)%N with (N.of_nat (length (rev rest))) by lia.
    rewrite at_index_lookup, Hv. now apply list_lookup_middle.
Qed.

Section LevelOfDetail.
Context {G : Glm} {D : Declarations}.
Variable engine : GameWorld.
Variable camera : ViewCamera.

Lemma fold_std_min {A} (f : A -> Q) (l : list A) (init : Q) :
  let v := fold_left (fun acc x => std_min acc (f x)) l init in
  v <= init
  /\ (forall x, In x l -> v <= f x)
  /\ (v = init \/ exists x, In x l /\ v = f x).
Proof.
  revert init. induction l as [|x l IH]; intros init; cbn [fold_left].
  - split; [apply Qle_refl|]. split; [intros x []|now left].
  - destruct (IH (std_min init (f x))) as (Hle & Hall & Hex).
    assert (Hmin : std_min init (f x) <= init /\ std_min init (f x) <= f x).
    { unfold std_min. destruct (Qltb (f x) init) eqn:E.
      - apply Qltb_lt in E. split; [apply Qlt_le_weak, E | apply Qle_refl].
      - apply Qltb_ge in E. split; [apply Qle_refl | exact E]. }
    destruct Hmin as [Hi Hx]. split; [eapply Qle_trans; eauto|]. split.
    + intros y [<- | Hy]; [eapply Qle_trans; eauto | apply Hall, Hy].
    + destruct Hex as [Hv | (y & Hy & Hv)].
      * assert (Hcase : std_min init (f x) = f x \/ std_min init (f x) = init)
          by (unfold std_min; destruct (Qltb (f x) init); auto).
        destruct Hcase as [Hc | Hc].
        -- right. exists x. split; [now left | now rewrite Hv].
        -- left. now rewrite Hv.
      * right. exists y. split; [now right | exact Hv].
Qed.

(** [mindist] is the least of [100000.f] and the chunk distances. *)
Lemma instance_mindist_spec (m : Model) (matrixModel : mat4) :
  let mindist := instance_mindist camera m matrixModel in
  mindist <= 100000
  /\ (forall geom, In geom (geometries m) -> mindist <= chunk_distance camera matrixModel geom)
  /\ (mindist = 100000
      \/ exists geom, In geom (geometries m) /\ mindist = chunk_distance camera matrixModel geom).
Proof. apply (fold_std_min (chunk_distance camera matrixModel)). Qed.

Lemma culled_incr_spec (r : Renderer) :
  exists r', culled_incr r = Ok tt r'
             /\ culled r' = size_t_add (culled r) 1
             /\ submitted r' = submitted r
             /\ transparentDrawQueue r' = transparentDrawQueue r.
Proof. eexists. split; [reflexivity|]. cbn. auto. Qed.

(** The level-of-detail test on the first frame of the model,
    whatever [rootFrameIdx] is.  An instance that reaches the test (its time
    test does not skip it, its model is loaded) and whose object data has
    [numClumps != 1], on a model whose first frame has a last and a
    second-to-last child: beyond [drawDistance[1]] it is counted in
    [culled] and nothing is drawn or queued; at or within
    [drawDistance[1]] and beyond [drawDistance[0]] the visit is the
    traversal of the second-to-last child alone; at or within
    [drawDistance[0]] it is the traversal of the last child alone.  Both
    traversals start from [matrixModel * inverse(f->getTransform())],
    without an object. *)
Theorem multi_clump_lod_selection (inst : InstanceObject) (m : Model)
    (RF : ModelFrame) (frs : list ModelFrame)
    (near far : ModelFrame) (rest : list ModelFrame) (r : Renderer) :
  instance_time_skipped engine inst = false ->
  model (inst_model inst) = Some m ->
  numClumps (object inst) <> 1%N ->
  frames m = RF :: frs ->
  rev (getChildren RF) = near :: far :: rest ->
  (vec_size (getChildren RF) < SIZE_MAX1)%N ->
  let matrixModel := instance_matrixModel inst in
  let mindist := instance_mindist camera m matrixModel in
  (drawDistance (object inst) 1%N < mindist ->
   exists r', renderInstance engine camera inst r = Ok tt r'
              /\ culled r' = size_t_add (culled r) 1
              /\ submitted r' = submitted r
              /\ transparentDrawQueue r' = transparentDrawQueue r)
  /\ (mindist <= drawDistance (object inst) 1%N ->
      drawDistance (object inst) 0%N < mindist ->
      renderInstance engine camera inst r =
      bind (renderFrame engine camera m far
              (mat4_mul matrixModel (inverse (getTransform far))) None
              default_queueTransparent)
           (fun _ => ret tt) r)
  /\ (mindist <= drawDistance (object inst) 1%N ->
      mindist <= drawDistance (object inst) 0%N ->
      renderInstance engine camera inst r =
      bind (renderFrame engine camera m near
              (mat4_mul matrixModel (inverse (getTransform near))) None
              default_queueTransparent)
           (fun _ => ret tt) r).
Proof.
  intros Htime Hm Hclumps Hframes Hrev Hsize matrixModel mindist.
  destruct (at_index_from_back _ _ _ _ Hrev Hsize) as [Hnear Hfar].
  apply N.eqb_neq in Hclumps.
  unfold renderInstance. rewrite Htime, Hm, Hclumps.
  fold matrixModel. fold mindist.
  split; [|split].
  - intros H1. apply Qltb_lt in H1. rewrite H1. apply culled_incr_spec.
  - intros H1 H0. apply Qltb_ge in H1. apply Qltb_lt in H0. rewrite H1, H0.
    unfold renderLODChild. unfold bind at 1. rewrite Hframes. cbn [at_index N.eqb deref].
    unfold ret at 1. unfold bind at 1. rewrite Hfar. reflexivity.
  - intros H1 H0. apply Qltb_ge in H1, H0. rewrite H1, H0.
    unfold renderLODChild. unfold bind at 1. rewrite Hframes. cbn [at_index N.eqb deref].
    unfold ret at 1. unfold bind at 1. rewrite Hnear. reflexivity.
Qed.

(** C3, as the code has it.  An instance that reaches the
    level-of-detail test and whose object data has [numClumps == 1].
    Beyond [drawDistance[0]]: with a linked instance whose own
    [drawDistance[0]] is exceeded as well, it is counted in [culled]
    and nothing is drawn; with a linked instance within its threshold
    whose model is loaded, the visit is [renderModel] of the linked
    model under the instance's own matrix; with no linked instance
    nothing is drawn or queued.  At or within [drawDistance[0]]: the
    visit is [renderModel] of the instance's own model unless its
    object data is flagged [LOD], in which case the renderer is left as
    it was. *)
Theorem single_clump_lod_selection (inst : InstanceObject) (m : Model) (r : Renderer) :
  instance_time_skipped engine inst = false ->
  model (inst_model inst) = Some m ->
  numClumps (object inst) = 1%N ->
  let matrixModel := instance_matrixModel inst in
  let mindist := instance_mindist camera m matrixModel in
  (forall lod,
     drawDistance (object inst) 0%N < mindist ->
     LODinstance inst = Some lod ->
     drawDistance (object lod) 0%N < mindist ->
     exists r', renderInstance engine camera inst r = Ok tt r'
                /\ culled r' = size_t_add (culled r) 1
                /\ submitted r' = submitted r
                /\ transparentDrawQueue r' = transparentDrawQueue r)
  /\ (forall lod lod_model,
        drawDistance (object inst) 0%N < mindist ->
        LODinstance inst = Some lod ->
        mindist <= drawDistance (object lod) 0%N ->
        model (inst_model lod) = Some lod_model ->
        renderInstance engine camera inst r =
        renderModel engine camera (Some lod_model) matrixModel None r)
  /\ (drawDistance (object inst) 0%N < mindist ->
      LODinstance inst = None ->
      exists r', renderInstance engine camera inst r = Ok tt r'
                 /\ submitted r' = submitted r
                 /\ transparentDrawQueue r' = transparentDrawQueue r)
  /\ (mindist <= drawDistance (object inst) 0%N ->
      LOD (object inst) = false ->
      renderInstance engine camera inst r =
      renderModel engine camera (Some m) matrixModel None r)
  /\ (mindist <= drawDistance (object inst) 0%N ->
      LOD (object inst) = true ->
      renderInstance engine camera inst r = Ok tt r).
Proof.
  intros Htime Hm Hclumps matrixModel mindist.
  apply N.eqb_eq in Hclumps.
  unfold renderInstance. rewrite Htime, Hm, Hclumps.
  fold matrixModel. fold mindist.
  repeat split.
  - intros lod H0 Hlod H1. apply Qltb_lt in H0, H1. rewrite H0, Hlod, H1.
    apply culled_incr_spec.
  - intros lod lod_model H0 Hlod H1 Hlm. apply Qltb_lt in H0. apply Qltb_ge in H1.
    rewrite H0, Hlod, H1, Hlm. reflexivity.
  - intros H0 Hlod. apply Qltb_lt in H0. rewrite H0, Hlod. exists r. auto.
  - intros H0 Hflag. apply Qltb_ge in H0. rewrite H0, Hflag. reflexivity.
  - intros H0 Hflag. apply Qltb_ge in H0. rewrite H0, Hflag. reflexivity.
Qed.

(** The time test skips exactly the hours strictly between [timeOff]
    and [timeOn]; an object with [timeOn <= timeOff] is never skipped. *)
Lemma instance_time_skipped_iff (inst : InstanceObject) :
  instance_time_skipped engine inst = true <->
  (timeOff (object inst) < getHour engine < timeOn (object inst))%Z.
Proof.
  unfold instance_time_skipped.
  destruct (Z.eqb_spec (timeOn (object inst)) (timeOff (object inst))) as [E | E]; cbn [negb].
  - split; [discriminate | lia].
  - rewrite andb_true_iff, Z.ltb_lt, Z.gtb_lt. lia.
Qed.

End LevelOfDetail.

(** ** The object loops: models that are not loaded *)

Section Unloaded.
Context {G : Glm} {D : Declarations}.
Variable engine : GameWorld.
Variable camera : ViewCamera.





End Unloaded.

(** ** The water grids *)

Section Water.
Context {G : Glm} {D : Declarations}.
Variable engine : GameWorld.
Variable camera : ViewCamera.

Lemma emits_not_idle (c : Render unit) (r : Renderer) :
  c r = Ok tt r -> ~ emits c r.
Proof.
  intros Hrun (r' & d & Hrun' & Hs). rewrite Hrun in Hrun'. injection Hrun' as <-.
  apply (f_equal (@length _)) in Hs. rewrite length_app in Hs. cbn in Hs. lia.
Qed.

Lemma drawWaterTile_emits (table : Z -> Z) (dataSize : Z) (blockSize : Q)
    (x y : Z) (r : Renderer) :
  emits (drawWaterTile engine camera table dataSize blockSize x y) r <->
  (table (x * dataSize + y) < NO_WATER_INDEX)%Z.
Proof.
  unfold drawWaterTile.
  destruct (Z.geb_spec (table (x * dataSize + y)%Z) NO_WATER_INDEX) as [Hge | Hlt].
  - split; [|lia]. intros He. exfalso. revert He. now apply emits_not_idle.
  - split; [intros _; lia|]. intros _. eexists. eexists. split; reflexivity.
Qed.

Lemma renderWaterHQ_tile_emits (x y : Z) (r : Renderer) :
  emits (renderWaterHQ_tile engine camera x y) r <->
  distance2 (camposFlat camera) (tile_cullWS blockHQSize x y) - blockHQSize
    < WATER_HQ_DISTANCE
  /\ (realWater (gameData engine) (x * WATER_HQ_DATA_SIZE + y) < NO_WATER_INDEX)%Z.
Proof.
  unfold renderWaterHQ_tile.
  destruct (Qle_bool _ _) eqn:E.
  - apply Qle_bool_iff in E. split.
    + intros He. exfalso. revert He. now apply emits_not_idle.
    + intros [Hlt _]. exfalso. apply (Qlt_not_le _ _ Hlt E).
  - rewrite drawWaterTile_emits. split; [|tauto]. intros Ht. split; [|exact Ht].
    apply Qnot_le_lt. intros Hle. apply Qle_bool_iff in Hle. congruence.
Qed.

Lemma renderWaterLQ_tile_emits (x y : Z) (r : Renderer) :
  emits (renderWaterLQ_tile engine camera x y) r <->
  WATER_HQ_DISTANCE
    <= distance2 (camposFlat camera) (tile_cullWS blockLQSize x y) - blockHQSize / 4
  /\ distance2 (camposFlat camera) (tile_cullWS blockLQSize x y) - blockLQSize / 2
       <= far (frustum camera)
  /\ (visibleWater (gameData engine) (x * WATER_LQ_DATA_SIZE + y) < NO_WATER_INDEX)%Z.
Proof.
  unfold renderWaterLQ_tile.
  destruct (Qltb _ WATER_HQ_DISTANCE) eqn:E1.
  - apply Qltb_lt in E1. split.
    + intros He. exfalso. revert He. now apply emits_not_idle.
    + intros [Hle _]. exfalso. apply (Qlt_not_le _ _ E1 Hle).
  - apply Qltb_ge in E1. destruct (Qltb (far (frustum camera)) _) eqn:E2.
    + apply Qltb_lt in E2. split.
      * intros He. exfalso. revert He. now apply emits_not_idle.
      * intros (_ & Hle & _). exfalso. apply (Qlt_not_le _ _ E2 Hle).
    + apply Qltb_ge in E2. rewrite drawWaterTile_emits. tauto.
Qed.

(** C7, as the code has it.  A tile of the high-detail grid is drawn
    iff the planar distance from the camera to its centre, less the
    whole high-detail tile size, is below [WATER_HQ_DISTANCE] and its
    entry of the height table is below [NO_WATER_INDEX].  A tile of the
    low-detail grid is drawn iff the distance to its centre, less a
    quarter of the high-detail tile size, is at least
    [WATER_HQ_DISTANCE], the distance less half the low-detail tile size
    is at most the far clip, and its entry is below [NO_WATER_INDEX]. *)
Theorem water_tile_rules (x y : Z) (r : Renderer) :
  (emits (renderWaterHQ_tile engine camera x y) r <->
   distance2 (camposFlat camera) (tile_cullWS blockHQSize x y) - blockHQSize
     < WATER_HQ_DISTANCE
   /\ (realWater (gameData engine) (x * WATER_HQ_DATA_SIZE + y) < NO_WATER_INDEX)%Z)
  /\ (emits (renderWaterLQ_tile engine camera x y) r <->
      WATER_HQ_DISTANCE
        <= distance2 (camposFlat camera) (tile_cullWS blockLQSize x y) - blockHQSize / 4
      /\ distance2 (camposFlat camera) (tile_cullWS blockLQSize x y) - blockLQSize / 2
           <= far (frustum camera)
      /\ (visibleWater (gameData engine) (x * WATER_LQ_DATA_SIZE + y) < NO_WATER_INDEX)%Z).
Proof.
  split; [apply renderWaterHQ_tile_emits | apply renderWaterLQ_tile_emits].
Qed.

End Water.

(** * Further properties of the renderer *)

(** ** What a traversal changes *)

Section StepFacts.
Context {G : Glm} {D : Declarations}.

(** A step that leaves the GPU stream, [rendered] and [_renderAlpha] alone. *)
Lemma draw_step_same (r r' : Renderer) :
  renderAlpha r' = renderAlpha r -> submitted r' = submitted r ->
  rendered r' = rendered r -> draw_step r r'.
Proof.
  intros Ha Hs Hr. split; [exact Ha|].
  exists []. rewrite app_nil_r. split; [exact Hs|]. split; [constructor|].
  intros Hlt. cbn. rewrite N.add_0_r, Hr. symmetry. now apply N.mod_small.
Qed.

Lemma draw_step_refl (r : Renderer) : draw_step r r.
Proof. now apply draw_step_same. Qed.

Lemma draw_step_trans (r1 r2 r3 : Renderer) :
  draw_step r1 r2 -> draw_step r2 r3 -> draw_step r1 r3.
Proof.
  intros (Ha & d1 & Hs1 & Hd1 & Hr1) (Ha' & d2 & Hs2 & Hd2 & Hr2).
  split; [congruence|].
  exists (d1 ++ d2). split; [rewrite Hs2, Hs1; now rewrite app_assoc|].
  split; [now apply Forall_app|].
  intros Hlt. specialize (Hr1 Hlt).
  assert (Hlt2 : (rendered r2 < SIZE_MAX1)%N).
  { rewrite Hr1. apply N.mod_lt. discriminate. }
  rewrite (Hr2 Hlt2), Hr1, length_app, Nat2N.inj_add.
  rewrite N.Div0.add_mod_idemp_l. f_equal. lia.
Qed.

(** A step that leaves the GPU stream, [rendered], [_renderAlpha] and
    the queue alone. *)
Lemma pass_step_same (r r' : Renderer) :
  renderAlpha r' = renderAlpha r -> submitted r' = submitted r ->
  rendered r' = rendered r -> transparentDrawQueue r' = transparentDrawQueue r ->
  pass_step r r'.
Proof.
  intros Ha Hs Hr Hq. split; [now apply draw_step_same|].
  exists []. rewrite app_nil_r. split; [exact Hq | constructor].
Qed.

Lemma pass_step_refl (r : Renderer) : pass_step r r.
Proof. now apply pass_step_same. Qed.

Lemma pass_step_trans (r1 r2 r3 : Renderer) :
  pass_step r1 r2 -> pass_step r2 r3 -> pass_step r1 r3.
Proof.
  intros (Hd & e1 & Hq1 & He1) (Hd' & e2 & Hq2 & He2).
  split; [eapply draw_step_trans; eauto|].
  exists (e1 ++ e2). split; [rewrite Hq2, Hq1; now rewrite app_assoc|].
  now apply Forall_app.
Qed.

Lemma traversal_step_refl (r : Renderer) : traversal_step r r.
Proof. split; [apply pass_step_refl | auto]. Qed.

Lemma traversal_step_trans (r1 r2 r3 : Renderer) :
  traversal_step r1 r2 -> traversal_step r2 r3 -> traversal_step r1 r3.
Proof.
  intros (Hp & Hc & Ho) (Hp' & Hc' & Ho').
  split; [eapply pass_step_trans; eauto|]. split; congruence.
Qed.

Lemma traversal_pass_step (r r' : Renderer) : traversal_step r r' -> pass_step r r'.
Proof. now intros [H _]. Qed.

(** A run that returned [a] is [Ok a] on its final state. *)
Lemma returned_final {A} (o : Outcome A) (a : A) (default : Renderer) :
  returned o = Some a -> o = Ok a (final_state o default).
Proof. destruct o; cbn; congruence. Qed.

Section Establishes.
Variable T : Renderer -> Renderer -> Prop.
Hypothesis T_refl : forall r, T r r.
Hypothesis T_trans : forall r1 r2 r3, T r1 r2 -> T r2 r3 -> T r1 r3.

Lemma establishes_ret {A} (a : A) : establishes T (ret a).
Proof. intros r a' r' E. injection E as _ <-. apply T_refl. Qed.

Lemma establishes_bind {A B} (c : Render A) (k : A -> Render B) :
  establishes T c -> (forall a, establishes T (k a)) -> establishes T (bind c k).
Proof.
  intros Hc Hk r b r' E. unfold bind in E.
  destruct (c r) as [a r1|] eqn:E1; [|discriminate E].
  eapply T_trans; [eapply Hc, E1 | eapply Hk, E].
Qed.

Lemma establishes_deref {A} (why : string) (p : option A) : establishes T (deref why p).
Proof. destruct p; [apply establishes_ret | intros r a r' E; discriminate E]. Qed.

Lemma establishes_deref_some {A B} (why : string) (a : A) (k : A -> Render B) :
  establishes T (k a) -> establishes T (bind (deref why (Some a)) k).
Proof. intros H r b r' E. exact (H r b r' E). Qed.

Lemma establishes_gets {A} (f : Renderer -> A) : establishes T (gets f).
Proof. intros r a r' E. injection E as _ <-. apply T_refl. Qed.

Lemma establishes_for_each {A} (body : A -> Render unit) (l : list A) :
  (forall x, In x l -> establishes T (body x)) -> establishes T (for_each body l).
Proof.
  induction l as [|x l IH]; intros Hbody.
  - apply establishes_ret.
  - intros r a r' E. rewrite for_each_cons in E. revert r a r' E.
    apply establishes_bind; [apply Hbody; now left|].
    intros _. apply IH. intros y Hy. apply Hbody. now right.
Qed.

End Establishes.

End StepFacts.

Section TraversalSteps.
Context {G : Glm} {D : Declarations}.
Variable engine : GameWorld.
Variable camera : ViewCamera.

Local Open Scope render_scope.

Lemma set_gl_step (f : GLState -> GLState) : establishes traversal_step (set_gl f).
Proof.
  intros r a r' E. unfold set_gl, modify in E. injection E as _ <-.
  split; [now apply pass_step_same | cbn; auto].
Qed.

Lemma drew_step (geom : Geometry) (sub : SubGeometry) (r r' : Renderer) :
  drew geom sub r r' -> traversal_step r r'.
Proof.
  intros (Hs & Hr & Hc & Hq & Ho & Ha & _).
  split; [|auto]. split.
  - split; [exact Ha|]. eexists. split; [exact Hs|]. split; [repeat constructor|].
    intros _. rewrite Hr. reflexivity.
  - exists []. rewrite app_nil_r. split; [exact Hq | constructor].
Qed.

Lemma rejected_step (r r' : Renderer) : rejected r r' -> traversal_step r r'.
Proof.
  intros (Hs & Hr & Hc & Hq & Ho & Ha & _).
  split; [now apply pass_step_same | auto].
Qed.

(** A run of [renderSubgeometry] that returns was given an existing
    subgeometry. *)
Lemma renderSubgeometry_defined (model : Model) (g sg : N) (matrix : mat4)
    (object : option GameObject) (queueTransparent : bool) (r r' : Renderer) (a : bool) :
  renderSubgeometry engine model g sg matrix object queueTransparent r = Ok a r' ->
  exists geom sub, at_index (geometries model) g = Some geom
                   /\ at_index (subgeom geom) sg = Some sub.
Proof.
  unfold renderSubgeometry. unfold bind at 1.
  destruct (at_index (geometries model) g) as [geom|]; [|discriminate].
  cbn [deref]. unfold ret at 1. unfold bind at 1, glBindVertexArray at 1, set_gl at 1, modify at 1.
  unfold bind at 1, glBindBuffer_ELEMENT_ARRAY at 1, set_gl at 1, modify at 1.
  unfold bind at 1.
  destruct (at_index (subgeom geom) sg) as [sub|] eqn:Hsg; [|discriminate].
  intros _. exists geom, sub. split; [reflexivity | exact Hsg].
Qed.

Lemma renderSubgeometry_step (model : Model) (g sg : N) (matrix : mat4)
    (object : option GameObject) (queueTransparent : bool) :
  establishes traversal_step
    (renderSubgeometry engine model g sg matrix object queueTransparent).
Proof.
  intros r a r' E.
  destruct (renderSubgeometry_defined _ _ _ _ _ _ _ _ _ E) as (geom & sub & Hg & Hsg).
  destruct (renderSubgeometry_spec engine model g sg matrix object queueTransparent
              geom sub r Hg Hsg) as (r'' & Hrun & Hpost).
  rewrite Hrun in E. injection E as _ <-.
  destruct (queueTransparent && transparent_material engine model g sg).
  - apply rejected_step, Hpost.
  - eapply drew_step, Hpost.
Qed.

Lemma queue_push_back_step (e : RQueueEntry) :
  entry_valid e -> establishes traversal_step (queue_push_back e).
Proof.
  intros He r a r' E. unfold queue_push_back, modify in E. injection E as _ <-.
  split; [|cbn; auto]. split; [now apply draw_step_same|].
  exists [e]. split; [reflexivity | now constructor].
Qed.

Lemma renderGeometry_step (model : Model) (g : N) (modelMatrix : mat4)
    (object : option GameObject) :
  establishes traversal_step (renderGeometry engine model g modelMatrix object).
Proof.
  unfold renderGeometry.
  apply (establishes_bind _ traversal_step_trans); [apply set_gl_step|]. intros _.
  apply (establishes_bind _ traversal_step_trans); [apply set_gl_step|]. intros _.
  destruct (at_index (geometries model) g) as [geom|] eqn:Hg;
    [|intros r a r' E; discriminate E].
  apply establishes_deref_some.
  apply (establishes_for_each _ traversal_step_refl traversal_step_trans).
  intros sg Hsg.
  apply (establishes_bind _ traversal_step_trans); [apply renderSubgeometry_step|].
  intros [|]; cbn [negb]; [apply (establishes_ret _ traversal_step_refl)|].
  intros r a r' E.
  assert (Hdef : exists geom0 sub0,
             at_index (geometries model) g = Some geom0
             /\ at_index (subgeom geom0) sg = Some sub0).
  { exists geom. destruct (at_index_indices _ _ Hsg) as [sub Hsub].
    exists sub. split; [exact Hg|]. exact Hsub. }
  revert r a r' E. apply queue_push_back_step. exact Hdef.
Qed.

Lemma renderFrame_geometry_step (m : Model) (matrix localmatrix : mat4)
    (object : option GameObject) (vis : bool) (g : N) :
  establishes traversal_step
    (renderFrame_geometry engine camera m matrix localmatrix object vis g).
Proof.
  unfold renderFrame_geometry.
  destruct vis; cbn [negb]; [|apply (establishes_ret _ traversal_step_refl)].
  apply (establishes_bind _ traversal_step_trans);
    [apply (establishes_deref _ traversal_step_refl)|]. intros geom.
  destruct (negb (intersects _ _ _)); [apply (establishes_ret _ traversal_step_refl)|].
  apply (establishes_bind _ traversal_step_trans); [|intros _; apply renderGeometry_step].
  destruct (negb (has_flags _ _));
    [apply set_gl_step | apply (establishes_ret _ traversal_step_refl)].
Qed.

Lemma renderFrame_step (m : Model) (f : ModelFrame) :
  forall matrix object queueTransparent,
    establishes traversal_step
      (renderFrame engine camera m f matrix object queueTransparent).
Proof.
  induction f as [n t gs cs IH] using ModelFrame_subtree_ind.
  intros matrix object qt r a r' E. rewrite renderFrame_unfold in E.
  revert r a r' E.
  intros r. generalize (frame_localmatrix (mkFrame n t gs cs) matrix object (renderAlpha r)).
  intros localmatrix. revert r.
  apply (establishes_bind _ traversal_step_trans).
  - apply (establishes_for_each _ traversal_step_refl traversal_step_trans).
    intros g _. apply renderFrame_geometry_step.
  - intros _. apply (establishes_bind _ traversal_step_trans);
      [|intros _; apply (establishes_ret _ traversal_step_refl)].
    unfold renderFrame_children. cbn [getChildren].
    apply (establishes_for_each _ traversal_step_refl traversal_step_trans).
    intros c Hc. rewrite Forall_forall in IH.
    apply (establishes_bind _ traversal_step_trans);
      [apply IH, list_elem_of_In, Hc
      |intros _; apply (establishes_ret _ traversal_step_refl)].
Qed.

Lemma renderModel_step (model : option Model) (modelMatrix : mat4)
    (object : option GameObject) :
  establishes traversal_step (renderModel engine camera model modelMatrix object).
Proof.
  unfold renderModel.
  apply (establishes_bind _ traversal_step_trans);
    [apply (establishes_deref _ traversal_step_refl)|]. intros m.
  apply (establishes_bind _ traversal_step_trans);
    [apply (establishes_deref _ traversal_step_refl)|]. intros root.
  apply (establishes_bind _ traversal_step_trans); [apply renderFrame_step|].
  intros _. apply (establishes_ret _ traversal_step_refl).
Qed.

(** X1.  A traversal by [renderFrame] that returns never touches the
    [culled] counter or [std::cout], whatever it culls or defers; it only
    appends [glDrawElements] commands and valid queue entries, and
    [rendered] goes up by the number of commands appended. *)
Theorem renderFrame_counts_draws_not_culls (m : Model) (f : ModelFrame) (matrix : mat4)
    (object : option GameObject) (queueTransparent : bool) (r r' : Renderer) (a : bool) :
  renderFrame engine camera m f matrix object queueTransparent r = Ok a r' ->
  culled r' = culled r
  /\ cout r' = cout r
  /\ (exists draws,
        submitted r' = submitted r ++ draws
        /\ Forall is_DrawElements draws
        /\ ((rendered r < SIZE_MAX1)%N ->
            rendered r' = ((rendered r + N.of_nat (length draws)) mod SIZE_MAX1)%N))
  /\ (exists entries,
        transparentDrawQueue r' = transparentDrawQueue r ++ entries
        /\ Forall entry_valid entries).
Proof.
  intros E. destruct (renderFrame_step m f matrix object queueTransparent r a r' E)
    as (((_ & Hd) & Hq) & Hc & Ho).
  auto.
Qed.

End TraversalSteps.

(** ** Wheels *)

Section Wheels.
Context {G : Glm} {D : Declarations}.
Variable engine : GameWorld.
Variable camera : ViewCamera.

Local Open Scope render_scope.

Lemma culled_incr_pass_step : establishes pass_step culled_incr.
Proof.
  intros r a r' E. unfold culled_incr, modify in E. injection E as _ <-.
  now apply pass_step_same.
Qed.

Lemma print_pass_step (l : LogLine) : establishes pass_step (print l).
Proof.
  intros r a r' E. unfold print, modify in E. injection E as _ <-.
  now apply pass_step_same.
Qed.

Lemma establishes_weaken {A} (c : Render A) :
  establishes traversal_step c -> establishes pass_step c.
Proof. intros H r a r' E. apply traversal_pass_step. eapply H, E. Qed.

(** [renderWheel] looks at the frames in order and stops at the first
    one called [name]: without such a frame it does nothing; with one,
    it runs the chunk loop on that frame's first child and looks no
    further. *)
Lemma renderWheel_find (model : Model) (matrix : mat4) (name : string) (r : Renderer) :
  renderWheel engine camera model matrix name r =
  match wheel_frame model name with
  | None => Ok tt r
  | Some f =>
      bind (deref "f->getChildren()[0]" (at_index (getChildren f) 0))
           (fun firstLod =>
              for_each (renderWheel_geometry engine camera model matrix)
                (getGeometries firstLod)) r
  end.
Proof.
  unfold renderWheel, wheel_frame. induction (frames model) as [|f fs IH]; [reflexivity|].
  cbn [List.find]. destruct (String.eqb (getName f) name); cbn [negb].
  - reflexivity.
  - exact IH.
Qed.

Lemma renderWheel_geometry_spec (model : Model) (matrix : mat4) (g : N) (geom : Geometry)
    (r : Renderer) :
  at_index (geometries model) g = Some geom ->
  exists r',
    renderWheel_geometry engine camera model matrix g r = Ok tt r'
    /\ pass_step r r'
    /\ cout r' = cout r
    /\ culled r' =
         if chunk_culled camera model matrix g then size_t_add (culled r) 1 else culled r.
Proof.
  intros Hg. unfold renderWheel_geometry, chunk_culled. unfold bind. rewrite Hg.
  cbn [deref]. unfold ret.
  destruct (negb (intersects _ _ _)).
  - eexists. split; [reflexivity|]. split; [eapply culled_incr_pass_step; reflexivity|].
    cbn. auto.
  - destruct (renderGeometry_spec engine model g matrix None geom r Hg) as (r' & Hrun & _).
    exists r'. split; [exact Hrun|].
    destruct (renderGeometry_step engine model g matrix None r tt r' Hrun) as (Hp & Hc & Ho).
    auto.
Qed.

Lemma renderWheel_loop (model : Model) (matrix : mat4) (gs : list N) :
  (forall g, In g gs -> is_Some (at_index (geometries model) g)) ->
  forall r, (culled r < SIZE_MAX1)%N ->
  exists r',
    for_each (renderWheel_geometry engine camera model matrix) gs r = Ok tt r'
    /\ pass_step r r'
    /\ cout r' = cout r
    /\ culled r' =
         ((culled r + N.of_nat (culled_count camera model matrix gs)) mod SIZE_MAX1)%N.
Proof.
  unfold culled_count. induction gs as [|g gs IH]; intros Hgs r Hlt.
  - exists r. split; [reflexivity|]. split; [apply pass_step_refl|]. split; [reflexivity|].
    cbn. rewrite N.add_0_r. symmetry. now apply N.mod_small.
  - destruct (Hgs g (or_introl eq_refl)) as [geom Hg].
    destruct (renderWheel_geometry_spec model matrix g geom r Hg)
      as (r1 & Hrun & Hp & Ho & Hc).
    rewrite for_each_cons. unfold bind. rewrite Hrun.
    assert (Hlt1 : (culled r1 < SIZE_MAX1)%N).
    { rewrite Hc. destruct (chunk_culled camera model matrix g); [|exact Hlt].
      apply N.mod_lt. discriminate. }
    destruct (IH (fun x Hx => Hgs x (or_intror Hx)) r1 Hlt1) as (r' & -> & Hp' & Ho' & Hc').
    exists r'. split; [reflexivity|]. split; [eapply pass_step_trans; eauto|].
    split; [congruence|].
    rewrite Hc', Hc. cbn [List.filter].
    destruct (chunk_culled camera model matrix g); cbn [length].
    + unfold size_t_add. rewrite N.Div0.add_mod_idemp_l. f_equal. lia.
    + reflexivity.
Qed.

(** X2.  [renderWheel] on a model that has a frame called [name] with a
    first child whose chunks exist: it returns, adds to [culled] (as a
    [size_t]) exactly the number of those chunks that fail the frustum
    test, and writes nothing to [std::cout]. *)
Theorem renderWheel_counts_culled (model : Model) (matrix : mat4) (name : string)
    (f firstLod : ModelFrame) (rest : list ModelFrame) (r : Renderer) :
  wheel_frame model name = Some f ->
  getChildren f = firstLod :: rest ->
  (forall g, In g (getGeometries firstLod) -> is_Some (at_index (geometries model) g)) ->
  (culled r < SIZE_MAX1)%N ->
  exists r',
    renderWheel engine camera model matrix name r = Ok tt r'
    /\ culled r' =
         ((culled r + N.of_nat (culled_count camera model matrix (getGeometries firstLod)))
            mod SIZE_MAX1)%N
    /\ cout r' = cout r.
Proof.
  intros Hf Hch Hgs Hlt. rewrite renderWheel_find, Hf, Hch. cbn [at_index N.eqb deref].
  unfold bind, ret.
  destruct (renderWheel_loop model matrix _ Hgs r Hlt) as (r' & Hrun & _ & Ho & Hc).
  exists r'. auto.
Qed.

Lemma find_first_match {A} (p : A -> bool) (before : list A) (x : A) (after : list A) :
  Forall (fun b => p b = false) before -> p x = true ->
  List.find p (before ++ x :: after) = Some x.
Proof.
  intros Hb Hx. induction Hb as [|b before Hpb _ IH]; cbn [app List.find].
  - now rewrite Hx.
  - now rewrite Hpb.
Qed.

(** X3.  [renderWheel] uses the first frame called [name] and no other:
    on a model without such a frame it leaves the renderer as it was;
    otherwise it is the chunk loop over the first child of the first such
    frame, whatever frames follow it (and it stops when that frame has no
    child). *)
Theorem renderWheel_first_match_only (model : Model) (matrix : mat4) (name : string)
    (r : Renderer) :
  (Forall (fun b => String.eqb (getName b) name = false) (frames model) ->
   renderWheel engine camera model matrix name r = Ok tt r)
  /\ (forall before f after,
        frames model = before ++ f :: after ->
        Forall (fun b => String.eqb (getName b) name = false) before ->
        String.eqb (getName f) name = true ->
        renderWheel engine camera model matrix name r =
        match getChildren f with
        | firstLod :: _ =>
            for_each (renderWheel_geometry engine camera model matrix)
              (getGeometries firstLod) r
        | [] => Undefined "f->getChildren()[0]" r
        end).
Proof.
  split.
  - intros Hnone. rewrite renderWheel_find. unfold wheel_frame.
    replace (List.find (fun f0 => String.eqb (getName f0) name) (frames model))
      with (@None ModelFrame); [reflexivity|].
    symmetry. induction Hnone as [|b fs Hpb _ IH]; [reflexivity|].
    cbn [List.find]. now rewrite Hpb.
  - intros before f after Hfr Hbefore Hf. rewrite renderWheel_find. unfold wheel_frame.
    rewrite Hfr, (find_first_match _ before f) by assumption.
    destruct (getChildren f); reflexivity.
Qed.

End Wheels.

(** ** The object passes as a whole *)

Section WholePass.
Context {G : Glm} {D : Declarations}.
Variable engine : GameWorld.
Variable camera : ViewCamera.

Local Open Scope render_scope.

Lemma renderWheel_geometry_step (model : Model) (matrix : mat4) (g : N) :
  establishes pass_step (renderWheel_geometry engine camera model matrix g).
Proof.
  unfold renderWheel_geometry.
  apply (establishes_bind _ pass_step_trans); [apply (establishes_deref _ pass_step_refl)|].
  intros geom. destruct (negb (intersects _ _ _)); [apply culled_incr_pass_step|].
  apply establishes_weaken, renderGeometry_step.
Qed.

Lemma renderWheel_step (model : Model) (matrix : mat4) (name : string) :
  establishes pass_step (renderWheel engine camera model matrix name).
Proof.
  intros r a r' E. rewrite renderWheel_find in E. revert r a r' E.
  destruct (wheel_frame model name) as [f|]; [|apply (establishes_ret _ pass_step_refl)].
  apply (establishes_bind _ pass_step_trans); [apply (establishes_deref _ pass_step_refl)|].
  intros firstLod. apply (establishes_for_each _ pass_step_refl pass_step_trans).
  intros g _. apply renderWheel_geometry_step.
Qed.

Lemma renderPedestrian_step (charac : CharacterObject) :
  establishes pass_step (renderPedestrian engine camera charac).
Proof.
  unfold renderPedestrian. destruct (model (char_model charac));
    [apply establishes_weaken, renderModel_step | apply (establishes_ret _ pass_step_refl)].
Qed.

Lemma renderLODChild_step (m : Model) (matrixModel : mat4) (back : N) :
  establishes pass_step (renderLODChild engine camera m matrixModel back).
Proof.
  unfold renderLODChild.
  apply (establishes_bind _ pass_step_trans); [apply (establishes_deref _ pass_step_refl)|].
  intros RF.
  apply (establishes_bind _ pass_step_trans); [apply (establishes_deref _ pass_step_refl)|].
  intros f.
  apply (establishes_bind _ pass_step_trans);
    [apply establishes_weaken, renderFrame_step
    |intros _; apply (establishes_ret _ pass_step_refl)].
Qed.

Lemma renderInstance_step (inst : InstanceObject) :
  establishes pass_step (renderInstance engine camera inst).
Proof.
  unfold renderInstance.
  repeat match goal with
         | |- establishes _ (ret _) => apply (establishes_ret _ pass_step_refl)
         | |- establishes _ culled_incr => apply culled_incr_pass_step
         | |- establishes _ (renderModel _ _ _ _ _) =>
             apply establishes_weaken, renderModel_step
         | |- establishes _ (renderLODChild _ _ _ _ _) => apply renderLODChild_step
         | |- establishes _ (if ?b then _ else _) => destruct b
         | |- establishes _ (match ?o with Some _ => _ | None => _ end) => destruct o
         end.
Qed.

Lemma renderVehicleWheel_step (inst : VehicleObject) (wheel : WheelInfo) :
  establishes pass_step (renderVehicleWheel engine camera inst wheel).
Proof.
  unfold renderVehicleWheel.
  destruct (objectTypes engine !! wheelModelID (vehicle inst)) as [woi|];
    [|apply (establishes_ret _ pass_step_refl)].
  apply (establishes_bind _ pass_step_trans); [apply (establishes_deref _ pass_step_refl)|].
  intros handle. destruct (model handle); [apply renderWheel_step | apply print_pass_step].
Qed.

Lemma renderVehicle_step (inst : VehicleObject) :
  establishes pass_step (renderVehicle engine camera inst).
Proof.
  unfold renderVehicle.
  apply (establishes_bind _ pass_step_trans).
  { destruct (veh_model inst);
      [apply (establishes_ret _ pass_step_refl) | apply print_pass_step]. }
  intros _.
  apply (establishes_bind _ pass_step_trans); [apply (establishes_deref _ pass_step_refl)|].
  intros handle.
  apply (establishes_bind _ pass_step_trans);
    [apply establishes_weaken, renderModel_step|].
  intros _. apply (establishes_for_each _ pass_step_refl pass_step_trans).
  intros w _. apply renderVehicleWheel_step.
Qed.

Lemma replayTransparent_step (e : RQueueEntry) :
  establishes traversal_step (replayTransparent engine e).
Proof.
  unfold replayTransparent.
  apply (establishes_bind _ traversal_step_trans); [apply set_gl_step|]. intros _.
  apply (establishes_bind _ traversal_step_trans); [apply set_gl_step|]. intros _.
  apply (establishes_bind _ traversal_step_trans); [apply renderSubgeometry_step|].
  intros _. apply (establishes_ret _ traversal_step_refl).
Qed.

(** The three object loops, from the state [begin_frame] leaves. *)
Lemma object_loops_step (r1 r2 r3 r4 : Renderer) :
  for_each (renderPedestrian engine camera) (pedestrians engine) r1 = Ok tt r2 ->
  for_each (renderInstance engine camera) (objectInstances engine) r2 = Ok tt r3 ->
  for_each (renderVehicle engine camera) (vehicleInstances engine) r3 = Ok tt r4 ->
  pass_step r1 r4.
Proof.
  intros E1 E2 E3.
  eapply pass_step_trans; [|eapply pass_step_trans].
  - eapply (establishes_for_each _ pass_step_refl pass_step_trans), E1.
    intros c _. apply renderPedestrian_step.
  - eapply (establishes_for_each _ pass_step_refl pass_step_trans), E2.
    intros i _. apply renderInstance_step.
  - eapply (establishes_for_each _ pass_step_refl pass_step_trans), E3.
    intros v _. apply renderVehicle_step.
Qed.

(** The runs of the pieces of a run of [renderWorld_objects] that returns. *)
Lemma renderWorld_objects_runs (alpha : Q) (r r' : Renderer) :
  renderWorld_objects engine camera alpha r = Ok tt r' ->
  exists r1 r2 r3 r4,
    begin_frame alpha r = Ok tt r1
    /\ for_each (renderPedestrian engine camera) (pedestrians engine) r1 = Ok tt r2
    /\ for_each (renderInstance engine camera) (objectInstances engine) r2 = Ok tt r3
    /\ for_each (renderVehicle engine camera) (vehicleInstances engine) r3 = Ok tt r4
    /\ flushTransparentQueue engine r4 = Ok tt r'.
Proof.
  unfold renderWorld_objects, bind.
  destruct (begin_frame alpha r) as [[] r1|]; [|discriminate].
  destruct (for_each _ (pedestrians engine) r1) as [[] r2|] eqn:E1; [|discriminate].
  destruct (for_each _ (objectInstances engine) r2) as [[] r3|] eqn:E2; [|discriminate].
  destruct (for_each _ (vehicleInstances engine) r3) as [[] r4|] eqn:E3; [|discriminate].
  intros E. exists r1, r2, r3, r4. auto.
Qed.

Lemma flush_draw_step (r r' : Renderer) :
  flushTransparentQueue engine r = Ok tt r' -> draw_step r r' /\ culled r' = culled r.
Proof.
  unfold flushTransparentQueue. unfold bind at 1, gets. unfold bind at 1.
  destruct (for_each _ _ r) as [[] r1|] eqn:E; [|discriminate].
  unfold queue_clear, modify. intros E'. injection E' as <-.
  destruct (establishes_for_each _ traversal_step_refl traversal_step_trans
              (replayTransparent engine) (transparentDrawQueue r)
              (fun e _ => replayTransparent_step e) r tt r1 E)
    as (((Ha & draws & Hs & Hd & Hr) & _) & Hc & _).
  split; [|exact Hc]. split; [exact Ha|]. exists draws. cbn. auto.
Qed.

(** X4.  After a run of the object passes of [renderWorld] that returns,
    [rendered] is the number of commands the frame sent to the GPU (as a
    [size_t]), replayed transparent subgeometries included; all of them
    are [glDrawElements] commands, appended to the stream; the queue is
    empty and [_renderAlpha] is the fraction the frame was given. *)
Theorem rendered_counts_frame_draws (alpha : Q) (r r' : Renderer) :
  renderWorld_objects engine camera alpha r = Ok tt r' ->
  exists draws,
    submitted r' = submitted r ++ draws
    /\ Forall is_DrawElements draws
    /\ rendered r' = (N.of_nat (length draws) mod SIZE_MAX1)%N
    /\ transparentDrawQueue r' = []
    /\ renderAlpha r' = alpha.
Proof.
  intros E. pose proof (flush_leaves_queue_empty engine) as Hempty.
  destruct (renderWorld_objects_runs alpha r r' E) as (r1 & r2 & r3 & r4 & E0 & E1 & E2 & E3 & E4).
  unfold begin_frame, modify in E0. injection E0 as <-.
  destruct (object_loops_step _ r2 r3 r4 E1 E2 E3) as (Hloops & _).
  destruct (flush_draw_step r4 r' E4) as (Hflush & _).
  destruct (draw_step_trans _ _ _ Hloops Hflush) as (Ha & draws & Hs & Hd & Hr).
  cbn in Ha, Hs, Hr. exists draws. split; [exact Hs|]. split; [exact Hd|].
  split; [apply Hr; reflexivity|]. split; [eapply Hempty, E4 | exact Ha].
Qed.

(** X5.  The replay cannot stop a frame: when the queue the frame
    starts with names existing subgeometries (in particular when it is
    empty, as every frame that returns leaves it) and the three object
    loops return, the flush returns as well, and so does the whole of
    the object passes. *)
Theorem flush_never_stops_frame (alpha : Q) (r r1 r2 r3 r4 : Renderer) :
  Forall entry_valid (transparentDrawQueue r) ->
  begin_frame alpha r = Ok tt r1 ->
  for_each (renderPedestrian engine camera) (pedestrians engine) r1 = Ok tt r2 ->
  for_each (renderInstance engine camera) (objectInstances engine) r2 = Ok tt r3 ->
  for_each (renderVehicle engine camera) (vehicleInstances engine) r3 = Ok tt r4 ->
  exists r',
    renderWorld_objects engine camera alpha r = Ok tt r'
    /\ flushTransparentQueue engine r4 = Ok tt r'
    /\ transparentDrawQueue r' = [].
Proof.
  intros Hq E0 E1 E2 E3.
  destruct (object_loops_step r1 r2 r3 r4 E1 E2 E3) as (_ & entries & Hq4 & Hvalid).
  assert (Hq1 : transparentDrawQueue r1 = transparentDrawQueue r).
  { unfold begin_frame, modify in E0. injection E0 as <-. reflexivity. }
  assert (Hvalid4 : Forall entry_valid (transparentDrawQueue r4)).
  { rewrite Hq4, Hq1. now apply Forall_app. }
  destruct (flushTransparentQueue_spec engine r4 Hvalid4) as (r' & draws & Hrun & He & _).
  exists r'. split; [|auto].
  unfold renderWorld_objects, bind. rewrite E0, E1, E2, E3. exact Hrun.
Qed.

End WholePass.

(** ** What the course of a frame depends on *)

Section Repeatable.
Context {G : Glm} {D : Declarations}.
Variable engine : GameWorld.
Variable camera : ViewCamera.

Local Open Scope render_scope.

Lemma respects_ret {A} (a : A) : respects (ret a).
Proof. intros r1 r2 H. cbn. auto. Qed.

Lemma respects_bind {A B} (c : Render A) (k : A -> Render B) :
  respects c -> (forall a, respects (k a)) -> respects (bind c k).
Proof.
  intros Hc Hk r1 r2 H. unfold bind. specialize (Hc r1 r2 H).
  destruct (c r1) as [a1 r1'|], (c r2) as [a2 r2'|]; try contradiction; [|exact I].
  destruct Hc as [<- H']. apply Hk, H'.
Qed.

Lemma respects_deref {A} (why : string) (p : option A) : respects (deref why p).
Proof. destruct p; [apply respects_ret | intros r1 r2 _; exact I]. Qed.

Lemma respects_for_each {A} (body : A -> Render unit) (l : list A) :
  (forall x, respects (body x)) -> respects (for_each body l).
Proof.
  intros Hbody. induction l as [|x l IH]; [apply respects_ret|].
  intros r1 r2 H. rewrite !for_each_cons. revert r1 r2 H.
  apply respects_bind; [apply Hbody | intros _; exact IH].
Qed.

(** A state update that keeps the fraction, the counters and the queue,
    or changes them in the same way on both sides. *)
Lemma respects_modify (f : Renderer -> Renderer) :
  (forall r1 r2, agree r1 r2 -> agree (f r1) (f r2)) -> respects (modify f).
Proof. intros Hf r1 r2 H. cbn. auto. Qed.

Lemma respects_set_gl (f : GLState -> GLState) : respects (set_gl f).
Proof. apply respects_modify. intros r1 r2 H. exact H. Qed.

Lemma respects_glDrawElements (faceType count offset : N) :
  respects (glDrawElements faceType count offset).
Proof. intros r1 r2 H. cbn. split; [reflexivity | exact H]. Qed.

Lemma respects_print (l : LogLine) : respects (print l).
Proof. apply respects_modify. intros r1 r2 H. exact H. Qed.

Lemma respects_rendered_incr : respects rendered_incr.
Proof.
  apply respects_modify. intros r1 r2 (Ha & Hr & Hc & Hq).
  unfold agree. cbn. rewrite Hr. auto.
Qed.

Lemma respects_culled_incr : respects culled_incr.
Proof.
  apply respects_modify. intros r1 r2 (Ha & Hr & Hc & Hq).
  unfold agree. cbn. rewrite Hc. auto.
Qed.

Lemma respects_queue_push_back (e : RQueueEntry) : respects (queue_push_back e).
Proof.
  apply respects_modify. intros r1 r2 (Ha & Hr & Hc & Hq).
  unfold agree. cbn. rewrite Hq. auto.
Qed.

Lemma respects_queue_clear : respects queue_clear.
Proof.
  apply respects_modify. intros r1 r2 (Ha & Hr & Hc & Hq).
  unfold agree. cbn. auto.
Qed.

(** One step of a proof that a piece of the renderer respects [agree]. *)
Ltac respects_step :=
  match goal with
  | |- respects (ret _) => apply respects_ret
  | |- respects (bind _ _) => apply respects_bind; [|intros ?]
  | |- respects (deref _ _) => apply respects_deref
  | |- respects (for_each _ _) => apply respects_for_each; intros ?
  | |- respects (glDrawElements _ _ _) => apply respects_glDrawElements
  | |- respects rendered_incr => apply respects_rendered_incr
  | |- respects culled_incr => apply respects_culled_incr
  | |- respects (queue_push_back _) => apply respects_queue_push_back
  | |- respects queue_clear => apply respects_queue_clear
  | |- respects (print _) => apply respects_print
  | |- respects (glBindVertexArray _) => apply respects_set_gl
  | |- respects (glBindBuffer_ELEMENT_ARRAY _) => apply respects_set_gl
  | |- respects (glBindTexture_2D _) => apply respects_set_gl
  | |- respects (glUniform_uniModel _) => apply respects_set_gl
  | |- respects (glUniform_uniCol _) => apply respects_set_gl
  | |- respects (glUniform_uniMatDiffuse _) => apply respects_set_gl
  | |- respects (glUniform_uniMatAmbient _) => apply respects_set_gl
  | |- respects (if ?b then _ else _) => destruct b
  | |- respects (match ?o with _ => _ end) => destruct o
  | |- respects (let (_, _) := ?p in _) => destruct p
  end.

Lemma respects_renderSubgeometry (model : Model) (g sg : N) (matrix : mat4)
    (object : option GameObject) (queueTransparent : bool) :
  respects (renderSubgeometry engine model g sg matrix object queueTransparent).
Proof.
  unfold renderSubgeometry, renderSubgeometry_material, renderSubgeometry_colour,
    renderSubgeometry_draw.
  repeat respects_step.
Qed.

Lemma respects_renderGeometry (model : Model) (g : N) (modelMatrix : mat4)
    (object : option GameObject) :
  respects (renderGeometry engine model g modelMatrix object).
Proof.
  unfold renderGeometry.
  repeat first [apply respects_renderSubgeometry | respects_step].
Qed.

Lemma respects_renderFrame_geometry (m : Model) (matrix localmatrix : mat4)
    (object : option GameObject) (vis : bool) (g : N) :
  respects (renderFrame_geometry engine camera m matrix localmatrix object vis g).
Proof.
  unfold renderFrame_geometry.
  repeat first [apply respects_renderGeometry | respects_step].
Qed.

Lemma respects_gets_renderAlpha : respects (gets renderAlpha).
Proof. intros r1 r2 H. cbn. split; [apply H | exact H]. Qed.

Lemma respects_gets_queue : respects (gets transparentDrawQueue).
Proof. intros r1 r2 H. cbn. split; [apply H | exact H]. Qed.

Lemma renderFrame_as_bind (m : Model) (f : ModelFrame) (matrix : mat4)
    (object : option GameObject) (queueTransparent : bool) :
  renderFrame engine camera m f matrix object queueTransparent =
  (alpha <- gets renderAlpha ;;
   for_each (renderFrame_geometry engine camera m matrix
               (frame_localmatrix f matrix object alpha) object (frame_vis f object))
     (getGeometries f) ;;
   renderFrame_children engine camera m f (frame_localmatrix f matrix object alpha)
     object queueTransparent ;;
   ret true).
Proof. destruct f. reflexivity. Qed.

Lemma respects_renderFrame (m : Model) (f : ModelFrame) :
  forall matrix object queueTransparent,
    respects (renderFrame engine camera m f matrix object queueTransparent).
Proof.
  induction f as [n t gs cs IH] using ModelFrame_subtree_ind.
  intros matrix object qt. rewrite renderFrame_as_bind.
  apply respects_bind; [apply respects_gets_renderAlpha|]. intros alpha.
  apply respects_bind;
    [apply respects_for_each; intros g; apply respects_renderFrame_geometry|].
  intros _. apply respects_bind; [|intros _; apply respects_ret].
  unfold renderFrame_children. cbn [getChildren].
  generalize (frame_localmatrix (mkFrame n t gs cs) matrix object alpha). intros localmatrix.
  induction IH as [|c cs Hc _ IHcs]; [apply respects_ret|].
  intros r1 r2 H. rewrite !for_each_cons. revert r1 r2 H.
  apply respects_bind; [|intros _; exact IHcs].
  apply respects_bind; [apply Hc | intros _; apply respects_ret].
Qed.

Lemma respects_renderModel (model : option Model) (modelMatrix : mat4)
    (object : option GameObject) :
  respects (renderModel engine camera model modelMatrix object).
Proof.
  unfold renderModel. repeat first [apply respects_renderFrame | respects_step].
Qed.

Lemma respects_renderWheel (model : Model) (matrix : mat4) (name : string) :
  respects (renderWheel engine camera model matrix name).
Proof.
  assert (Hc : respects
                 (match wheel_frame model name with
                  | None => ret tt
                  | Some f =>
                      firstLod <- deref "f->getChildren()[0]" (at_index (getChildren f) 0) ;;
                      for_each (renderWheel_geometry engine camera model matrix)
                        (getGeometries firstLod)
                  end)).
  { unfold renderWheel_geometry.
    repeat first [apply respects_renderGeometry | respects_step]. }
  intros r1 r2 H. rewrite !renderWheel_find. specialize (Hc r1 r2 H).
  destruct (wheel_frame model name); exact Hc.
Qed.

Lemma respects_renderPedestrian (charac : CharacterObject) :
  respects (renderPedestrian engine camera charac).
Proof.
  unfold renderPedestrian. repeat first [apply respects_renderModel | respects_step].
Qed.

Lemma respects_renderInstance (inst : InstanceObject) :
  respects (renderInstance engine camera inst).
Proof.
  unfold renderInstance, renderLODChild.
  repeat first [apply respects_renderModel | apply respects_renderFrame | respects_step].
Qed.

Lemma respects_renderVehicle (inst : VehicleObject) :
  respects (renderVehicle engine camera inst).
Proof.
  unfold renderVehicle, renderVehicleWheel.
  repeat first [apply respects_renderModel | apply respects_renderWheel | respects_step].
Qed.

Lemma respects_flush : respects (flushTransparentQueue engine).
Proof.
  unfold flushTransparentQueue.
  apply respects_bind; [apply respects_gets_queue|]. intros queue.
  unfold replayTransparent.
  repeat first [apply respects_renderSubgeometry | respects_step].
Qed.

(** From two states with the same queue the object passes stop on
    both, or return on both in states that agree. *)
Lemma object_passes_agree (alpha : Q) (r1 r2 : Renderer) :
  transparentDrawQueue r1 = transparentDrawQueue r2 ->
  match renderWorld_objects engine camera alpha r1,
        renderWorld_objects engine camera alpha r2 with
  | Ok _ r1', Ok _ r2' => agree r1' r2'
  | Undefined _ _, Undefined _ _ => True
  | _, _ => False
  end.
Proof.
  intros Hq.
  pose (rest := (for_each (renderPedestrian engine camera) (pedestrians engine) ;;
                 for_each (renderInstance engine camera) (objectInstances engine) ;;
                 for_each (renderVehicle engine camera) (vehicleInstances engine) ;;
                 flushTransparentQueue engine)).
  pose (start := fun r : Renderer =>
                   {| renderAlpha := alpha; rendered := 0; culled := 0;
                      transparentDrawQueue := transparentDrawQueue r; gl := gl r;
                      submitted := submitted r; cout := cout r |}).
  assert (E : forall r, renderWorld_objects engine camera alpha r = rest (start r))
    by reflexivity.
  rewrite !E.
  assert (Hres : respects rest).
  { unfold rest.
    repeat first [apply respects_renderPedestrian | apply respects_renderInstance
                 | apply respects_renderVehicle | apply respects_flush | respects_step]. }
  assert (Hag : agree (start r1) (start r2)) by (unfold agree; cbn; auto).
  specialize (Hres _ _ Hag).
  destruct (rest (start r1)), (rest (start r2)); try exact Hres.
  apply Hres.
Qed.

(** X6.  The course of the object passes of a frame depends on the
    renderer it starts from only through the queue: from two renderers
    with the same queue (whatever their counters, GL bindings and
    streams), the passes stop on both or return on both, with the same
    [rendered] and [culled]. *)
Theorem frame_counters_depend_on_queue_only (alpha : Q) (r1 r2 : Renderer) :
  transparentDrawQueue r1 = transparentDrawQueue r2 ->
  match renderWorld_objects engine camera alpha r1,
        renderWorld_objects engine camera alpha r2 with
  | Ok _ r1', Ok _ r2' => rendered r1' = rendered r2' /\ culled r1' = culled r2'
  | Undefined _ _, Undefined _ _ => True
  | _, _ => False
  end.
Proof.
  intros Hq. pose proof (object_passes_agree alpha r1 r2 Hq) as H.
  destruct (renderWorld_objects engine camera alpha r1),
           (renderWorld_objects engine camera alpha r2); try exact H.
  destruct H as (_ & Hr & Hc & _). auto.
Qed.

End Repeatable.

(** ** Edges of the vehicle and instance loops *)

Section LoopEdges.
Context {G : Glm} {D : Declarations}.
Variable engine : GameWorld.
Variable camera : ViewCamera.

Local Open Scope render_scope.

(** X7.  Two frames in a row on the same world give the same
    statistics: when a frame that started with an empty queue returns,
    the next frame with the same fraction returns too, with the same
    [rendered] and [culled]. *)
Theorem consecutive_frames_same_statistics (alpha : Q) (r r' : Renderer) :
  transparentDrawQueue r = [] ->
  renderWorld_objects engine camera alpha r = Ok tt r' ->
  exists r'',
    renderWorld_objects engine camera alpha r' = Ok tt r''
    /\ rendered r'' = rendered r'
    /\ culled r'' = culled r'.
Proof.
  intros Hq E.
  assert (Hq' : transparentDrawQueue r' = transparentDrawQueue r).
  { rewrite Hq. eapply renderWorld_objects_queue_empty, E. }
  pose proof (object_passes_agree engine camera alpha r' r Hq') as H.
  rewrite E in H.
  destruct (renderWorld_objects engine camera alpha r') as [[] r''|]; [|contradiction].
  destruct H as (_ & Hr & Hc & _).
  exists r''. auto.
Qed.

Lemma wheel_loop_ignored (inst : VehicleObject) (ws : list WheelInfo) (r : Renderer) :
  objectTypes engine !! wheelModelID (vehicle inst) = None ->
  for_each (renderVehicleWheel engine camera inst) ws r = Ok tt r.
Proof.
  intros Hnone. induction ws as [|w ws IH]; [reflexivity|].
  rewrite for_each_cons. unfold renderVehicleWheel at 1. rewrite Hnone. exact IH.
Qed.

(** X8.  A vehicle whose wheel model id is not a known object type is
    drawn without wheels and without a word: the visit is that of its
    body alone, however many wheels it has. *)
Theorem unknown_wheel_type_draws_body_only (inst : VehicleObject) (handle : ModelHandle)
    (r : Renderer) :
  objectTypes engine !! wheelModelID (vehicle inst) = None ->
  veh_model inst = Some handle ->
  renderVehicle engine camera inst r =
  renderModel engine camera (model handle)
    (mat4_mul (translate mat4_identity (veh_position inst)) (mat4_cast (veh_rotation inst)))
    (Some (veh_object inst)) r.
Proof.
  intros Hnone Hh. unfold renderVehicle. rewrite Hh. unfold bind at 1, ret at 1.
  unfold bind at 1. cbn [deref]. unfold ret at 1. unfold bind.
  destruct (renderModel _ _ _ _ _ r) as [[] r1|]; [|reflexivity].
  apply wheel_loop_ignored, Hnone.
Qed.

(** X9.  The wheel loop of a vehicle whose wheel type is known, by the
    state of the "wheels" model.  When its handle holds no model, each
    wheel writes one line naming the wheel's model to [std::cout] and
    nothing else happens.  When the model table has no "wheels" entry at
    all, the first wheel dereferences the null handle the lookup
    creates. *)
Theorem wheels_model_missing (inst : VehicleObject) (woi : ObjectData)
    (ws : list WheelInfo) (r : Renderer) :
  objectTypes engine !! wheelModelID (vehicle inst) = Some woi ->
  (forall handle,
     gd_models (gameData engine) !! "wheels"%string = Some handle ->
     model handle = None ->
     exists r',
       for_each (renderVehicleWheel engine camera inst) ws r = Ok tt r'
       /\ cout r' = cout r ++ repeat (WheelModelNotLoaded (modelName woi)) (length ws)
       /\ submitted r' = submitted r
       /\ transparentDrawQueue r' = transparentDrawQueue r
       /\ rendered r' = rendered r /\ culled r' = culled r)
  /\ (gd_models (gameData engine) !! "wheels"%string = None ->
      ws <> [] ->
      for_each (renderVehicleWheel engine camera inst) ws r
        = Undefined "models[wheels]->model" r).
Proof.
  intros Hw. split.
  - intros handle Hh Hm. revert r. induction ws as [|w ws IH]; intros r.
    + exists r. cbn. rewrite app_nil_r. auto 10.
    + rewrite for_each_cons. unfold renderVehicleWheel at 1.
      rewrite Hw, Hh. unfold bind. cbn [deref]. unfold ret at 1. rewrite Hm.
      unfold print, modify.
      match goal with |- context [for_each _ ws ?r0] =>
        destruct (IH r0) as (r' & -> & Ho & Hs & Hq & Hr & Hc) end.
      exists r'. cbn in *. split; [reflexivity|].
      rewrite Ho, <- app_assoc. auto 10.
  - intros Hnone Hne. destruct ws as [|w ws]; [contradiction|].
    rewrite for_each_cons. unfold renderVehicleWheel at 1.
    rewrite Hw, Hnone. reflexivity.
Qed.

(** X10.  A two-tier instance at far-detail distance whose model's first
    frame has fewer than two children stops the frame: [size() - 2]
    wraps around as a [size_t] and the child vector is indexed out of
    range.  Nothing has been drawn, queued or counted by then. *)
Theorem far_lod_needs_two_children (inst : InstanceObject) (m : Model)
    (RF : ModelFrame) (frs : list ModelFrame) (r : Renderer) :
  instance_time_skipped engine inst = false ->
  model (inst_model inst) = Some m ->
  numClumps (object inst) <> 1%N ->
  frames m = RF :: frs ->
  (length (getChildren RF) < 2)%nat ->
  instance_mindist camera m (instance_matrixModel inst) <= drawDistance (object inst) 1%N ->
  drawDistance (object inst) 0%N < instance_mindist camera m (instance_matrixModel inst) ->
  renderInstance engine camera inst r = Undefined "RF->getChildren()[LODindex]" r.
Proof.
  intros Htime Hm Hclumps Hframes Hlen H1 H0.
  apply N.eqb_neq in Hclumps. apply Qltb_ge in H1. apply Qltb_lt in H0.
  unfold renderInstance. rewrite Htime, Hm, Hclumps, H1, H0.
  unfold renderLODChild. unfold bind at 1. rewrite Hframes. cbn [at_index N.eqb deref].
  unfold ret at 1. unfold bind at 1.
  destruct (getChildren RF) as [|c [|c' cs]]; [reflexivity | reflexivity | cbn in Hlen; lia].
Qed.

(** X11.  [mindist] of the instance loop never exceeds [100000.f] or any
    chunk's distance, and it is one of these values; for a model without
    geometry it is [100000.f]. *)
Theorem mindist_is_capped_minimum (m : Model) (matrixModel : mat4) :
  instance_mindist camera m matrixModel <= 100000
  /\ (forall geom, In geom (geometries m) ->
        instance_mindist camera m matrixModel <= chunk_distance camera matrixModel geom)
  /\ (instance_mindist camera m matrixModel = 100000
      \/ exists geom, In geom (geometries m)
                      /\ instance_mindist camera m matrixModel
                         = chunk_distance camera matrixModel geom)
  /\ (geometries m = [] -> instance_mindist camera m matrixModel = 100000).
Proof.
  destruct (fold_std_min (chunk_distance camera matrixModel) (geometries m) 100000)
    as (Hcap & Hall & Hex).
  split; [exact Hcap|]. split; [exact Hall|]. split; [exact Hex|].
  intros Hnil. unfold instance_mindist. rewrite Hnil. reflexivity.
Qed.

End LoopEdges.

(** ** The tint of chunks with per-vertex colour *)

Section Tint.
Context {G : Glm} {D : Declarations}.
Variable engine : GameWorld.

Lemma white_loop (model : Model) (g : N) (modelMatrix : mat4)
    (object : option GameObject) (geom : Geometry) (sgs : list N) :
  at_index (geometries model) g = Some geom ->
  has_flags (flags geom) ModuleMaterialColor = false ->
  (forall sg, In sg sgs -> exists sub, at_index (subgeom geom) sg = Some sub) ->
  forall r, uniCol (gl r) = white ->
  exists r' draws,
    for_each (fun sg =>
        bind (renderSubgeometry engine model g sg modelMatrix object default_queueTransparent)
          (fun ok => if negb ok
                     then queue_push_back (queued model g modelMatrix object sg)
                     else ret tt)) sgs r = Ok tt r'
    /\ submitted r' = submitted r ++ draws
    /\ Forall (fun d => tint_of d = white) draws
    /\ uniCol (gl r') = white.
Proof.
  intros Hg Hflag. induction sgs as [|sg sgs IH]; intros Hin r Hwhite.
  - exists r, []. rewrite app_nil_r. repeat split; auto.
  - destruct (Hin sg (or_introl eq_refl)) as [sub Hsg].
    rewrite for_each_cons. unfold bind at 1. unfold bind at 1.
    destruct (renderSubgeometry_spec engine model g sg modelMatrix object
                default_queueTransparent geom sub r Hg Hsg) as (r1 & -> & Hpost).
    destruct (default_queueTransparent && transparent_material engine model g sg);
      cbn [negb].
    + destruct Hpost as (Hs & _ & _ & _ & _ & _ & _ & Hcol & _).
      destruct (queue_push_back (queued model g modelMatrix object sg) r1)
        as [[] r2|] eqn:E; [|discriminate E].
      unfold queue_push_back, modify in E. injection E as <-.
      match goal with |- context [for_each _ sgs ?r0] =>
        destruct (IH (fun x Hx => Hin x (or_intror Hx)) r0)
          as (r' & draws & -> & Hs' & Hw & Hc') end.
      { cbn. congruence. }
      exists r', draws. cbn in Hs'. rewrite Hs', Hs. auto.
    + destruct Hpost as ((Hs & _) & _ & Hcol & _).
      assert (Hcol1 : uniCol (gl r1) = white).
      { rewrite Hcol. unfold subgeometry_material. rewrite Hg, Hsg.
        destruct (at_index (materials geom) (material sub)); [|exact Hwhite].
        rewrite Hflag. exact Hwhite. }
      unfold ret at 1.
      destruct (IH (fun x Hx => Hin x (or_intror Hx)) r1 Hcol1)
        as (r' & draws & -> & Hs' & Hw & Hc').
      eexists r', (_ :: draws). split; [reflexivity|].
      rewrite Hs', Hs, <- app_assoc. split; [reflexivity|].
      split; [constructor; [exact Hcol1 | exact Hw] | exact Hc'].
Qed.

(** X12.  Every subgeometry of a chunk that lacks the
    [ModuleMaterialColor] flag is drawn under the white tint, whatever
    its material's colour and flags, the object and the tint in force
    before: per-vertex colour is never modulated by a material or
    vehicle colour. *)
Theorem vertex_coloured_chunk_drawn_white (model : Model) (g : N) (modelMatrix : mat4)
    (object : option GameObject) (geom : Geometry) (r : Renderer) :
  at_index (geometries model) g = Some geom ->
  has_flags (flags geom) ModuleMaterialColor = false ->
  exists r' draws,
    renderGeometry engine model g modelMatrix object r = Ok tt r'
    /\ submitted r' = submitted r ++ draws
    /\ Forall (fun d => tint_of d = white) draws.
Proof.
  intros Hg Hflag. unfold renderGeometry. run. rewrite Hg. run.
  match goal with |- context [for_each ?b ?l ?r0] =>
    destruct (white_loop model g modelMatrix object geom l Hg Hflag
                (at_index_indices (subgeom geom)) r0 eq_refl)
      as (r' & draws & Hrun & Hs & Hw & _) end.
  exists r', draws. split; [exact Hrun|]. split; [exact Hs | exact Hw].
Qed.

End Tint.

(** ** The water pass as a whole *)

Section WaterPass.
Context {G : Glm} {D : Declarations}.
Variable engine : GameWorld.
Variable camera : ViewCamera.

Local Open Scope render_scope.







End WaterPass.

(** ** The debug overlay *)

Section PathsFacts.
Context {G : Glm}.
Import Paths.

Lemma pushed_refl (s : LineStatics) : pushed 0 0 s s.
Proof. exists [], []. now rewrite !app_nil_r. Qed.

Lemma pushed_trans (a b a' b' : nat) (s1 s2 s3 : LineStatics) :
  pushed a b s1 s2 -> pushed a' b' s2 s3 -> pushed (a + a') (b + b') s1 s3.
Proof.
  intros (c1 & p1 & Hc1 & Hp1 & Lc1 & Lp1) (c2 & p2 & Hc2 & Hp2 & Lc2 & Lp2).
  exists (c1 ++ c2), (p1 ++ p2).
  rewrite Hc2, Hc1, Hp2, Hp1, <- !app_assoc, !length_app. repeat split; lia.
Qed.

Lemma pushed_car_pair (u v : vec3) (s : LineStatics) :
  pushed 1 0 s (car_push_back v (car_push_back u s)).
Proof. exists [u; v], []. cbn. rewrite <- app_assoc, app_nil_r. repeat split. Qed.

Lemma pushed_ped_pair (u v : vec3) (s : LineStatics) :
  pushed 0 1 s (ped_push_back v (ped_push_back u s)).
Proof. exists [], [u; v]. cbn. rewrite <- app_assoc, app_nil_r. repeat split. Qed.

Lemma node_marker_pushed (start : AIGraphNode) (s : LineStatics) :
  pushed (car_part start 1) (ped_part start 1) s (node_marker start s).
Proof.
  unfold node_marker, car_part, ped_part, is_pedestrian.
  destruct (type start); [destruct (external start)|];
    auto using pushed_car_pair, pushed_ped_pair.
Qed.

Lemma connection_line_pushed (nodes : list AIGraphNode) (start : AIGraphNode) (c : nat)
    (s : LineStatics) :
  (c < length nodes)%nat ->
  exists s', connection_line nodes start c s = Some s'
             /\ pushed (car_part start 1) (ped_part start 1) s s'.
Proof.
  intros Hc. unfold connection_line.
  destruct (lookup_lt_is_Some_2 nodes c Hc) as [end_ ->]. cbn.
  eexists. split; [reflexivity|].
  unfold car_part, ped_part, is_pedestrian.
  destruct (type start); auto using pushed_car_pair, pushed_ped_pair.
Qed.

Lemma connections_pushed (nodes : list AIGraphNode) (start : AIGraphNode) (cs : list nat) :
  forallb (fun c => (c <? length nodes)%nat) cs = true ->
  forall s,
  exists s',
    fold_left (fun acc c => acc ≫= connection_line nodes start c) cs (Some s) = Some s'
    /\ pushed (car_part start (length cs)) (ped_part start (length cs)) s s'.
Proof.
  induction cs as [|c cs IH]; intros Hcs s.
  - exists s. split; [reflexivity|].
    unfold car_part, ped_part. destruct (is_pedestrian start); apply pushed_refl.
  - cbn [forallb] in Hcs. apply andb_prop in Hcs as [Hc Hcs].
    apply Nat.ltb_lt in Hc.
    destruct (connection_line_pushed nodes start c s Hc) as (s1 & E1 & P1).
    destruct (IH Hcs s1) as (s' & E' & P').
    exists s'. split.
    + cbn [fold_left]. cbn [mbind option_bind]. now rewrite E1.
    + assert (P := pushed_trans _ _ _ _ _ _ _ P1 P').
      unfold car_part, ped_part in *. cbn [length].
      destruct (is_pedestrian start); exact P.
Qed.

Lemma node_lines_pushed (nodes : list AIGraphNode) (start : AIGraphNode) (s : LineStatics) :
  forallb (fun c => (c <? length nodes)%nat) (connections start) = true ->
  exists s',
    node_lines nodes start s = Some s'
    /\ pushed (car_part start (node_segments start)) (ped_part start (node_segments start))
         s s'.
Proof.
  intros Hcs. unfold node_lines.
  destruct (connections_pushed nodes start (connections start) Hcs (node_marker start s))
    as (s' & E & P).
  exists s'. split; [exact E|].
  assert (P' := pushed_trans _ _ _ _ _ _ _ (node_marker_pushed start s) P).
  unfold car_part, ped_part, node_segments in *.
  destruct (is_pedestrian start); exact P'.
Qed.

Lemma graph_lines_pushed (nodes ns : list AIGraphNode) :
  forallb (fun n => forallb (fun c => (c <? length nodes)%nat) (connections n)) ns = true ->
  forall s,
  exists s',
    fold_left (fun acc start => acc ≫= node_lines nodes start) ns (Some s) = Some s'
    /\ pushed
         (list_sum (map node_segments (List.filter (fun n => negb (is_pedestrian n)) ns)))
         (list_sum (map node_segments (List.filter is_pedestrian ns)))
         s s'.
Proof.
  induction ns as [|n ns IH]; intros Hns s.
  - exists s. split; [reflexivity | apply pushed_refl].
  - cbn [forallb] in Hns. apply andb_prop in Hns as [Hn Hns].
    destruct (node_lines_pushed nodes n s Hn) as (s1 & E1 & P1).
    destruct (IH Hns s1) as (s' & E' & P').
    exists s'. split.
    + cbn [fold_left]. cbn [mbind option_bind]. now rewrite E1.
    + assert (P := pushed_trans _ _ _ _ _ _ _ P1 P').
      unfold car_part, ped_part in P. cbn [List.filter].
      destruct (is_pedestrian n); cbn [negb map list_sum]; exact P.
Qed.

Lemma character_lines_pushed (pedestrians : list ControlledCharacter) :
  forall s,
    pushed (length (List.filter is_controlled pedestrians)) 0 s
      (character_lines pedestrians s).
Proof.
  unfold character_lines.
  induction pedestrians as [|charac chars IH]; intros s.
  - apply pushed_refl.
  - cbn [fold_left List.filter].
    assert (P1 : pushed (if is_controlled charac then 1 else 0) 0 s (character_line charac s)).
    { unfold character_line, is_controlled.
      destruct (controller charac); [apply pushed_car_pair | apply pushed_refl]. }
    assert (P := pushed_trans _ _ _ _ _ _ _ P1 (IH (character_line charac s))).
    destruct (is_controlled charac); exact P.
Qed.

(** X17.  [renderPaths] on a graph whose connections all point to nodes
    of the graph.  Its loops push two vertices per line segment: on
    [carlines] for every node that is not a pedestrian node, every
    connection of such a node and every character with a controller; on
    [pedlines] for every pedestrian node and every connection of one.
    With both vectors non-empty it then draws exactly two batches, the
    red one over [carlines] and the green one over [pedlines], and
    leaves both statics empty; with one of them empty it indexes an
    empty vector. *)
Theorem renderPaths_segments (nodes : list Paths.AIGraphNode)
    (pedestrians : list Paths.ControlledCharacter) (s : Paths.LineStatics) :
  Paths.graph_closed nodes = true ->
  exists cars peds,
    length cars = (2 * Paths.car_segments nodes pedestrians)%nat
    /\ length peds = (2 * Paths.ped_segments nodes)%nat
    /\ Paths.renderPaths nodes pedestrians s =
       match Paths.carlines s ++ cars, Paths.pedlines s ++ peds with
       | [], _ => Paths.UndefinedPaths "carlines[0]"
       | _ :: _, [] => Paths.UndefinedPaths "pedlines[0]"
       | _ :: _, _ :: _ =>
           Paths.Drawn {| Paths.carlines := []; Paths.pedlines := [] |}
             [Paths.DrawLines Paths.red_img (Paths.carlines s ++ cars);
              Paths.DrawLines Paths.green_img (Paths.pedlines s ++ peds)]
       end.
Proof.
  intros Hclosed.
  destruct (graph_lines_pushed nodes nodes Hclosed s) as (s1 & E1 & P1).
  assert (P := pushed_trans _ _ _ _ _ _ _ P1
                 (character_lines_pushed pedestrians s1)).
  destruct P as (cars & peds & Hc & Hp & Lc & Lp).
  exists cars, peds. split; [|split].
  - rewrite Lc. reflexivity.
  - rewrite Lp. unfold Paths.ped_segments. lia.
  - unfold Paths.renderPaths, Paths.graph_lines. rewrite E1.
    unfold Paths.draw_lines. rewrite Hc, Hp. 
    destruct (Paths.carlines s ++ cars); [reflexivity|].
    destruct (Paths.pedlines s ++ peds); reflexivity.
Qed.

End PathsFacts.

(** ** The statements on concrete scenes *)

#[local] Existing Instance Exact.glm.
#[local] Existing Instance Exact.declarations.

(** A chunk 5000 units along x lies beyond the plane [x <= 1000] of the
    box frustum. *)
Lemma culled_chunk_produces_no_draw_witness :
  renderFrame_geometry Scene.noon Scene.camera Scene.building
    (translate mat4_identity (5000, 0, 0)) (translate mat4_identity (5000, 0, 0))
    None true 0 Scene.r0 = Ok tt Scene.r0
  /\ forall gs,
       for_each (renderFrame_geometry Scene.noon Scene.camera Scene.building
                   (translate mat4_identity (5000, 0, 0))
                   (translate mat4_identity (5000, 0, 0)) None true) gs Scene.r0 =
       for_each (renderFrame_geometry Scene.noon Scene.camera Scene.building
                   (translate mat4_identity (5000, 0, 0))
                   (translate mat4_identity (5000, 0, 0)) None true)
         (List.filter (fun g' => negb (g' =? 0)%N) gs) Scene.r0.
Proof.
  apply (culled_chunk_produces_no_draw Scene.noon Scene.camera Scene.building
           (translate mat4_identity (5000, 0, 0)) (translate mat4_identity (5000, 0, 0))
           None true 0%N Scene.chunk (Scene.plane (-1, 0, 0) 1000) Scene.r0).
  - reflexivity.
  - cbn. auto.
  - reflexivity.
Defined.

(** The two-tier object at 29 units, thresholds 20 and 50. *)
Lemma multi_clump_lod_selection_witness :
  renderInstance Scene.noon Scene.camera Scene.two_tier Scene.r0 =
  bind (renderFrame Scene.noon Scene.camera Scene.building Scene.far_lod
          (mat4_mul (instance_matrixModel Scene.two_tier)
                    (inverse (getTransform Scene.far_lod)))
          None default_queueTransparent)
       (fun _ => ret tt) Scene.r0.
Proof.
  refine (proj1 (proj2 (multi_clump_lod_selection Scene.noon Scene.camera Scene.two_tier
                          Scene.building Scene.root [] Scene.near_lod Scene.far_lod []
                          Scene.r0 _ _ _ _ _ _)) _ _).
  - reflexivity.
  - reflexivity.
  - discriminate.
  - reflexivity.
  - reflexivity.
  - reflexivity.
  - vm_compute. discriminate.
  - reflexivity.
Defined.

(** The single-tier object at 29 units with a linked object good to 100. *)
Lemma single_clump_lod_selection_witness :
  renderInstance Scene.noon Scene.camera Scene.tower_far Scene.r0 =
  renderModel Scene.noon Scene.camera (Some Scene.building)
    (instance_matrixModel Scene.tower_far) None Scene.r0.
Proof.
  refine (proj1 (proj2 (single_clump_lod_selection Scene.noon Scene.camera Scene.tower_far
                          Scene.building Scene.r0 _ _ _))
            Scene.lod_of_tower Scene.building _ _ _ _).
  - reflexivity.
  - reflexivity.
  - reflexivity.
  - reflexivity.
  - reflexivity.
  - vm_compute. discriminate.
  - reflexivity.
Defined.

Lemma glass_entry_valid : Forall entry_valid [Scene.glass_entry].
Proof.
  constructor; [|constructor].
  exists Scene.chunk, {| start := 3; numIndices := 3; material := 1 |}. split; reflexivity.
Qed.

(** The chunk of the scene defers its second subgeometry, and the
    replay of that entry empties the queue. *)
Lemma transparency_queue_replayed_witness :
  (exists r0',
     renderGeometry Scene.noon Scene.building 0 Exact.identity None Scene.r0 = Ok tt r0'
     /\ transparentDrawQueue r0' = [Scene.glass_entry]
     /\ Forall entry_valid [Scene.glass_entry])
  /\ (exists r' draws,
        flushTransparentQueue Scene.noon Scene.r_queued = Ok tt r'
        /\ transparentDrawQueue r' = []
        /\ submitted r' = draws
        /\ Forall2 replays [Scene.glass_entry] draws).
Proof.
  exact (transparency_queue_replayed Scene.noon Scene.building 0%N Exact.identity None
           Scene.chunk Scene.r0 Scene.r_queued eq_refl glass_entry_valid).
Defined.

(** The transparent subgeometry of the scene in the opaque pass. *)
Lemma texture_resolution_witness :
  exists r',
    renderSubgeometry Scene.noon Scene.building 0 1 Exact.identity None true Scene.r0
      = Ok false r'
    /\ gl_Texture2D (gl r') = gl_Texture2D (gl Scene.r0)
    /\ submitted r' = submitted Scene.r0
    /\ rendered r' = rendered Scene.r0.
Proof.
  exact (texture_resolution Scene.noon Scene.building 0%N 1%N Exact.identity None true
           Scene.chunk {| start := 3; numIndices := 3; material := 1 |} Scene.mat_glass
           {| name := "glass" |} [] Scene.r0 eq_refl eq_refl eq_refl eq_refl).
Defined.

(** The fourth subgeometry of the scene names material 7 of 3. *)
Lemma material_out_of_range_still_drawn_witness :
  exists r',
    renderSubgeometry Scene.noon Scene.building 0 3 Exact.identity None true Scene.r0
      = Ok true r'
    /\ gl_Texture2D (gl r') = gl_Texture2D (gl Scene.r0)
    /\ uniCol (gl r') = uniCol (gl Scene.r0)
    /\ uniMatDiffuse (gl r') = uniMatDiffuse (gl Scene.r0)
    /\ uniMatAmbient (gl r') = uniMatAmbient (gl Scene.r0)
    /\ rendered r' = size_t_add (rendered Scene.r0) 1
    /\ submitted r' = submitted Scene.r0 ++ [DrawElements (gl r') 4 3 (4 * 9)].
Proof.
  apply (material_out_of_range_still_drawn Scene.noon Scene.building 0%N 3%N Exact.identity
           None true Scene.chunk {| start := 9; numIndices := 3; material := 7 |} Scene.r0);
    [reflexivity | reflexivity | vm_compute; discriminate].
Defined.


(** The hidden frame "body" and its child "door". *)
Lemma renderFrame_always_recurses_witness :
  exists r',
    renderFrame Scene.noon Scene.camera Scene.building Scene.body_frame Exact.identity
      (Some Scene.hider) true Scene.r0 = Ok true r'.
Proof.
  exact (proj1 (renderFrame_always_recurses Scene.noon Scene.camera Scene.building
                  Scene.body_frame Exact.identity (Some Scene.hider) true Scene.r0 eq_refl)).
Defined.

(** The object hides "body", and "door" below it is drawn all the same:
    three submissions and one deferred entry, as for "door" alone. *)
Example hidden_parent_child_drawn :
  option_map (fun r => (length (submitted r), length (transparentDrawQueue r)))
    (state_of (renderFrame Scene.noon Scene.camera Scene.building Scene.body_frame
                 Exact.identity (Some Scene.hider) true Scene.r0))
  = Some (3%nat, 1%nat)
  /\ option_map (fun r => (length (submitted r), length (transparentDrawQueue r)))
       (state_of (renderFrame Scene.noon Scene.camera Scene.building Scene.door
                    Exact.identity (Some Scene.hider) true Scene.r0))
     = Some (3%nat, 1%nat).
Proof. split; vm_compute; reflexivity. Qed.

(** *** Scenes on which the document's wording fails *)

(** C3 as worded fails in two places.  The object at 29 units with
    threshold 20 and no linked object is not drawn, yet [culled] stays
    0; the object flagged [LOD] at 4 units with threshold 20 is within
    its threshold, yet its model is not rendered. *)
Lemma single_clump_counterexample :
  ~ stated_single_clump Scene.noon Scene.camera Scene.lonely_far Scene.r0
  /\ ~ stated_single_clump Scene.noon Scene.camera Scene.lod_near Scene.r0.
Proof.
  split; intros H.
  - destruct (H Scene.building eq_refl) as [Hfar _].
    destruct Hfar as (r' & Hrun & Hc); [reflexivity | reflexivity |].
    assert (E : option_map culled
                  (state_of (renderInstance Scene.noon Scene.camera Scene.lonely_far Scene.r0))
                = Some 0%N) by (vm_compute; reflexivity).
    rewrite Hrun in E. injection E as E. rewrite E in Hc. discriminate Hc.
  - destruct (H Scene.building eq_refl) as [_ Hnear].
    assert (Hle : instance_mindist Scene.camera Scene.building
                    (instance_matrixModel Scene.lod_near)
                  <= drawDistance (object Scene.lod_near) 0%N)
      by (vm_compute; discriminate).
    specialize (Hnear Hle).
    apply (f_equal (fun o => option_map (fun r => length (submitted r)) (state_of o)))
      in Hnear.
    vm_compute in Hnear. discriminate Hnear.
Qed.

(** C4 as worded fails on the tint: the queued glass subgeometry
    belongs to a chunk with per-material colour, and its replay is drawn
    red, the colour of its material. *)
Lemma replay_tint_counterexample :
  ~ stated_replay_white Scene.noon Scene.r_queued.
Proof.
  intros (r' & draws & Hrun & _ & Hs & HF).
  assert (E : option_map (fun r => map tint_of (submitted r))
                (state_of (flushTransparentQueue Scene.noon Scene.r_queued))
              = Some [(255 # 255, 0 # 255, 0 # 255, 1)]) by (vm_compute; reflexivity).
  rewrite Hrun in E. injection E as E. rewrite Hs in E.
  inversion HF as [|e d q ds (s & ft & n & off & Hd & _ & Hw) Hrest]; subst.
  injection E as E _. rewrite E in Hw.
  destruct Hw as (_ & Hgreen & _). discriminate Hgreen.
Qed.


(** The vehicle loop prints the line for a null handle and goes on to
    dereference it; a handle without a model reaches [renderModel] as a
    null pointer.  Neither vehicle is skipped. *)
Example vehicle_without_model_not_skipped :
  state_of (renderVehicle Scene.noon Scene.camera (Scene.car None) Scene.r0) = None
  /\ state_of (renderVehicle Scene.noon Scene.camera (Scene.car (Some Scene.unloaded))
                 Scene.r0) = None.
Proof. split; reflexivity. Qed.

Lemma camera_band_draws_hq :
  emits (renderWaterHQ_tile Scene.noon Scene.camera_band 64 64) Scene.r0.
Proof. apply renderWaterHQ_tile_emits. split; vm_compute; reflexivity. Qed.

Lemma camera_both_draws_hq :
  emits (renderWaterHQ_tile Scene.noon Scene.camera_both 64 64) Scene.r0.
Proof. apply renderWaterHQ_tile_emits. split; vm_compute; reflexivity. Qed.

Lemma camera_both_draws_lq :
  emits (renderWaterLQ_tile Scene.noon Scene.camera_both 32 32) Scene.r0.
Proof.
  apply renderWaterLQ_tile_emits.
  split; [|split]; vm_compute; (reflexivity || discriminate).
Qed.

(** C7 as worded fails in both parts.  With the camera 150 units from
    the centre of the high-detail tile (64, 64), of size 32, the distance
    less half a tile is 134, not below 128, yet the tile is drawn.  With
    the camera at (-223/2, 32) the high-detail tile (64, 64) and the
    low-detail tile (32, 32), both cornered at the origin, are both
    drawn. *)
Lemma water_counterexample :
  ~ stated_hq_tile_rule Scene.noon Scene.camera_band 64 64 Scene.r0
  /\ ~ stated_water_no_overlap Scene.noon Scene.camera_both Scene.r0.
Proof.
  split.
  - intros [Hdrawn _]. destruct (Hdrawn camera_band_draws_hq) as [Hlt _].
    vm_compute in Hlt. discriminate Hlt.
  - intros Hno. apply (Hno 64 64 32 32)%Z.
    + split; reflexivity.
    + split; [apply camera_both_draws_hq | apply camera_both_draws_lq].
Qed.

(** C8 on the object that is on from 6 to 20, at 3 in the morning: the
    hour is outside the window, the time test does not skip the object,
    and its model is traversed (six submissions). *)
Theorem day_object_drawn_at_night :
  hour_in_window 6 20 3 = false
  /\ instance_time_skipped Scene.night Scene.day_object = false
  /\ option_map (fun r => length (submitted r))
       (state_of (renderInstance Scene.night Scene.camera Scene.day_object Scene.r0))
     = Some 6%nat.
Proof. repeat split; vm_compute; reflexivity. Qed.

(** C1.  [renderFrame] tests a chunk's sphere at the bounds centre
    translated by the translation of the matrix the frame is entered
    with, and draws the chunk under [localmatrix], the frame's
    accumulated matrix.  First, a frame that its own transform moves
    5000 units along x, entered with the identity: the sphere at the
    frame's accumulated position is strictly beyond the plane
    [x <= 1000] (signed distance below minus the radius), yet the chunk
    is drawn, with three subgeometries submitted and one queued.  Then
    the other way round, a frame that its own transform moves back to
    the origin, entered with a matrix 5000 units along x: the sphere at
    the accumulated position passes the test the design document
    describes, yet nothing is submitted or queued. *)
Theorem chunk_culled_by_entry_position :
  (In (Scene.plane (-1, 0, 0) 1000) (planes (frustum Scene.camera))
   /\ signed_distance (Scene.plane (-1, 0, 0) 1000)
        (vec3_add (center (geometryBounds Scene.chunk))
           (column3 (frame_localmatrix Town.annex Exact.identity None 0)))
      < - radius (geometryBounds Scene.chunk)
   /\ exists r',
        renderFrame Scene.noon Scene.camera Town.estate Town.annex Exact.identity None true
          Scene.r0 = Ok true r'
        /\ length (submitted r') = 3%nat
        /\ length (transparentDrawQueue r') = 1%nat)
  /\ (intersects (frustum Scene.camera)
        (vec3_add (center (geometryBounds Scene.chunk))
           (column3 (frame_localmatrix Town.recentred
                       (translate mat4_identity (5000, 0, 0)) None 0)))
        (radius (geometryBounds Scene.chunk)) = true
      /\ exists r',
           renderFrame Scene.noon Scene.camera Town.estate Town.recentred
             (translate mat4_identity (5000, 0, 0)) None true Scene.r0 = Ok true r'
           /\ length (submitted r') = 0%nat
           /\ length (transparentDrawQueue r') = 0%nat).
Proof.
  split; [split; [|split]|split].
  - cbn. auto.
  - vm_compute. reflexivity.
  - eexists. split; [apply returned_final with (default := Scene.r0); vm_compute; reflexivity|].
    split; vm_compute; reflexivity.
  - vm_compute. reflexivity.
  - eexists. split; [apply returned_final with (default := Scene.r0); vm_compute; reflexivity|].
    split; vm_compute; reflexivity.
Qed.

(** C2.  The detail children of a multi-clump instance are taken from
    the first frame of the model, [frames[0]], and not from its root
    frame, [frames[rootFrameIdx]], which [renderModel] starts from.  On
    a model whose root frame is at index 1 and has the far and the near
    detail frame as its second-to-last and its last child, while the
    first frame has two empty children of its own: an instance between
    its two thresholds is visited by a traversal of the first frame's
    second-to-last child and nothing is submitted or queued, where the
    traversal of the root's second-to-last child submits three
    subgeometries and queues one; an instance within its first threshold
    likewise gets the first frame's last child and not the root's. *)
Theorem lod_children_of_first_frame :
  (at_index (frames Town.yard) (rootFrameIdx Town.yard) = Some Town.yard_root
   /\ rev (getChildren Town.yard_root) = [Scene.near_lod; Scene.far_lod; Town.shed])
  /\ (drawDistance (object Town.yard_far) 0%N
        < instance_mindist Scene.camera Town.yard (instance_matrixModel Town.yard_far)
      /\ instance_mindist Scene.camera Town.yard (instance_matrixModel Town.yard_far)
         <= drawDistance (object Town.yard_far) 1%N
      /\ renderInstance Scene.noon Scene.camera Town.yard_far Scene.r0 =
         bind (renderFrame Scene.noon Scene.camera Town.yard Town.shed_low
                 (mat4_mul (instance_matrixModel Town.yard_far)
                           (inverse (getTransform Town.shed_low)))
                 None default_queueTransparent)
              (fun _ => ret tt) Scene.r0
      /\ (exists r',
            renderInstance Scene.noon Scene.camera Town.yard_far Scene.r0 = Ok tt r'
            /\ length (submitted r') = 0%nat
            /\ length (transparentDrawQueue r') = 0%nat)
      /\ (exists r',
            renderFrame Scene.noon Scene.camera Town.yard Scene.far_lod
              (mat4_mul (instance_matrixModel Town.yard_far)
                        (inverse (getTransform Scene.far_lod)))
              None default_queueTransparent Scene.r0 = Ok true r'
            /\ length (submitted r') = 3%nat
            /\ length (transparentDrawQueue r') = 1%nat))
  /\ (instance_mindist Scene.camera Town.yard (instance_matrixModel Town.yard_near)
        <= drawDistance (object Town.yard_near) 0%N
      /\ renderInstance Scene.noon Scene.camera Town.yard_near Scene.r0 =
         bind (renderFrame Scene.noon Scene.camera Town.yard Town.shed_high
                 (mat4_mul (instance_matrixModel Town.yard_near)
                           (inverse (getTransform Town.shed_high)))
                 None default_queueTransparent)
              (fun _ => ret tt) Scene.r0
      /\ (exists r',
            renderInstance Scene.noon Scene.camera Town.yard_near Scene.r0 = Ok tt r'
            /\ length (submitted r') = 0%nat
            /\ length (transparentDrawQueue r') = 0%nat)
      /\ (exists r',
            renderFrame Scene.noon Scene.camera Town.yard Scene.near_lod
              (mat4_mul (instance_matrixModel Town.yard_near)
                        (inverse (getTransform Scene.near_lod)))
              None default_queueTransparent Scene.r0 = Ok true r'
            /\ length (submitted r') = 3%nat
            /\ length (transparentDrawQueue r') = 1%nat)).
Proof.
  assert (Hfar : drawDistance (object Town.yard_far) 0%N
                 < instance_mindist Scene.camera Town.yard (instance_matrixModel Town.yard_far))
    by (vm_compute; reflexivity).
  assert (Hfar1 : instance_mindist Scene.camera Town.yard (instance_matrixModel Town.yard_far)
                  <= drawDistance (object Town.yard_far) 1%N)
    by (vm_compute; discriminate).
  assert (Hnear : instance_mindist Scene.camera Town.yard (instance_matrixModel Town.yard_near)
                  <= drawDistance (object Town.yard_near) 0%N)
    by (vm_compute; discriminate).
  assert (Hnear1 : instance_mindist Scene.camera Town.yard (instance_matrixModel Town.yard_near)
                  <= drawDistance (object Town.yard_near) 1%N)
    by (vm_compute; discriminate).
  split; [split; reflexivity|]. split.
  - split; [exact Hfar|]. split; [exact Hfar1|]. split.
    + refine (proj1 (proj2 (multi_clump_lod_selection Scene.noon Scene.camera Town.yard_far
                Town.yard Town.shed _ Town.shed_high Town.shed_low [] Scene.r0
                eq_refl eq_refl _ eq_refl eq_refl eq_refl)) Hfar1 Hfar).
      discriminate.
    + split.
      * eexists. split; [apply returned_final with (default := Scene.r0); vm_compute; reflexivity|].
        split; vm_compute; reflexivity.
      * eexists. split; [apply returned_final with (default := Scene.r0); vm_compute; reflexivity|].
        split; vm_compute; reflexivity.
  - split; [exact Hnear|]. split.
    + refine (proj2 (proj2 (multi_clump_lod_selection Scene.noon Scene.camera Town.yard_near
                Town.yard Town.shed _ Town.shed_high Town.shed_low [] Scene.r0
                eq_refl eq_refl _ eq_refl eq_refl eq_refl)) Hnear1 Hnear).
      discriminate.
    + split.
      * eexists. split; [apply returned_final with (default := Scene.r0); vm_compute; reflexivity|].
        split; vm_compute; reflexivity.
      * eexists. split; [apply returned_final with (default := Scene.r0); vm_compute; reflexivity|].
        split; vm_compute; reflexivity.
Qed.

(** ** [mix] and the time of day *)

(** X14.  [mix] interpolates between its bytes without wrapping: it is
    [a] at 0 and [b] at 1, and for a fraction between 0 and 1 it lies
    between [a] and [b], also when [b] is the smaller. *)
Theorem mix_interpolates (a b : N) (num : Q) :
  0 <= num -> num <= 1 ->
  mix a b 0 == inject_Z (Z.of_N a)
  /\ mix a b 1 == inject_Z (Z.of_N b)
  /\ ((a <= b)%N -> inject_Z (Z.of_N a) <= mix a b num <= inject_Z (Z.of_N b))
  /\ ((b <= a)%N -> inject_Z (Z.of_N b) <= mix a b num <= inject_Z (Z.of_N a)).
Proof.
  intros H0 H1. unfold mix, Z.sub. rewrite inject_Z_plus, inject_Z_opp.
  set (x := inject_Z (Z.of_N a)). set (y := inject_Z (Z.of_N b)).
  split; [ring|]. split; [ring|].
  split; intros Hab.
  - assert (Hxy : x <= y) by (unfold x, y; rewrite <- Zle_Qle; lia). nra.
  - assert (Hxy : y <= x) by (unfold x, y; rewrite <- Zle_Qle; lia). nra.
Qed.




(** ** The index buffer of the sky dome *)

Lemma store_filled (v : N) (done : list N) (k : nat) :
  (N.of_nat (length done + S k) < SIZE_MAX1)%N ->
  store v (filled done (S k)) = Some (filled (done ++ [v]) k).
Proof.
  intros Hsize. unfold store, filled, vec_size.
  rewrite length_app, length_map, length_replicate.
  replace (N.of_nat (length done) <? N.of_nat (length done + S k))%N with true
    by (symmetry; apply N.ltb_lt; lia).
  f_equal. f_equal.
  - unfold size_t_add. rewrite N.mod_small by lia. rewrite length_app. cbn. lia.
  - rewrite Nat2N.id. cbn [replicate].
    rewrite insert_app_r_alt by (rewrite length_map; lia).
    rewrite length_map, Nat.sub_diag. cbn.
    rewrite map_app. cbn. now rewrite <- app_assoc.
Qed.

Lemma store_all_filled (vs : list N) :
  forall (done : list N) (k : nat),
    (N.of_nat (length done + (length vs + k)) < SIZE_MAX1)%N ->
    store_all vs (filled done (length vs + k)) = Some (filled (done ++ vs) k).
Proof.
  unfold store_all. induction vs as [|v vs IH]; intros done k Hsize.
  - cbn. now rewrite app_nil_r.
  - cbn [fold_left length Nat.add]. cbn [mbind option_bind].
    rewrite store_filled by (cbn [length Nat.add] in Hsize; exact Hsize).
    rewrite IH.
    + now rewrite <- app_assoc.
    + rewrite length_app. cbn [length Nat.add] in *. 
      replace (length done + 1 + (length vs + k))%nat
        with (length done + S (length vs + k))%nat by lia.
      exact Hsize.
Qed.

Lemma quad_indices_length (segments r s : N) : length (quad_indices segments r s) = 6%nat.
Proof. reflexivity. Qed.

Lemma quad_loop_filled (segments r : N) (ss : list N) :
  forall (done : list N) (k : nat),
    (N.of_nat (length done + (6 * length ss + k)) < SIZE_MAX1)%N ->
    fold_left (fun acc s => acc ≫= store_all (quad_indices segments r s)) ss
      (Some (filled done (6 * length ss + k)))
    = Some (filled (done ++ flat_map (quad_indices segments r) ss) k).
Proof.
  induction ss as [|s ss IH]; intros done k Hsize.
  - cbn. now rewrite app_nil_r.
  - cbn [fold_left flat_map]. cbn [mbind option_bind].
    replace (6 * length (s :: ss) + k)%nat
      with (length (quad_indices segments r s) + (6 * length ss + k))%nat
      by (rewrite quad_indices_length; cbn [length]; lia).
    rewrite store_all_filled.
    + rewrite IH; [now rewrite <- app_assoc|].
      rewrite length_app, quad_indices_length. cbn [length] in Hsize.
      replace (length done + 6 + (6 * length ss + k))%nat
        with (length done + (6 * S (length ss) + k))%nat by lia.
      exact Hsize.
    + rewrite quad_indices_length. cbn [length] in Hsize.
      replace (length done + (6 + (6 * length ss + k)))%nat
        with (length done + (6 * S (length ss) + k))%nat by lia.
      exact Hsize.
Qed.

Lemma row_loop_filled (segments : N) (ss rs : list N) :
  forall (done : list N) (k : nat),
    (N.of_nat (length done + (6 * length ss * length rs + k)) < SIZE_MAX1)%N ->
    fold_left
      (fun acc r =>
         fold_left (fun acc s => acc ≫= store_all (quad_indices segments r s)) ss acc)
      rs (Some (filled done (6 * length ss * length rs + k)))
    = Some (filled
              (done ++ flat_map (fun r => flat_map (quad_indices segments r) ss) rs) k).
Proof.
  induction rs as [|r rs IH]; intros done k Hsize.
  - cbn [length]. rewrite Nat.mul_0_r. cbn. now rewrite app_nil_r.
  - cbn [fold_left flat_map].
    replace (6 * length ss * length (r :: rs) + k)%nat
      with (6 * length ss + (6 * length ss * length rs + k))%nat
      by (cbn [length]; lia).
    rewrite quad_loop_filled.
    + rewrite IH; [now rewrite <- app_assoc|].
      rewrite length_app.
      assert (Hq : length (flat_map (quad_indices segments r) ss) = (6 * length ss)%nat).
      { clear. induction ss as [|s ss IH]; [reflexivity|].
        cbn [flat_map]. rewrite length_app, IH, quad_indices_length. cbn [length]. lia. }
      rewrite Hq. cbn [length] in Hsize.
      replace (length done + 6 * length ss + (6 * length ss * length rs + k))%nat
        with (length done + (6 * length ss * S (length rs) + k))%nat by lia.
      exact Hsize.
    + cbn [length] in Hsize.
      replace (length done + (6 * length ss + (6 * length ss * length rs + k)))%nat
        with (length done + (6 * length ss * S (length rs) + k))%nat by lia.
      exact Hsize.
Qed.

Lemma size_t_range_length (n : N) : length (size_t_range n) = N.to_nat n.
Proof. unfold size_t_range. now rewrite length_map, length_seq. Qed.

Lemma size_t_range_lt (n i : N) : In i (size_t_range n) -> (i < n)%N.
Proof.
  unfold size_t_range. rewrite in_map_iff. intros (k & <- & Hk).
  apply in_seq in Hk. lia.
Qed.

Lemma skydome_indices_length (rows segments : N) :
  length (skydome_indices rows segments)
  = (6 * N.to_nat (segments - 1) * N.to_nat (rows - 1))%nat.
Proof.
  unfold skydome_indices. rewrite <- !size_t_range_length.
  generalize (size_t_range (segments - 1)) (size_t_range (rows - 1)). intros ss rs.
  induction rs as [|r rs IH]; cbn [flat_map length]; [lia|].
  rewrite length_app, IH.
  assert (Hq : length (flat_map (quad_indices segments r) ss) = (6 * length ss)%nat).
  { clear. induction ss as [|s ss IH]; [reflexivity|].
    cbn [flat_map]. rewrite length_app, IH, quad_indices_length. cbn [length]. lia. }
  rewrite Hq. lia.
Qed.

Lemma quad_indices_in_range (rows segments r s v : N) :
  (rows * segments <= 2 ^ 16)%N ->
  (r < rows - 1)%N -> (s < segments - 1)%N ->
  In v (quad_indices segments r s) -> (v < rows * segments)%N.
Proof.
  intros Hsize Hr Hs Hv.
  assert (Hmax : ((r + 1) * segments + (s + 1) < rows * segments)%N) by nia.
  assert (H16 : (2 ^ 16 < SIZE_MAX1)%N) by reflexivity.
  assert (Hno_wrap : forall a b, (a <= r + 1)%N -> (b <= s + 1)%N ->
            GLushort (size_t_add (size_t_mul a segments) b) = (a * segments + b)%N).
  { intros a b Ha Hb. unfold GLushort, size_t_add, size_t_mul.
    assert ((a * segments + b < rows * segments)%N) by nia.
    rewrite (N.mod_small (a * segments)) by nia.
    rewrite (N.mod_small (a * segments + b)) by lia.
    apply N.mod_small. lia. }
  assert (Hr1 : size_t_add r 1 = (r + 1)%N)
    by (unfold size_t_add; apply N.mod_small; nia).
  assert (Hs1 : size_t_add s 1 = (s + 1)%N)
    by (unfold size_t_add; apply N.mod_small; nia).
  unfold quad_indices in Hv. rewrite Hr1, Hs1 in Hv. cbn [map] in Hv.
  rewrite !Hno_wrap in Hv by lia.
  cbn [In] in Hv. nia.
Qed.

(** X16.  The index loops of the constructor on a dome of at least one
    row and one segment and at most 65536 vertices: they never store
    past the end of [skydomeIndBuff]; they store [6 (rows-1) (segments-1)]
    indices, each below [rows * segments], the number of vertices; and
    that is fewer than the [segments * rows * 6] indices the sky dome's
    draw call reads, so the elements after them are read without ever
    having been stored. *)
Theorem skydome_indices_stored (rows segments : N) :
  (1 <= rows)%N -> (1 <= segments)%N -> (rows * segments <= 2 ^ 16)%N ->
  exists unset,
    skydomeIndBuff rows segments
      = Some (filled (skydome_indices rows segments) unset)
    /\ Forall (fun v => (v < rows * segments)%N) (skydome_indices rows segments)
    /\ N.of_nat (length (skydome_indices rows segments))
       = (6 * (rows - 1) * (segments - 1))%N
    /\ N.of_nat (length (skydome_indices rows segments) + unset)
       = skydome_draw_count rows segments
    /\ (0 < unset)%nat.
Proof.
  intros Hrows Hsegs Hsize.
  assert (H16 : (2 ^ 16 < SIZE_MAX1)%N) by reflexivity.
  assert (H16' : (6 * 2 ^ 16 < SIZE_MAX1)%N) by reflexivity.
  assert (Hr : (rows <= 2 ^ 16)%N) by nia.
  assert (Hs : (segments <= 2 ^ 16)%N) by nia.
  set (written := (6 * N.to_nat (segments - 1) * N.to_nat (rows - 1))%nat).
  set (total := N.to_nat (rows * segments * 6)).
  assert (Hwt : (written < total)%nat) by (unfold written, total; nia).
  set (unset := (total - written)%nat).
  assert (Htotal : total = (written + unset)%nat) by (unfold unset; lia).
  assert (Hunset : (0 < unset)%nat) by (unfold unset; lia).
  clearbody unset.
  exists unset.
  split; [|split; [|split; [|split]]].
  - unfold skydomeIndBuff, skydome_indices.
    rewrite !size_t_sub_small by lia.
    replace (size_t_mul (size_t_mul rows segments) 6) with (rows * segments * 6)%N
      by (unfold size_t_mul; rewrite (N.mod_small (rows * segments)) by lia;
          symmetry; apply N.mod_small; lia).
    fold total. rewrite Htotal.
    replace written
      with (6 * length (size_t_range (segments - 1)) * length (size_t_range (rows - 1)))%nat
      by (rewrite !size_t_range_length; reflexivity).
    change (0%N, replicate ?n None) with (filled [] n).
    rewrite row_loop_filled; [reflexivity|].
    rewrite !size_t_range_length. fold written. cbn [length]. unfold total in *. lia.
  - apply Forall_forall. intros v Hv. apply list_elem_of_In in Hv.
    unfold skydome_indices in Hv.
    apply in_flat_map in Hv as (r & Hr' & Hv). apply in_flat_map in Hv as (s & Hs' & Hv).
    apply size_t_range_lt in Hr', Hs'.
    eapply quad_indices_in_range; eauto.
  - rewrite skydome_indices_length. lia.
  - rewrite skydome_indices_length. fold written. unfold skydome_draw_count, size_t_mul.
    rewrite (N.mod_small (segments * rows)) by lia.
    rewrite N.mod_small by lia. unfold total in *. lia.
  - exact Hunset.
Qed.
(** ** The statements on the populated scene *)

(** The traversal of the building from its root frame. *)
Lemma renderFrame_counts_draws_not_culls_witness :
  culled Town.after_root = culled Scene.r0
  /\ cout Town.after_root = cout Scene.r0
  /\ (exists draws,
        submitted Town.after_root = submitted Scene.r0 ++ draws
        /\ Forall is_DrawElements draws
        /\ ((rendered Scene.r0 < SIZE_MAX1)%N ->
            rendered Town.after_root
            = ((rendered Scene.r0 + N.of_nat (length draws)) mod SIZE_MAX1)%N))
  /\ (exists entries,
        transparentDrawQueue Town.after_root = transparentDrawQueue Scene.r0 ++ entries
        /\ Forall entry_valid entries).
Proof.
  apply (renderFrame_counts_draws_not_culls Scene.noon Scene.camera Scene.building
           Scene.root Exact.identity None true Scene.r0 Town.after_root true).
  unfold Town.after_root. apply returned_final. vm_compute. reflexivity.
Defined.

(** The "wheels" model: the first frame called "wheel" has a child with
    one chunk inside the frustum and one outside. *)
Lemma renderWheel_counts_culled_witness :
  exists r',
    renderWheel Town.busy Scene.camera Town.wheels_model Exact.identity "wheel" Scene.r0
      = Ok tt r'
    /\ culled r' =
         ((culled Scene.r0
           + N.of_nat (culled_count Scene.camera Town.wheels_model Exact.identity
                         (getGeometries Town.tyre))) mod SIZE_MAX1)%N
    /\ cout r' = cout Scene.r0.
Proof.
  apply (renderWheel_counts_culled Town.busy Scene.camera Town.wheels_model Exact.identity
           "wheel" Town.hub Town.tyre [] Scene.r0).
  - reflexivity.
  - reflexivity.
  - intros g [<- | [<- | []]]; eexists; reflexivity.
  - reflexivity.
Defined.

(** A frame on the populated world. *)
Lemma rendered_counts_frame_draws_witness :
  exists draws,
    submitted Town.after_frame = submitted Scene.r0 ++ draws
    /\ Forall is_DrawElements draws
    /\ rendered Town.after_frame = (N.of_nat (length draws) mod SIZE_MAX1)%N
    /\ transparentDrawQueue Town.after_frame = []
    /\ renderAlpha Town.after_frame = 1 # 2.
Proof.
  apply (rendered_counts_frame_draws Town.busy Scene.camera (1 # 2) Scene.r0
           Town.after_frame).
  unfold Town.after_frame. apply returned_final. vm_compute. reflexivity.
Defined.

Lemma flush_never_stops_frame_witness :
  exists r',
    renderWorld_objects Town.busy Scene.camera (1 # 2) Scene.r0 = Ok tt r'
    /\ flushTransparentQueue Town.busy Town.after_vehicles = Ok tt r'
    /\ transparentDrawQueue r' = [].
Proof.
  apply (flush_never_stops_frame Town.busy Scene.camera (1 # 2) Scene.r0 Town.started
           Town.after_pedestrians Town.after_instances Town.after_vehicles).
  - constructor.
  - reflexivity.
  - unfold Town.after_pedestrians. apply returned_final. vm_compute. reflexivity.
  - unfold Town.after_instances. apply returned_final. vm_compute. reflexivity.
  - unfold Town.after_vehicles. apply returned_final. vm_compute. reflexivity.
Defined.

(** The populated world from a fresh renderer and from a used one. *)
Lemma frame_counters_depend_on_queue_only_witness :
  match renderWorld_objects Town.busy Scene.camera (1 # 2) Scene.r0,
        renderWorld_objects Town.busy Scene.camera (1 # 2) Town.r_used with
  | Ok _ r1', Ok _ r2' => rendered r1' = rendered r2' /\ culled r1' = culled r2'
  | Undefined _ _, Undefined _ _ => True
  | _, _ => False
  end.
Proof.
  apply (frame_counters_depend_on_queue_only Town.busy Scene.camera (1 # 2) Scene.r0
           Town.r_used).
  reflexivity.
Defined.

Lemma consecutive_frames_same_statistics_witness :
  exists r'',
    renderWorld_objects Town.busy Scene.camera (1 # 2) Town.after_frame = Ok tt r''
    /\ rendered r'' = rendered Town.after_frame
    /\ culled r'' = culled Town.after_frame.
Proof.
  apply (consecutive_frames_same_statistics Town.busy Scene.camera (1 # 2) Scene.r0
           Town.after_frame).
  - reflexivity.
  - unfold Town.after_frame. apply returned_final. vm_compute. reflexivity.
Defined.

(** The car on two wheels in a world without object types. *)
Lemma unknown_wheel_type_draws_body_only_witness :
  renderVehicle Scene.noon Scene.camera (Town.car_on_wheels (Some Scene.loaded)) Scene.r0 =
  renderModel Scene.noon Scene.camera (Some Scene.building)
    (mat4_mul (translate mat4_identity (0, 0, 0)) (mat4_cast Scene.no_rotation))
    (Some Scene.car_object) Scene.r0.
Proof.
  apply (unknown_wheel_type_draws_body_only Scene.noon Scene.camera
           (Town.car_on_wheels (Some Scene.loaded)) Scene.loaded Scene.r0).
  - reflexivity.
  - reflexivity.
Defined.

(** The two wheels of the car where the "wheels" model is not loaded. *)
Lemma wheels_model_missing_witness :
  exists r',
    for_each (renderVehicleWheel Town.garage Scene.camera
                (Town.car_on_wheels (Some Scene.loaded)))
      (wheels (Town.car_on_wheels (Some Scene.loaded))) Scene.r0 = Ok tt r'
    /\ cout r' = cout Scene.r0 ++ repeat (WheelModelNotLoaded "wheel") 2
    /\ submitted r' = submitted Scene.r0
    /\ transparentDrawQueue r' = transparentDrawQueue Scene.r0
    /\ rendered r' = rendered Scene.r0 /\ culled r' = culled Scene.r0.
Proof.
  apply (proj1 (wheels_model_missing Town.garage Scene.camera
                  (Town.car_on_wheels (Some Scene.loaded)) Town.wheel_data
                  (wheels (Town.car_on_wheels (Some Scene.loaded))) Scene.r0 eq_refl)
           Scene.unloaded).
  - reflexivity.
  - reflexivity.
Defined.

(** The two-tier object on a model whose first frame has no children. *)
Lemma far_lod_needs_two_children_witness :
  renderInstance Scene.noon Scene.camera Town.flat_two_tier Scene.r0
  = Undefined "RF->getChildren()[LODindex]" Scene.r0.
Proof.
  apply (far_lod_needs_two_children Scene.noon Scene.camera Town.flat_two_tier Town.flat
           Scene.near_lod [] Scene.r0).
  - reflexivity.
  - reflexivity.
  - discriminate.
  - reflexivity.
  - cbn. lia.
  - vm_compute. discriminate.
  - vm_compute. reflexivity.
Defined.

(** The chunk without the flag, drawn for the car, whose colours are
    blue and green, with a red material. *)
Lemma vertex_coloured_chunk_drawn_white_witness :
  exists r' draws,
    renderGeometry Town.busy Town.wheels_model 0 Exact.identity (Some Scene.car_object)
      Scene.r0 = Ok tt r'
    /\ submitted r' = submitted Scene.r0 ++ draws
    /\ Forall (fun d => tint_of d = white) draws.
Proof.
  apply (vertex_coloured_chunk_drawn_white Town.busy Town.wheels_model 0%N Exact.identity
           (Some Scene.car_object) Town.painted Scene.r0).
  - reflexivity.
  - reflexivity.
Defined.

(** Half way between 200 and 100. *)
Lemma mix_interpolates_witness :
  mix 200 100 0 == inject_Z (Z.of_N 200)
  /\ mix 200 100 1 == inject_Z (Z.of_N 100)
  /\ ((200 <= 100)%N ->
      inject_Z (Z.of_N 200) <= mix 200 100 (1 # 2) <= inject_Z (Z.of_N 100))
  /\ ((100 <= 200)%N ->
      inject_Z (Z.of_N 100) <= mix 200 100 (1 # 2) <= inject_Z (Z.of_N 200)).
Proof.
  apply (mix_interpolates 200 100 (1 # 2)).
  - vm_compute. discriminate.
  - vm_compute. discriminate.
Defined.

(** The dome of the renderer: 10 rows of 8 segments. *)
Lemma skydome_indices_stored_witness :
  exists unset,
    skydomeIndBuff skydomeRows skydomeSegments
      = Some (filled (skydome_indices skydomeRows skydomeSegments) unset)
    /\ Forall (fun v => (v < skydomeRows * skydomeSegments)%N)
         (skydome_indices skydomeRows skydomeSegments)
    /\ N.of_nat (length (skydome_indices skydomeRows skydomeSegments))
       = (6 * (skydomeRows - 1) * (skydomeSegments - 1))%N
    /\ N.of_nat (length (skydome_indices skydomeRows skydomeSegments) + unset)
       = skydome_draw_count skydomeRows skydomeSegments
    /\ (0 < unset)%nat.
Proof.
  apply (skydome_indices_stored skydomeRows skydomeSegments).
  - vm_compute. discriminate.
  - vm_compute. discriminate.
  - vm_compute. discriminate.
Defined.

(** The crossing, with one character under control. *)
Lemma renderPaths_segments_witness :
  exists cars peds,
    length cars = (2 * Paths.car_segments Paths.crossing [Paths.walker])%nat
    /\ length peds = (2 * Paths.ped_segments Paths.crossing)%nat
    /\ Paths.renderPaths Paths.crossing [Paths.walker] Paths.no_lines =
       match Paths.carlines Paths.no_lines ++ cars, Paths.pedlines Paths.no_lines ++ peds with
       | [], _ => Paths.UndefinedPaths "carlines[0]"
       | _ :: _, [] => Paths.UndefinedPaths "pedlines[0]"
       | _ :: _, _ :: _ =>
           Paths.Drawn {| Paths.carlines := []; Paths.pedlines := [] |}
             [Paths.DrawLines Paths.red_img (Paths.carlines Paths.no_lines ++ cars);
              Paths.DrawLines Paths.green_img (Paths.pedlines Paths.no_lines ++ peds)]
       end.
Proof.
  apply (renderPaths_segments Paths.crossing [Paths.walker] Paths.no_lines).
  reflexivity.
Defined.
